(** * bittorrent-dht: a shallow embedding of [client.js]

    The development follows the layout of the source file: buffers and
    SHA-1 first, then the values exchanged on the wire, the node object
    and the event handlers of [DHT.prototype], and finally the properties
    of the handlers.

    JavaScript values are embedded as the inductive type [jsval]; the node
    object [self] is the record [DHT]; a method is a function in the
    state-and-exception monad [M], so that a [throw] keeps the mutations
    made before it, as in the source.  Packages that the file only
    [require]s (k-bucket, string2compact, the number coercion of the
    language itself) are interfaces: the classes [KBucketOps] and
    [Runtime]; of bncode and compact2string the file models what they
    accept and what they throw on. *)

From Stdlib Require Import ZArith NArith List Strings.String Strings.Ascii.
From Stdlib Require Import Strings.Byte Numbers.DecimalString Sorting.Sorted.
From stdpp Require Import base option gmap strings list sorting.

Set Warnings "-register-all".
Set Default Proof Using "Type*".
Import ListNotations.

Abbreviation bytes := (list byte).

#[global] Instance byte_eq_dec : EqDecision byte := Byte.byte_eq_dec.

(** ** Buffers *)

Definition byte_of_N (n : N) : byte :=
  match Byte.of_N (n mod 256) with Some b => b | None => x00 end.

(** [buf.readUIntBE]: the bytes of a buffer as a big-endian number. *)
Definition be_bytes_to_N (bs : bytes) : N :=
  fold_left (fun acc b => (acc * 256 + Byte.to_N b)%N) bs 0%N.

(** The [len] low-order bytes of [n], most significant first. *)
Fixpoint N_to_be_bytes (len : nat) (n : N) : bytes :=
  match len with
  | O => []
  | S len' => N_to_be_bytes len' (n / 256) ++ [byte_of_N n]
  end.

(** [buf.slice(start, end)]; both ends are clamped to the buffer. *)
Definition slice {A} (buf : list A) (start stop : nat) : list A :=
  firstn (stop - start) (skipn start buf).

Definition hex_digit (n : N) : ascii :=
  ascii_of_N (if (n <? 10)%N then 48 + n else 87 + n).

(** [buf.toString('hex')] *)
Fixpoint hex (buf : bytes) : string :=
  match buf with
  | [] => EmptyString
  | b :: rest =>
      String (hex_digit (Byte.to_N b / 16))
        (String (hex_digit (Byte.to_N b mod 16)) (hex rest))
  end.

Definition hex2bin (c : ascii) : option N :=
  let n := N_of_ascii c in
  if ((48 <=? n) && (n <=? 57))%N then Some (n - 48)%N
  else if ((97 <=? n) && (n <=? 102))%N then Some (n - 87)%N
  else if ((65 <=? n) && (n <=? 70))%N then Some (n - 55)%N
  else None.

(** [new Buffer(s, 'hex')]: [None] stands for the TypeError
    "Invalid hex string" (odd length, or a character that is no hex digit). *)
Fixpoint unhex (s : string) : option bytes :=
  match s with
  | EmptyString => Some []
  | String _ EmptyString => None
  | String c1 (String c2 rest) =>
      match hex2bin c1, hex2bin c2, unhex rest with
      | Some a, Some b, Some tl => Some (byte_of_N (a * 16 + b) :: tl)
      | _, _, _ => None
      end
  end.

(** ** SHA-1 (FIPS 180), the digest that [sha1] obtains from Rusha *)

Module SHA1.
Local Open Scope N_scope.

Definition word32 (n : N) : N := n mod 2 ^ 32.

Definition rotl32 (k : N) (w : N) : N :=
  N.lor (word32 (N.shiftl w k)) (N.shiftr w (32 - k)).

Definition not32 (w : N) : N := N.lxor w (2 ^ 32 - 1).

Fixpoint chunks {A} (size : nat) (fuel : nat) (l : list A) : list (list A) :=
  match fuel with
  | O => []
  | S fuel' =>
      match l with
      | [] => []
      | _ => firstn size l :: chunks size fuel' (skipn size l)
      end
  end.

(** The message, a [0x80] byte, zeros up to 56 modulo 64, and the bit
    length on eight bytes. *)
Definition pad (msg : bytes) : bytes :=
  let len := length msg in
  let zeros := ((119 - len mod 64) mod 64)%nat in
  msg ++ [x80] ++ repeat x00 zeros ++ N_to_be_bytes 8 (8 * N.of_nat len).

(** The schedule is kept newest word first while it is extended. *)
Fixpoint expand (n : nat) (ws : list N) : list N :=
  match n with
  | O => ws
  | S n' =>
      let w := rotl32 1 (N.lxor (N.lxor (nth 2 ws 0) (nth 7 ws 0))
                                (N.lxor (nth 13 ws 0) (nth 15 ws 0))) in
      expand n' (w :: ws)
  end.

Definition schedule (block : bytes) : list N :=
  rev (expand 64 (rev (map be_bytes_to_N (chunks 4 16 block)))).

Definition f (t : nat) (b c d : N) : N * N :=
  if (t <? 20)%nat then (N.lor (N.land b c) (N.land (not32 b) d), 0x5A827999)
  else if (t <? 40)%nat then (N.lxor (N.lxor b c) d, 0x6ED9EBA1)
  else if (t <? 60)%nat then
    (N.lor (N.lor (N.land b c) (N.land b d)) (N.land c d), 0x8F1BBCDC)
  else (N.lxor (N.lxor b c) d, 0xCA62C1D6).

Record state := State { h0 : N; h1 : N; h2 : N; h3 : N; h4 : N }.

Fixpoint rounds (t : nat) (ws : list N) (s : state) : state :=
  match ws with
  | [] => s
  | w :: ws' =>
      let '(ft, kt) := f t (h1 s) (h2 s) (h3 s) in
      let temp := word32 (rotl32 5 (h0 s) + ft + h4 s + kt + w) in
      rounds (S t) ws' (State temp (h0 s) (rotl32 30 (h1 s)) (h2 s) (h3 s))
  end.

Definition block (s : state) (blk : bytes) : state :=
  let r := rounds 0 (schedule blk) s in
  State (word32 (h0 s + h0 r)) (word32 (h1 s + h1 r)) (word32 (h2 s + h2 r))
        (word32 (h3 s + h3 r)) (word32 (h4 s + h4 r)).

Definition init : state :=
  State 0x67452301 0xEFCDAB89 0x98BADCFE 0x10325476 0xC3D2E1F0.

Definition rawDigest (buf : bytes) : bytes :=
  let padded := pad buf in
  let s := fold_left block (chunks 64 (length padded) padded) init in
  N_to_be_bytes 4 (h0 s) ++ N_to_be_bytes 4 (h1 s) ++ N_to_be_bytes 4 (h2 s)
    ++ N_to_be_bytes 4 (h3 s) ++ N_to_be_bytes 4 (h4 s).
End SHA1.

(** [sha1 (buf)]: the 20-byte digest as a Buffer. *)
Definition sha1 (buf : bytes) : bytes := SHA1.rawDigest buf.

(** ** JavaScript values *)

(** Numbers are integers or NaN: a port, a transaction id, an error code
    and a bencoded integer are all integral. *)
Inductive jsnum :=
| Num (z : Z)
| NaN.

(** A decoded bencode value is a number, a Buffer, an array or an object;
    the messages the node builds also hold strings, and a field that is
    absent reads as [JUndefined]. *)
Inductive jsval :=
| JUndefined
| JNum (n : jsnum)
| JStr (s : string)
| JBuf (b : bytes)
| JArr (elems : list jsval)
| JObj (props : list (string * jsval)).

Inductive jserror :=
| TypeError (msg : string)
| ReferenceError (msg : string)
| RangeError (msg : string)
| Error (msg : string)
(** [new Error(Array.isArray(e) ? e.join(' ') : undefined)], for the field
    [e] of an inbound error message *)
| ReplyError (e : jsval)
(** [new Error(err)] *)
| WrappedError (err : jserror).

(** [!!v] *)
Definition truthy (v : jsval) : bool :=
  match v with
  | JUndefined => false
  | JNum (Num 0) => false
  | JNum NaN => false
  | JStr EmptyString => false
  | _ => true
  end.

Fixpoint assoc (name : string) (props : list (string * jsval)) : jsval :=
  match props with
  | [] => JUndefined
  | (k, v) :: rest => if String.eqb name k then v else assoc name rest
  end.

(** [v.name] for a value other than [undefined]: an own property of an
    object; numbers, Buffers and arrays have none of the names read by the
    handlers. *)
Definition get_prop (v : jsval) (name : string) : jsval :=
  match v with
  | JObj props => assoc name props
  | _ => JUndefined
  end.

(** [v.name = x] on an object *)
Fixpoint set_assoc (name : string) (x : jsval) (props : list (string * jsval))
  : list (string * jsval) :=
  match props with
  | [] => [(name, x)]
  | (k, v) :: rest =>
      if String.eqb name k then (k, x) :: rest else (k, v) :: set_assoc name x rest
  end.

Definition set_prop (v : jsval) (name : string) (x : jsval) : jsval :=
  match v with
  | JObj props => JObj (set_assoc name x props)
  | _ => v
  end.

(** [a && b], where [b] is only evaluated on a truthy [a] *)
Definition js_and (a : jsval) (b : jsval) : jsval := if truthy a then b else a.

Definition Z_to_string (z : Z) : string := NilZero.string_of_int (Z.to_int z).

(** The text of a number, as in ['' + n]. *)
Definition jsnum_to_string (n : jsnum) : string :=
  match n with
  | Num z => Z_to_string z
  | NaN => "NaN"
  end.

(** [Buffer.isBuffer(a) && Buffer.isBuffer(b) && a.equals(b)] of package
    buffer-equal; it answers [undefined], which is falsy, when an argument
    is no Buffer. *)
Definition bufferEqual (a b : jsval) : bool :=
  match a, b with
  | JBuf x, JBuf y => bool_decide (x = y)
  | _, _ => false
  end.

(** ** Constants *)

Definition K : nat := 8.
Definition MAX_CONCURRENCY : Z := 3.
Definition SEND_TIMEOUT : Z := 2000.

Module MESSAGE_TYPE.
Definition QUERY : string := "q".
Definition RESPONSE : string := "r".
Definition ERROR : string := "e".
End MESSAGE_TYPE.

Module ERROR_TYPE.
Definition GENERIC : Z := 201.
Definition SERVER : Z := 202.
Definition PROTOCOL : Z := 203.
Definition METHOD_UNKNOWN : Z := 204.
End ERROR_TYPE.

(** ** Interfaces of the required packages *)

(** A contact of the routing table: [{ id: nodeId, addr: addr }]. *)
Record contact := Contact { contact_id : bytes; contact_addr : string }.

(** The part of package k-bucket that the client calls.  [kb_closest id n]
    is [nodes.closest({ id: id }, n)]. *)
Class KBucketOps (T : Type) := {
  kb_new : bytes -> T;
  kb_add : contact -> T -> T;
  kb_get : bytes -> T -> option contact;
  kb_remove : contact -> T -> T;
  kb_closest : bytes -> nat -> T -> list contact
}.

(** What the language and the address packages provide:
    - [ToNumber v] is the number coercion of the language on a string, a
      Buffer, an array or an object (it can throw on an object);
    - [string2compact addr] is the 6-byte compact form of ["ip:port"], or
      the exception the package throws on an address it cannot parse;
    - [compact2string_ipv6] is the text that package compact2string gives
      to an 18-byte buffer. *)
Class Runtime := {
  ToNumber : jsval -> jserror + jsnum;
  string2compact : string -> jserror + bytes;
  compact2string_ipv6 : bytes -> string
}.

(** Modelled from the spec: the distance by which package k-bucket orders
    contacts, the XOR of two ids read as an unsigned big-endian number. *)
Fixpoint xor_bytes (a b : bytes) : list N :=
  match a, b with
  | x :: a', y :: b' => N.lxor (Byte.to_N x) (Byte.to_N y) :: xor_bytes a' b'
  | _, _ => []
  end.

Definition distance (a b : bytes) : N :=
  fold_left (fun acc d => (acc * 256 + d)%N) (xor_bytes a b) 0%N.

(** ** The node object *)

(** A function that the caller of a method hands in: the caller's own,
    known by a name, or the default [function () {}]. *)
Inductive user_fn :=
| Noop
| UserFn (name : string).

(** The callback of a [_send...] method: a caller's function, or the
    closure [onResponse] of the lookup whose environment is
    [lookups !! l]. *)
Inductive callback :=
| User (f : user_fn)
| LookupOnResponse (l : nat).

(** The function registered with [_getTransactionId]: the callback itself
    ([_sendPing], [_sendAnnouncePeer]) or the closure [done] of
    [_sendFindNode] or [_sendGetPeers]. *)
Inductive resolver :=
| Direct (cb : callback)
| FindNodeDone (cb : callback)
| GetPeersDone (infoHash : bytes) (cb : callback).

(** What the node does to the outside, in order. *)
Inductive effect :=
(** [socket.send(bncode.encode(message), 0, length, port, host, cb)] *)
| SocketSend (message : jsval) (port : jsval) (host : string)
| SocketBind (port : Z)
| SocketClose
(** [portfinder.getPort(onPort)] *)
| GetPort
(** [self.once('listening', onlistening)] *)
| OnceListening (listener : string)
| EmitListening (port : option Z)
| EmitNode (addr : string) (nodeId : bytes)
| EmitPeer (addr : string) (infoHash : jsval)
| EmitWarning (err : jserror)
(** a caller's function [name] is called with [(err, res)] *)
| Call (name : string) (err : option jserror) (res : jsval)
(** the function registered for transaction [tid] of [addr] is called
    with [(err, data)] *)
| Resolve (addr : string) (tid : N) (err : option jserror) (data : jsval).

(** [{ cb: onResponse, timeout: setTimeout(onTimeout, SEND_TIMEOUT) }]:
    both closures belong to the call of [_getTransactionId] that returned
    [tid] for [addr], and are named by that pair. *)
Record transaction := Transaction { cb : string * N; timeout : string * N }.

(** [self.transactions[addr]]: an array with the extra property
    [nextTransactionId]; a slot holds a transaction or [null]. *)
Record reqs := Reqs {
  slots : gmap N (option transaction);
  nextTransactionId : N
}.

(** The wrapper [once(fn)]: [f.called] and the wrapped function. *)
Record once_env := OnceEnv { called : bool; fn : resolver }.

(** The variables that the closures [query] and [onResponse] of one call
    of [lookup] share. *)
Record lookup_env := LookupEnv {
  lookup_id : bytes;
  findNode : bool;
  queried : gset string;
  pending : Z;
  lookup_cb : user_fn
}.

Record lookup_opts := LookupOpts {
  opts_findNode : bool;
  opts_addrs : option (list string)
}.

(** An id given to the public interface: [{string|Buffer}]. *)
Inductive id_arg :=
| IdBuffer (b : bytes)
| IdString (s : string).

Definition js_of_id (id : id_arg) : jsval :=
  match id with
  | IdBuffer b => JBuf b
  | IdString s => JStr s
  end.

Section Node.
Context {KBucket : Type} `{!KBucketOps KBucket} `{!Runtime}.

(** The fields of [self], the armed timers and the closure environments
    that outlive a call, and the trace of effects.  The socket is not part
    of the state: what the node asks of it is recorded in the trace. *)
Record DHT := mkDHT {
  nodeId : bytes;
  listening : bool;
  _closed : bool;
  port : option Z;
  nodes : option KBucket;
  _addrData : option (gmap string (string * jsnum));
  transactions : gmap string reqs;
  peers : option (gmap string (list bytes));
  secrets : option (bytes * bytes);
  _rotateInterval : bool;
  timers : gset (string * N);
  onces : gmap (string * N) once_env;
  lookups : list lookup_env;
  trace : list effect
}.

Definition set_listening v (s : DHT) : DHT :=
  mkDHT (nodeId s) v (_closed s) (port s) (nodes s) (_addrData s)
    (transactions s) (peers s) (secrets s) (_rotateInterval s) (timers s)
    (onces s) (lookups s) (trace s).

Definition set_closed v (s : DHT) : DHT :=
  mkDHT (nodeId s) (listening s) v (port s) (nodes s) (_addrData s)
    (transactions s) (peers s) (secrets s) (_rotateInterval s) (timers s)
    (onces s) (lookups s) (trace s).

Definition set_port v (s : DHT) : DHT :=
  mkDHT (nodeId s) (listening s) (_closed s) v (nodes s) (_addrData s)
    (transactions s) (peers s) (secrets s) (_rotateInterval s) (timers s)
    (onces s) (lookups s) (trace s).

Definition set_nodes v (s : DHT) : DHT :=
  mkDHT (nodeId s) (listening s) (_closed s) (port s) v (_addrData s)
    (transactions s) (peers s) (secrets s) (_rotateInterval s) (timers s)
    (onces s) (lookups s) (trace s).

Definition set_addrData v (s : DHT) : DHT :=
  mkDHT (nodeId s) (listening s) (_closed s) (port s) (nodes s) v
    (transactions s) (peers s) (secrets s) (_rotateInterval s) (timers s)
    (onces s) (lookups s) (trace s).

Definition set_transactions v (s : DHT) : DHT :=
  mkDHT (nodeId s) (listening s) (_closed s) (port s) (nodes s)
    (_addrData s) v (peers s) (secrets s) (_rotateInterval s) (timers s)
    (onces s) (lookups s) (trace s).

Definition set_peers v (s : DHT) : DHT :=
  mkDHT (nodeId s) (listening s) (_closed s) (port s) (nodes s)
    (_addrData s) (transactions s) v (secrets s) (_rotateInterval s)
    (timers s) (onces s) (lookups s) (trace s).

Definition set_secrets v (s : DHT) : DHT :=
  mkDHT (nodeId s) (listening s) (_closed s) (port s) (nodes s)
    (_addrData s) (transactions s) (peers s) v (_rotateInterval s) (timers s)
    (onces s) (lookups s) (trace s).

Definition set_rotateInterval v (s : DHT) : DHT :=
  mkDHT (nodeId s) (listening s) (_closed s) (port s) (nodes s)
    (_addrData s) (transactions s) (peers s) (secrets s) v (timers s)
    (onces s) (lookups s) (trace s).

Definition set_timers v (s : DHT) : DHT :=
  mkDHT (nodeId s) (listening s) (_closed s) (port s) (nodes s)
    (_addrData s) (transactions s) (peers s) (secrets s) (_rotateInterval s) v
    (onces s) (lookups s) (trace s).

Definition set_onces v (s : DHT) : DHT :=
  mkDHT (nodeId s) (listening s) (_closed s) (port s) (nodes s)
    (_addrData s) (transactions s) (peers s) (secrets s) (_rotateInterval s)
    (timers s) v (lookups s) (trace s).

Definition set_lookups v (s : DHT) : DHT :=
  mkDHT (nodeId s) (listening s) (_closed s) (port s) (nodes s)
    (_addrData s) (transactions s) (peers s) (secrets s) (_rotateInterval s)
    (timers s) (onces s) v (trace s).

Definition set_trace v (s : DHT) : DHT :=
  mkDHT (nodeId s) (listening s) (_closed s) (port s) (nodes s)
    (_addrData s) (transactions s) (peers s) (secrets s) (_rotateInterval s)
    (timers s) (onces s) (lookups s) v.


(** *** The monad of methods: state, and exceptions that keep the state *)

Inductive outcome (A : Type) :=
| Ok (a : A) (st : DHT)
| Throw (e : jserror) (st : DHT).
Arguments Ok {A} a st.
Arguments Throw {A} e st.

Definition M (A : Type) := DHT -> outcome A.

Definition ret {A} (a : A) : M A := fun st => Ok a st.

Definition bind {A B} (m : M A) (k : A -> M B) : M B :=
  fun st =>
    match m st with
    | Ok a st' => k a st'
    | Throw e st' => Throw e st'
    end.

Definition throw {A} (e : jserror) : M A := fun st => Throw e st.

Definition gets {A} (f : DHT -> A) : M A := fun st => Ok (f st) st.

Definition modify (f : DHT -> DHT) : M unit := fun st => Ok tt (f st).

Definition lift {A} (r : jserror + A) : M A :=
  match r with
  | inl e => throw e
  | inr a => ret a
  end.

Definition log (e : effect) : M unit :=
  modify (fun st => set_trace (trace st ++ [e]) st).

(** The state a method leaves, whether it returns or throws. *)
Definition final {A} (o : outcome A) : DHT :=
  match o with
  | Ok _ st => st
  | Throw _ st => st
  end.

End Node.

Arguments DHT KBucket : clear implicits.
Arguments M KBucket A : clear implicits.
Arguments outcome KBucket A : clear implicits.
Arguments Ok {KBucket A} a st.
Arguments Throw {KBucket A} e st.

Declare Scope js_scope.
Delimit Scope js_scope with js.
Notation "x <- m ;; k" := (bind m (fun x => k))
  (at level 100, m at next level, right associativity) : js_scope.
Notation "m ;; k" := (bind m (fun _ => k))
  (at level 100, right associativity) : js_scope.

(** ** Conversions of the language *)

Definition join (sep : string) (l : list string) : string :=
  match l with
  | [] => EmptyString
  | x :: rest => fold_left (fun acc y => acc ++ sep ++ y)%string rest x
  end.

(** ['' + v], the key under which [obj[v]] is read and written.  An object
    prints as its class, which is what it does unless it defines
    [toString] itself. *)
Fixpoint js_ToString (v : jsval) : string :=
  match v with
  | JUndefined => "undefined"
  | JNum n => jsnum_to_string n
  | JStr s => s
  | JBuf b => string_of_list_byte b
  | JArr elems =>
      join "," (map (fun x => match x with
                              | JUndefined => EmptyString
                              | _ => js_ToString x
                              end) elems)
  | JObj _ => "[object Object]"
  end.

(** [String(v)], the conversion that ['...' + v], [join] and the reading
    of [obj[v]] apply.  A Buffer is read as UTF-8, one character per
    byte (exact on ASCII, which is all that the names of the protocol
    use).  The elements of an array are converted in order and joined by
    commas, [undefined] counting as the empty string.  A dictionary
    holds its entries as own properties: with an entry [toString] it has
    no function of that name to convert it, without one it prints as its
    class. *)
Fixpoint js_String (v : jsval) : jserror + string :=
  match v with
  | JUndefined => inr "undefined"%string
  | JNum n => inr (jsnum_to_string n)
  | JStr s => inr s
  | JBuf b => inr (string_of_list_byte b)
  | JArr elems =>
      match
        (fix texts (l : list jsval) : jserror + list string :=
           match l with
           | [] => inr []
           | x :: rest =>
               match (match x with
                      | JUndefined => inr EmptyString
                      | _ => js_String x
                      end) with
               | inl e => inl e
               | inr s =>
                   match texts rest with
                   | inl e => inl e
                   | inr ss => inr (s :: ss)
                   end
               end
           end) elems
      with
      | inl e => inl e
      | inr ss => inr (join "," ss)
      end
  | JObj props =>
      match assoc "toString" props with
      | JUndefined => inr "[object Object]"%string
      | _ => inl (TypeError "Cannot convert object to primitive value")
      end
  end.

(** [v.toString()]: the method is called, so that [undefined] and a
    dictionary with an entry [toString] fail as a call does. *)
Definition toString (v : jsval) : jserror + string :=
  match v with
  | JUndefined => inl (TypeError "Cannot call method 'toString' of undefined")
  | JObj props =>
      match assoc "toString" props with
      | JUndefined => inr "[object Object]"%string
      | _ => inl (TypeError "Property 'toString' of object is not a function")
      end
  | _ => js_String v
  end.

(** [elems.join(sep)]: an element that is [undefined] counts as the
    empty string, and the first element without a text throws. *)
Fixpoint js_texts (elems : list jsval) : jserror + list string :=
  match elems with
  | [] => inr []
  | x :: rest =>
      match (match x with
             | JUndefined => inr EmptyString
             | _ => js_String x
             end) with
      | inl e => inl e
      | inr s =>
          match js_texts rest with
          | inl e => inl e
          | inr ss => inr (s :: ss)
          end
      end
  end.

Definition js_join (sep : string) (elems : list jsval) : jserror + string :=
  match js_texts elems with
  | inl e => inl e
  | inr ss => inr (join sep ss)
  end.

(** The [catch] blocks of [parseNodeInfo] and [parsePeerInfo]: the text
    of the debug line, ['error parsing ... ' + v], is computed before
    [result] is returned. *)
Definition caught {A} (v : jsval) (result : A) : jserror + A :=
  match js_String v with
  | inl e => inl e
  | inr _ => inr result
  end.

(** The names that every object inherits from [Object.prototype]: under
    each of them a plain object such as [self.peers] reads a function
    or, under [__proto__], the prototype itself, unless it has a
    property of that name of its own. *)
Definition Object_prototype : list string :=
  ["constructor"; "toString"; "toLocaleString"; "valueOf"; "hasOwnProperty";
   "isPrototypeOf"; "propertyIsEnumerable"; "__defineGetter__";
   "__defineSetter__"; "__lookupGetter__"; "__lookupSetter__"; "__proto__"]%string.

Definition inherited (key : string) : bool :=
  existsb (String.eqb key) Object_prototype.

(** ** Package bncode *)

(** [bncode.encode] writes a number, a string, a Buffer, an array and a
    dictionary; it throws on a value that holds [undefined], as the
    reply to a query without [t] does. *)
Fixpoint encodable (v : jsval) : bool :=
  match v with
  | JUndefined => false
  | JNum _ | JStr _ | JBuf _ => true
  | JArr elems => forallb encodable elems
  | JObj props => forallb (fun kv => let '(_, x) := kv in encodable x) props
  end.

Definition byte_string (b : bytes) : bytes :=
  (list_byte_of_string (Z_to_string (Z.of_nat (length b))) ++ [x3a] ++ b)%list.

Fixpoint insert_entry (e : string * bytes) (l : list (string * bytes))
  : list (string * bytes) :=
  match l with
  | [] => [e]
  | x :: rest =>
      if String.leb (fst e) (fst x) then e :: l else x :: insert_entry e rest
  end.

(** The bencoding of a value: [i...e], [length:bytes], [l...e], and
    [d...e] with the keys in ascending order. *)
Fixpoint bencode (v : jsval) : bytes :=
  match v with
  | JUndefined => []
  | JNum n => [x69] ++ list_byte_of_string (jsnum_to_string n) ++ [x65]
  | JStr s => byte_string (list_byte_of_string s)
  | JBuf b => byte_string b
  | JArr elems => [x6c] ++ concat (map bencode elems) ++ [x65]
  | JObj props =>
      [x64]
      ++ concat
           (map (fun e => byte_string (list_byte_of_string (fst e)) ++ snd e)
              (fold_right insert_entry []
                 (map (fun kv => let '(k, x) := kv in (k, bencode x)) props)))
      ++ [x65]
  end%list.

Definition bncode_encode (v : jsval) : jserror + bytes :=
  if encodable v then inr (bencode v)
  else inl (TypeError "undefined cannot be encoded").

(** [s.split(c)] *)
Fixpoint split (c : ascii) (s : string) : list string :=
  match s with
  | EmptyString => [EmptyString]
  | String x rest =>
      if Ascii.eqb x c then EmptyString :: split c rest
      else match split c rest with
           | [] => [String x EmptyString]
           | w :: ws => String x w :: ws
           end
  end.

(** [v !== 0] *)
Definition strict_ne_zero (v : jsval) : bool :=
  match v with
  | JNum (Num 0) => false
  | _ => true
  end.

(** ** Identifiers and compact encodings *)

(** [idToBuffer (id)] *)
Definition idToBuffer (id : id_arg) : jserror + bytes :=
  match id with
  | IdBuffer b => inr b
  | IdString s =>
      match unhex s with
      | Some b => inr b
      | None => inl (TypeError "Invalid hex string")
      end
  end.

(** [idToHexString (id)] *)
Definition idToHexString (id : jsval) : jsval :=
  match id with
  | JBuf b => JStr (hex b)
  | _ => id
  end.

(** [transactionIdToBuffer (transactionId)]; [buf.writeUInt16BE] rejects
    what is no integer of 16 bits. *)
Definition transactionIdToBuffer (transactionId : jsval) : jserror + jsval :=
  match transactionId with
  | JBuf b => inr (JBuf b)
  | JNum (Num z) =>
      if ((0 <=? z) && (z <=? 65535))%Z then inr (JBuf (N_to_be_bytes 2 (Z.to_N z)))
      else inl (TypeError "value is out of bounds")
  | _ => inl (TypeError "value is out of bounds")
  end.

(** [buf.readUInt16BE(0)]; it throws on a buffer of fewer than two bytes. *)
Definition readUInt16BE0 (buf : bytes) : jserror + N :=
  match buf with
  | b0 :: b1 :: _ => inr (be_bytes_to_N [b0; b1])
  | _ => inl (RangeError "Trying to read beyond buffer length")
  end.

Definition byte_to_string (b : byte) : string :=
  Z_to_string (Z.of_N (Byte.to_N b)).

Definition js_of_contact (c : contact) : jsval :=
  JObj [("id", JBuf (contact_id c)); ("addr", JStr (contact_addr c))]%string.

Section Methods.
Context {KBucket : Type} `{!KBucketOps KBucket} `{!Runtime}.
Local Open Scope js_scope.
Local Open Scope string_scope.

Local Abbreviation M := (M KBucket).
Local Abbreviation DHT := (DHT KBucket).

(** The number that [v > 0] and [Number(v)] compare or return. *)
Definition js_ToNumber (v : jsval) : jserror + jsnum :=
  match v with
  | JUndefined => inr NaN
  | JNum n => inr n
  | _ => ToNumber v
  end.

(** Package compact2string: 6 bytes are an IPv4 address and a port. *)
Definition compact2string (buf : bytes) : jserror + string :=
  match buf with
  | [a; b; c; d; p1; p2] =>
      inr (byte_to_string a ++ "." ++ byte_to_string b ++ "."
           ++ byte_to_string c ++ "." ++ byte_to_string d ++ ":"
           ++ Z_to_string (Z.of_N (be_bytes_to_N [p1; p2])))
  | _ =>
      if (length buf =? 18)%nat then inr (compact2string_ipv6 buf)
      else inl (Error "Invalid Compact IP/PORT, It should contain 6 or 18 bytes")
  end.

(** The loop of [parseNodeInfo]: [i] advances by 26 while it is below
    the length, and the first exception ends the loop with the contacts
    pushed so far.  At most [length nodeInfo] rounds are needed. *)
Fixpoint parseNodeInfo_loop (fuel : nat) (nodeInfo : bytes) (i : nat)
    (contacts : list contact) : list contact :=
  match fuel with
  | O => contacts
  | S fuel' =>
      if (i <? length nodeInfo)%nat then
        match compact2string (slice nodeInfo (i + 20) (i + 26)) with
        | inr addr =>
            parseNodeInfo_loop fuel' nodeInfo (i + 26)
              (contacts ++ [Contact (slice nodeInfo i (i + 20)) addr])%list
        | inl _ => contacts
        end
      else contacts
  end.

(** [parseNodeInfo (nodeInfo)].  On a Buffer the loop pushes the
    contacts; the exception that ends it is caught, and a Buffer always
    has a text for the debug line.  A value that is no Buffer yields no
    contact: the loop is not entered when [0 < nodeInfo.length] is
    false, and it throws in its first round otherwise, since
    [nodeInfo.slice] is a function on strings and arrays only and
    package compact2string throws on what is no Buffer. *)
Definition parseNodeInfo (nodeInfo : jsval) : jserror + list contact :=
  match nodeInfo with
  | JBuf buf => inr (parseNodeInfo_loop (length buf) buf 0 [])
  | JArr (_ :: _) => caught nodeInfo []
  | JObj props =>
      match js_ToNumber (assoc "length" props) with
      | inr (Num len) => if (0 <? len)%Z then caught nodeInfo [] else inr []
      | inr NaN => inr []
      | inl _ => caught nodeInfo []
      end
  | _ => inr []
  end.

(** [list.map(compact2string)], or [None] when the package throws:
    on a Buffer of the wrong length, and on what is no Buffer. *)
Fixpoint map_compact2string (elems : list jsval) : option (list string) :=
  match elems with
  | [] => Some []
  | JBuf b :: rest =>
      match compact2string b, map_compact2string rest with
      | inr s, Some ss => Some (s :: ss)
      | _, _ => None
      end
  | _ :: _ => None
  end.

(** [parsePeerInfo (list)]: one element that cannot be converted, or a
    [list] that has no function [map], leads to the [catch] block, which
    returns the empty array. *)
Definition parsePeerInfo (values : jsval) : jserror + list string :=
  match values with
  | JArr elems =>
      match map_compact2string elems with
      | Some addrs => inr addrs
      | None => caught values []
      end
  | _ => caught values []
  end.

(** [arr.forEach(f)] *)
Fixpoint forEach {A} (f : A -> M unit) (arr : list A) : M unit :=
  match arr with
  | [] => ret tt
  | x :: rest => f x ;; forEach f rest
  end.

(** [arr.some(f)]: stops at the first element on which [f] is truthy. *)
Fixpoint some {A} (f : A -> nat -> M bool) (index : nat) (arr : list A) : M bool :=
  match arr with
  | [] => ret false
  | x :: rest => b <- f x index ;; if b then ret true else some f (S index) rest
  end.

(** *** [DHT.prototype._send] and [_sendError] *)

Definition _send (host : string) (port : jsval) (message : jsval) : M unit :=
  n <- lift (js_ToNumber port) ;;
  match n with
  | Num p =>
      if ((0 <? p) && (p <? 65535))%Z then
        _ <- lift (bncode_encode message) ;;
        log (SocketSend message port host)
      else ret tt
  | NaN => ret tt
  end.

Definition _sendError (host : string) (port : jsval) (transactionId : jsval)
    (code : Z) (message : string) : M unit :=
  transactionId <-
    (if truthy transactionId
        && negb (match transactionId with JBuf _ => true | _ => false end)
     then lift (transactionIdToBuffer transactionId)
     else ret transactionId) ;;
  let message :=
    JObj ([("y", JStr MESSAGE_TYPE.ERROR);
           ("e", JArr [JNum (Num code); JStr message])]
          ++ (if truthy transactionId then [("t", transactionId)] else []))%list in
  _send host port message.

(** *** Tokens *)

Definition _generateToken (host : string) (secret : option bytes) : M bytes :=
  secret <-
    match secret with
    | Some s => ret s
    | None =>
        ss <- gets secrets ;;
        match ss with
        | Some (s0, _) => ret s0
        | None => throw (TypeError "Cannot read property '0' of undefined")
        end
    end ;;
  ret (sha1 (list_byte_of_string host ++ secret)%list).

Definition _isValidToken (token : jsval) (host : string) : M bool :=
  ss <- gets secrets ;;
  match ss with
  | None => throw (TypeError "Cannot read property '0' of undefined")
  | Some (s0, s1) =>
      validToken0 <- _generateToken host (Some s0) ;;
      validToken1 <- _generateToken host (Some s1) ;;
      ret (bufferEqual token (JBuf validToken0)
           || bufferEqual token (JBuf validToken1))
  end.

(** [_rotateSecrets]; [secretA] and [secretB] are what [createSecret()]
    returns on its first and second call (the second call is only made
    when the array is initialised). *)
Definition _rotateSecrets (secretA secretB : bytes) : M unit :=
  ss <- gets secrets ;;
  match ss with
  | None => modify (set_secrets (Some (secretA, secretB)))
  | Some (s0, _) => modify (set_secrets (Some (secretA, s0)))
  end.

(** *** [DHT.prototype._onAnnouncePeer] *)

(** [var port = message.a.implied_port !== 0 ? port : message.a.port] *)
Definition announce_port (port : Z) (a : jsval) : jsval :=
  if strict_ne_zero (get_prop a "implied_port") then JNum (Num port)
  else get_prop a "port".

Definition _onAnnouncePeer (host : string) (port : Z) (message : jsval) : M unit :=
  let a := get_prop message "a" in
  let infoHash := idToHexString (js_and a (get_prop a "info_hash")) in
  if negb (truthy infoHash) then
    _sendError host (JNum (Num port)) (get_prop message "t") ERROR_TYPE.PROTOCOL
      "`announce_peer` missing required `a.info_hash` field"
  else
    let token := js_and a (get_prop a "token") in
    valid <- _isValidToken token host ;;
    if negb valid then
      _sendError host (JNum (Num port)) (get_prop message "t") ERROR_TYPE.PROTOCOL
        "cannot `announce_peer` with bad token"
    else
      match a with
      | JUndefined => throw (TypeError "Cannot read property 'implied_port' of undefined")
      | _ =>
          let port := announce_port port a in
          nid <- gets nodeId ;;
          let res := JObj [("t", get_prop message "t");
                           ("y", JStr MESSAGE_TYPE.RESPONSE);
                           ("r", JObj [("id", JBuf nid)])] in
          _send host port res
      end.

(** *** The routing table and the peer store *)

Definition addNode (addr : string) (nodeId : id_arg) : M unit :=
  nodeId <- lift (idToBuffer nodeId) ;;
  ns <- gets nodes ;;
  match ns with
  | None => throw (TypeError "Cannot call method 'add' of null")
  | Some table =>
      modify (set_nodes (Some (kb_add (Contact nodeId addr) table))) ;;
      log (EmitNode addr nodeId)
  end.

Definition removeNode (nodeId : id_arg) : M unit :=
  ns <- gets nodes ;;
  match ns with
  | None => throw (TypeError "Cannot call method 'get' of null")
  | Some table =>
      nodeId <- lift (idToBuffer nodeId) ;;
      match kb_get nodeId table with
      | Some contact => modify (set_nodes (Some (kb_remove contact table)))
      | None => ret tt
      end
  end.

(** [self.peers[infoHash]] reads an own property, or else what the
    store inherits under that name: a truthy value that has no [some]. *)
Definition addPeer (addr : string) (infoHash : id_arg) : M unit :=
  let infoHash := idToHexString (js_of_id infoHash) in
  let key := js_ToString infoHash in
  ps <- gets peers ;;
  match ps with
  | None => throw (TypeError "Cannot read property of null")
  | Some store =>
      if bool_decide (store !! key = None) && inherited key then
        _ <- lift (string2compact addr) ;;
        throw (TypeError "Object has no method 'some'")
      else
        let store :=
          match store !! key with
          | Some _ => store
          | None => <[key := []]> store
          end in
        modify (set_peers (Some store)) ;;
        compactPeerInfo <- lift (string2compact addr) ;;
        let stored := default [] (store !! key) in
        let exists_ :=
          existsb (fun peer => bufferEqual (JBuf peer) (JBuf compactPeerInfo)) stored in
        (if exists_ then ret tt
         else modify (set_peers (Some (<[key := (stored ++ [compactPeerInfo])%list]> store)))) ;;
        log (EmitPeer addr infoHash)
  end.

(** [peers.splice(start, 1)] on the array stored under [key] *)
Definition splice1 (key : string) (start : nat) : M unit :=
  modify (fun st =>
    match peers st with
    | Some store =>
        set_peers (Some (alter (fun stored =>
          (firstn start stored ++ skipn (S start) stored)%list) key store)) st
    | None => st
    end).

(** The callback of [peers.some] in [removePeer].  The name [removeIndex]
    is bound nowhere (the parameter is [index]), so that evaluating the
    arguments of [splice] throws. *)
Definition removePeer_callback (key : string) (compactPeerInfo : bytes)
    (peer : bytes) (index : nat) : M bool :=
  if bufferEqual (JBuf peer) (JBuf compactPeerInfo) then
    removeIndex <- throw (ReferenceError "removeIndex is not defined") ;;
    splice1 key removeIndex ;;
    ret true
  else ret false.

Definition removePeer (infoHash : id_arg) (addr : string) : M unit :=
  let infoHash := idToHexString (js_of_id infoHash) in
  ps <- gets peers ;;
  match ps with
  | None => throw (TypeError "Cannot read property of null")
  | Some store =>
      match store !! js_ToString infoHash with
      | Some stored =>
          compactPeerInfo <- lift (string2compact addr) ;;
          _ <- some (removePeer_callback (js_ToString infoHash) compactPeerInfo)
                 0%nat stored ;;
          ret tt
      | None =>
          if inherited (js_ToString infoHash) then
            _ <- lift (string2compact addr) ;;
            throw (TypeError "Object has no method 'some'")
          else ret tt
      end
  end.

(** *** [DHT.prototype._getAddrData] *)

(** The cache is read and written under [addr], the text of an address
    [host:port]; a text that names what the cache inherits is no
    address and is not modelled. *)

Definition _getAddrData (addr : string) : M (string * jsnum) :=
  cache <- gets _addrData ;;
  match cache with
  | None => throw (TypeError "Cannot read property of null")
  | Some cache =>
      match cache !! addr with
      | Some array => ret array
      | None =>
          let array := split ":" addr in
          array1 <- lift (js_ToNumber (from_option JStr JUndefined (array !! 1%nat))) ;;
          let array := (hd EmptyString array, array1) in
          modify (set_addrData (Some (<[addr := array]> cache))) ;;
          ret array
      end
  end.

(** *** [DHT.prototype._getTransactionId] and its closures *)

Definition new_reqs : reqs := Reqs ∅ 1.

Definition _getTransactionId (addr : string) (fn : resolver) : M N :=
  txs <- gets transactions ;;
  let reqs := default new_reqs (txs !! addr) in
  let transactionId := nextTransactionId reqs in
  let key := (addr, transactionId) in
  (* fn = once(fn) *)
  modify (fun st => set_onces (<[key := OnceEnv false fn]> (onces st)) st) ;;
  (* setTimeout(onTimeout, SEND_TIMEOUT) *)
  modify (fun st => set_timers ({[key]} ∪ timers st) st) ;;
  modify (set_transactions
            (<[addr := Reqs (<[transactionId := Some (Transaction key key)]> (slots reqs))
                            (transactionId + 1)]> txs)) ;;
  ret transactionId.

(** [reqs[transactionId] = null] in the closures of [_getTransactionId] *)
Definition clear_slot (key : string * N) : M unit :=
  modify (fun st =>
    set_transactions
      (alter (fun reqs => Reqs (<[key.2 := None]> (slots reqs)) (nextTransactionId reqs))
             key.1 (transactions st)) st).

Definition clearTimeout (handle : string * N) : M unit :=
  modify (fun st => set_timers (timers st ∖ {[handle]}) st).

(** *** Sending queries *)

Definition query_message (transactionId : jsval) (q : string)
    (a : list (string * jsval)) : jsval :=
  JObj [("t", transactionId); ("y", JStr MESSAGE_TYPE.QUERY); ("q", JStr q);
        ("a", JObj a)].

Definition _sendPing (host : string) (port : jsnum) (cb : callback) : M unit :=
  let addr := host ++ ":" ++ jsnum_to_string port in
  transactionId <- _getTransactionId addr (Direct cb) ;;
  nid <- gets nodeId ;;
  t <- lift (transactionIdToBuffer (JNum (Num (Z.of_N transactionId)))) ;;
  _send host (JNum port) (query_message t "ping" [("id", JBuf nid)]).

Definition _sendFindNode (host : string) (port : jsnum) (nodeId_ : bytes)
    (cb : callback) : M unit :=
  let addr := host ++ ":" ++ jsnum_to_string port in
  transactionId <- _getTransactionId addr (FindNodeDone cb) ;;
  nid <- gets nodeId ;;
  t <- lift (transactionIdToBuffer (JNum (Num (Z.of_N transactionId)))) ;;
  _send host (JNum port)
    (query_message t "find_node" [("id", JBuf nid); ("target", JBuf nodeId_)]).

Definition _sendGetPeers (host : string) (port : jsnum) (infoHash : id_arg)
    (cb : callback) : M unit :=
  let addr := host ++ ":" ++ jsnum_to_string port in
  infoHash <- lift (idToBuffer infoHash) ;;
  transactionId <- _getTransactionId addr (GetPeersDone infoHash cb) ;;
  nid <- gets nodeId ;;
  t <- lift (transactionIdToBuffer (JNum (Num (Z.of_N transactionId)))) ;;
  _send host (JNum port)
    (query_message t "get_peers" [("id", JBuf nid); ("info_hash", JBuf infoHash)]).

Definition _sendAnnouncePeer (host : string) (port : jsnum) (infoHash : id_arg)
    (myPort : Z) (token : bytes) (cb : callback) : M unit :=
  let addr := host ++ ":" ++ jsnum_to_string port in
  infoHash <- lift (idToBuffer infoHash) ;;
  transactionId <- _getTransactionId addr (Direct cb) ;;
  nid <- gets nodeId ;;
  t <- lift (transactionIdToBuffer (JNum (Num (Z.of_N transactionId)))) ;;
  _send host (JNum port)
    (query_message t "announce_peer"
       [("id", JBuf nid); ("info_hash", JBuf infoHash); ("port", JNum (Num myPort));
        ("token", JBuf token); ("implied_port", JNum (Num 1))]).

(** *** [DHT.prototype.lookup] *)

Definition no_lookup : lookup_env := LookupEnv [] false ∅ 0 Noop.

(** The environment of lookup [l]; a closure is only created by the
    call of [lookup] that allocates its environment. *)
Definition lookup_env_of (l : nat) : M lookup_env :=
  gets (fun st => default no_lookup (lookups st !! l)).

Definition update_lookup (l : nat) (f : lookup_env -> lookup_env) : M unit :=
  modify (fun st => set_lookups (alter f l (lookups st)) st).

Definition add_pending (d : Z) (env : lookup_env) : lookup_env :=
  LookupEnv (lookup_id env) (findNode env) (queried env) (pending env + d)
    (lookup_cb env).

Definition mark_queried (addr : string) (env : lookup_env) : lookup_env :=
  LookupEnv (lookup_id env) (findNode env) ({[addr]} ∪ queried env) (pending env)
    (lookup_cb env).

(** [function query (addr)] *)
Definition lookup_query (l : nat) (addr : string) : M unit :=
  update_lookup l (add_pending 1) ;;
  update_lookup l (mark_queried addr) ;;
  addrData <- _getAddrData addr ;;
  env <- lookup_env_of l ;;
  if findNode env then
    _sendFindNode addrData.1 addrData.2 (lookup_id env) (LookupOnResponse l)
  else
    _sendGetPeers addrData.1 addrData.2 (IdBuffer (lookup_id env)) (LookupOnResponse l).

(** The [while] loop of [onResponse].  [candidates.pop()] takes the last
    element of the array, so the array is passed last element first;
    the result is what is left of it, in the same order. *)
Fixpoint lookup_while (l : nat) (stack : list contact) : M (list contact) :=
  match stack with
  | [] => ret []
  | contact :: rest =>
      env <- lookup_env_of l ;;
      if (pending env <? MAX_CONCURRENCY)%Z then
        lookup_query l (contact_addr contact) ;;
        lookup_while l rest
      else ret stack
  end.

(** A caller's function is called; it is taken not to call back into
    the node before it returns. *)
Definition call_user (cb : user_fn) (err : option jserror) (res : jsval) : M unit :=
  match cb with
  | UserFn name => log (Call name err res)
  | Noop => ret tt
  end.

(** [function onResponse (err, res)] of [lookup] *)
Definition lookup_onResponse (l : nat) : M unit :=
  update_lookup l (add_pending (-1)) ;;
  ns <- gets nodes ;;
  match ns with
  | None => throw (TypeError "Cannot call method 'closest' of null")
  | Some table =>
      env <- lookup_env_of l ;;
      let candidates :=
        filter (fun contact => contact_addr contact ∉ queried env)
               (kb_closest (lookup_id env) K table) in
      left <- lookup_while l (rev candidates) ;;
      env <- lookup_env_of l ;;
      if ((pending env =? 0)%Z && (length left =? 0)%nat)%bool then
        call_user (lookup_cb env) None JUndefined
      else ret tt
  end.

Definition lookup (id : id_arg) (opts : lookup_opts) (cb : user_fn) : M unit :=
  closed <- gets _closed ;;
  if closed : bool then ret tt
  else
    id <- lift (idToBuffer id) ;;
    l <- gets (fun st => length (lookups st)) ;;
    modify (fun st =>
      set_lookups (lookups st ++ [LookupEnv id (opts_findNode opts) ∅ 0 cb])%list st) ;;
    match opts_addrs opts with
    | Some addrs => forEach (lookup_query l) addrs
    | None =>
        update_lookup l (add_pending 1) ;;
        lookup_onResponse l
    end.

(** *** Resolving a transaction *)

(** [cb(err, res)] for the callback given to a [_send...] method *)
Definition call (cb : callback) (err : option jserror) (res : jsval) : M unit :=
  match cb with
  | User f => call_user f err res
  | LookupOnResponse l => lookup_onResponse l
  end.

(** [res.nodes], which throws when [res] is [undefined] *)
Definition member (v : jsval) (name : string) : M jsval :=
  match v with
  | JUndefined => throw (TypeError ("Cannot read property '" ++ name ++ "' of undefined"))
  | _ => ret (get_prop v name)
  end.

Definition ingest_nodes (res : jsval) : M jsval :=
  nodes_ <- member res "nodes" ;;
  if truthy nodes_ then
    contacts <- lift (parseNodeInfo nodes_) ;;
    forEach (fun node => addNode (contact_addr node) (IdBuffer (contact_id node)))
            contacts ;;
    ret (set_prop res "nodes" (JArr (map js_of_contact contacts)))
  else ret res.

(** [function done (err, res)] of [_sendFindNode] *)
Definition _sendFindNode_done (cb : callback) (err : option jserror) (res : jsval)
  : M unit :=
  match err with
  | Some e => call cb (Some e) JUndefined
  | None =>
      res <- ingest_nodes res ;;
      call cb None res
  end.

(** [function done (err, res)] of [_sendGetPeers] *)
Definition _sendGetPeers_done (infoHash : bytes) (cb : callback)
    (err : option jserror) (res : jsval) : M unit :=
  match err with
  | Some e => call cb (Some e) JUndefined
  | None =>
      res <- ingest_nodes res ;;
      values <- member res "values" ;;
      res <-
        (if truthy values then
           addrs <- lift (parsePeerInfo values) ;;
           forEach (fun addr => addPeer addr (IdBuffer infoHash)) addrs ;;
           ret (set_prop res "values" (JArr (map JStr addrs)))
         else ret res) ;;
      call cb None res
  end.

Definition run_resolver (fn : resolver) (err : option jserror) (data : jsval) : M unit :=
  match fn with
  | Direct cb => call cb err data
  | FindNodeDone cb => _sendFindNode_done cb err data
  | GetPeersDone infoHash cb => _sendGetPeers_done infoHash cb err data
  end.

(** A call of the wrapper [once(fn)] made by [_getTransactionId] for
    [key]: the wrapped function runs on the first call only. *)
Definition once_call (key : string * N) (err : option jserror) (data : jsval) : M unit :=
  env <- gets (fun st => onces st !! key) ;;
  match env with
  | Some (OnceEnv false fn) =>
      modify (fun st => set_onces (<[key := OnceEnv true fn]> (onces st)) st) ;;
      log (Resolve key.1 key.2 err data) ;;
      run_resolver fn err data
  | _ => ret tt
  end.

(** [function onTimeout ()] *)
Definition _getTransactionId_onTimeout (key : string * N) : M unit :=
  clear_slot key ;;
  once_call key (Some (Error "query timed out")) JUndefined.

(** [function onResponse (err, data)] *)
Definition _getTransactionId_onResponse (key : string * N)
    (err : option jserror) (data : jsval) : M unit :=
  slot <- gets (fun st => reqs ← transactions st !! key.1; slots reqs !! key.2) ;;
  match slot with
  | Some (Some transaction) =>
      clearTimeout (timeout transaction) ;;
      clear_slot key ;;
      once_call key err data
  | _ => throw (TypeError "Cannot read property 'timeout' of null")
  end.

(** The timer armed for [key] fires: a timer runs its function once. *)
Definition fire_timeout (key : string * N) : M unit :=
  clearTimeout key ;;
  _getTransactionId_onTimeout key.

(** *** [DHT.prototype._onResponseOrError] *)

(** [Array.isArray(message.e) ? message.e.join(' ') : undefined], the
    text given to [new Error]. *)
Definition error_text (e : jsval) : jserror + option string :=
  match e with
  | JArr elems =>
      match js_join " " elems with
      | inl err => inl err
      | inr text => inr (Some text)
      end
  | _ => inr None
  end.

Definition _onResponseOrError (host : string) (port : Z) (type : string)
    (message : jsval) : M unit :=
  let addr := host ++ ":" ++ Z_to_string port in
  (* Buffer.isBuffer(message.t) && message.t.readUInt16BE(0) *)
  transactionId <-
    match get_prop message "t" with
    | JBuf t => n <- lift (readUInt16BE0 t) ;; ret (Some n)
    | _ => ret None
    end ;;
  transaction <-
    gets (fun st =>
      reqs ← transactions st !! addr;
      tid ← transactionId;
      mjoin (slots reqs !! tid)) ;;
  err <-
    (if String.eqb type MESSAGE_TYPE.ERROR then
       _ <- lift (error_text (get_prop message "e")) ;;
       ret (Some (ReplyError (get_prop message "e")))
     else ret None) ;;
  match transaction with
  | None =>
      match err with
      | Some err => log (EmitWarning (WrappedError err))
      | None =>
          _sendError host (JNum (Num port)) (get_prop message "t")
            ERROR_TYPE.GENERIC "unexpected message"
      end
  | Some transaction =>
      _getTransactionId_onResponse (cb transaction) err (get_prop message "r")
  end.

(** *** [listen], [_onListening], [destroy] and the constructor *)

Definition listen (port : option Z) (onlistening : option string) : M unit :=
  closed <- gets _closed ;;
  listening_ <- gets listening ;;
  if (closed || listening_)%bool then ret tt
  else
    match onlistening with
    | Some name => log (OnceListening name)
    | None => ret tt
    end ;;
    match port with
    | Some p =>
        if (p =? 0)%Z then log GetPort
        else modify (set_port (Some p)) ;; log (SocketBind p)
    | None => log GetPort
    end.

Definition _onListening : M unit :=
  modify (set_listening true) ;;
  p <- gets port ;;
  log (EmitListening p).

Definition destroy (cb : user_fn) : M unit :=
  modify (set_listening false) ;;
  modify (set_closed true) ;;
  modify (set_port None) ;;
  modify (set_nodes None) ;;
  modify (set_peers None) ;;
  modify (set_addrData None) ;;
  modify (set_rotateInterval false) ;;
  log SocketClose ;;
  call_user cb None JUndefined.

(** [new DHT({ nodeId: nodeId, bootstrap: false })]; the two secrets are
    those drawn by the first [_rotateSecrets]. *)
Definition new_DHT (nodeId_ : bytes) (secretA secretB : bytes) : DHT :=
  mkDHT nodeId_ false false None (Some (kb_new nodeId_)) (Some ∅) ∅ (Some ∅)
        (Some (secretA, secretB)) true ∅ ∅ [] [].
End Methods.

(** ** Inbound datagrams: [_onData], [_onQuery] and the query handlers *)

(** What package k-bucket does with an id that is no Buffer: the hex
    string that [_onGetPeers] passes to [closest], or whatever value a
    query carries as [a.target]. *)
Class KBucketLoose (T : Type) := {
  kb_get_any : jsval -> T -> jserror + option contact;
  kb_closest_any : jsval -> nat -> T -> jserror + list contact
}.

Section Handlers.
Context {KBucket : Type} `{!KBucketOps KBucket} `{!KBucketLoose KBucket}.
Context `{!Runtime}.
Local Open Scope js_scope.
Local Open Scope string_scope.

Local Abbreviation M := (M KBucket).
Local Abbreviation DHT := (DHT KBucket).

(** [self.nodes.get(id)] *)
Definition nodes_get (id : jsval) (table : KBucket) : jserror + option contact :=
  match id with
  | JBuf b => inr (kb_get b table)
  | _ => kb_get_any id table
  end.

(** [self.nodes.closest({ id: id }, n)] *)
Definition nodes_closest (id : jsval) (n : nat) (table : KBucket)
  : jserror + list contact :=
  match id with
  | JBuf b => inr (kb_closest b n table)
  | _ => kb_closest_any id n table
  end.

(** [convertToNodeInfo (contacts)]: [map] converts the contacts in order,
    and the first address that [string2compact] rejects throws. *)
Fixpoint convertToNodeInfo (contacts : list contact) : jserror + bytes :=
  match contacts with
  | [] => inr []
  | contact :: rest =>
      match string2compact (contact_addr contact) with
      | inl e => inl e
      | inr compact =>
          match convertToNodeInfo rest with
          | inl e => inl e
          | inr tail => inr (contact_id contact ++ compact ++ tail)%list
          end
      end
  end.

(** [{ t: message.t, y: MESSAGE_TYPE.RESPONSE, r: r }] *)
Definition response (message : jsval) (r : list (string * jsval)) : jsval :=
  JObj [("t", get_prop message "t"); ("y", JStr MESSAGE_TYPE.RESPONSE);
        ("r", JObj r)].

(** *** [DHT.prototype._onPing] *)

Definition _onPing (host : string) (port : Z) (message : jsval) : M unit :=
  nid <- gets nodeId ;;
  _send host (JNum (Num port)) (response message [("id", JBuf nid)]).

(** *** [DHT.prototype._onFindNode] *)

Definition _onFindNode (host : string) (port : Z) (message : jsval) : M unit :=
  let a := get_prop message "a" in
  let nodeId_ := js_and a (get_prop a "target") in
  if negb (truthy nodeId_) then
    _sendError host (JNum (Num port)) (get_prop message "t") ERROR_TYPE.PROTOCOL
      "`find_node` missing required `a.target` field"
  else
    ns <- gets nodes ;;
    match ns with
    | None => throw (TypeError "Cannot call method 'get' of null")
    | Some table =>
        found <- lift (nodes_get nodeId_ table) ;;
        contacts <-
          match found with
          | Some contact => ret [contact]
          | None => lift (nodes_closest nodeId_ K table)
          end ;;
        nodes_ <- lift (convertToNodeInfo contacts) ;;
        nid <- gets nodeId ;;
        _send host (JNum (Num port))
          (response message [("id", JBuf nid); ("nodes", JBuf nodes_)]) ;;
        (* the text of the debug line: 'got find_node ' + idToHexString(nodeId) *)
        _ <- lift (js_String (idToHexString nodeId_)) ;;
        ret tt
    end.

(** *** [DHT.prototype._onGetPeers] *)

(** The store is read by the own keys of [self.peers]; the names that
    every object inherits are not hex strings, and an info-hash that
    prints as one of them is outside the model. *)
Definition _onGetPeers (host : string) (port : Z) (message : jsval) : M unit :=
  let a := get_prop message "a" in
  let infoHash := idToHexString (js_and a (get_prop a "info_hash")) in
  if negb (truthy infoHash) then
    _sendError host (JNum (Num port)) (get_prop message "t") ERROR_TYPE.PROTOCOL
      "`get_peers` missing required `a.info_hash` field"
  else
    nid <- gets nodeId ;;
    token <- _generateToken host None ;;
    ps <- gets peers ;;
    match ps with
    | None => throw (TypeError "Cannot read property of null")
    | Some store =>
        key <- lift (js_String infoHash) ;;
        match store !! key with
        | Some stored =>
            _send host (JNum (Num port))
              (response message [("id", JBuf nid); ("token", JBuf token);
                                 ("values", JArr (map JBuf stored))])
        | None =>
            ns <- gets nodes ;;
            match ns with
            | None => throw (TypeError "Cannot call method 'closest' of null")
            | Some table =>
                contacts <- lift (nodes_closest infoHash K table) ;;
                nodes_ <- lift (convertToNodeInfo contacts) ;;
                _send host (JNum (Num port))
                  (response message [("id", JBuf nid); ("token", JBuf token);
                                     ("nodes", JBuf nodes_)])
            end
        end
    end.

(** *** [DHT.prototype._onQuery] *)

Definition _onQuery (host : string) (port : Z) (message : jsval) : M unit :=
  query <- lift (toString (get_prop message "q")) ;;
  if query =? "ping" then _onPing host port message
  else if query =? "find_node" then _onFindNode host port message
  else if query =? "get_peers" then _onGetPeers host port message
  else if query =? "announce_peer" then _onAnnouncePeer host port message
  else
    _sendError host (JNum (Num port)) (get_prop message "t")
      ERROR_TYPE.METHOD_UNKNOWN ("unexpected query type " ++ query).

(** *** [DHT.prototype._onData] *)

(** [decoded] is what [bncode.decode(data)] returns or throws; [host] and
    [port] are [rinfo.address] and [rinfo.port]. *)
Definition _onData (decoded : jserror + jsval) (host : string) (port : Z) : M unit :=
  match decoded with
  | inl _ => ret tt
  | inr message =>
      if negb (truthy message) then ret tt
      else
        type <- lift (toString (get_prop message "y")) ;;
        if type =? MESSAGE_TYPE.QUERY then _onQuery host port message
        else if (type =? MESSAGE_TYPE.RESPONSE) || (type =? MESSAGE_TYPE.ERROR)
        then _onResponseOrError host port type message
        else ret tt
  end.
End Handlers.

(** ** The vocabulary of the properties *)

Section Statements.
Context {KBucket : Type} `{!KBucketOps KBucket} `{!Runtime}.
Local Open Scope js_scope.
Local Open Scope string_scope.

Local Abbreviation M := (M KBucket).
Local Abbreviation DHT := (DHT KBucket).

(** SHA-1 does not collide on [x] and [y]. *)
Definition no_collision (x y : bytes) : Prop := sha1 x = sha1 y -> x = y.

(** An [announce_peer] query passes validation: it carries [a.info_hash]
    and a token that is valid for [host]. *)
Definition announce_valid (host : string) (message : jsval) (st : DHT) : Prop :=
  let a := get_prop message "a" in
  truthy (idToHexString (js_and a (get_prop a "info_hash"))) = true /\
  _isValidToken (js_and a (get_prop a "token")) host st = Ok true st.

(** The acknowledgement [{ t: message.t, y: 'r', r: { id: self.nodeId } }] *)
Definition ack (message : jsval) (st : DHT) : jsval :=
  JObj [("t", get_prop message "t"); ("y", JStr MESSAGE_TYPE.RESPONSE);
        ("r", JObj [("id", JBuf (nodeId st))])].

(** The error reply [{ y: 'e', e: [code, text], t: t }] *)
Definition error_reply (code : Z) (text : string) (t : jsval) : jsval :=
  JObj [("y", JStr MESSAGE_TYPE.ERROR); ("e", JArr [JNum (Num code); JStr text]);
        ("t", t)].

(** The node has sent [message] to [host]:[port]. *)
Definition sent (message : jsval) (port : Z) (host : string) (st : DHT) : DHT :=
  set_trace (trace st ++ [SocketSend message (JNum (Num port)) host]) st.

(** The peers stored under an info-hash. *)
Definition stored_peers (infoHash : bytes) (st : DHT) : list bytes :=
  match peers st with
  | Some store => default [] (store !! hex infoHash)
  | None => []
  end.

(** ** Compact node info *)

(** ["a.b.c.d:port"] for the six bytes [a b c d p1 p2] *)
Definition endpoint_text (r : bytes) : string :=
  byte_to_string (nth 0 r x00) ++ "." ++ byte_to_string (nth 1 r x00) ++ "."
  ++ byte_to_string (nth 2 r x00) ++ "." ++ byte_to_string (nth 3 r x00) ++ ":"
  ++ Z_to_string (Z.of_N (be_bytes_to_N [nth 4 r x00; nth 5 r x00])).

(** The contact held by the [j]-th record of 26 bytes of [nodeInfo]. *)
Definition record_contact (nodeInfo : bytes) (j : nat) : contact :=
  Contact (slice nodeInfo (26 * j) (26 * j + 20))
          (endpoint_text (slice nodeInfo (26 * j + 20) (26 * j + 26))).

(** ** Transactions *)

(** The pending transaction that an inbound response or error from
    [host]:[port] matches, if any. *)
Definition matching_transaction (host : string) (port : Z) (message : jsval)
    (st : DHT) : option transaction :=
  reqs ← transactions st !! (host ++ ":" ++ Z_to_string port);
  match get_prop message "t" with
  | JBuf (b0 :: b1 :: _) => mjoin (slots reqs !! be_bytes_to_N [b0; b1])
  | _ => None
  end.

(** The field [t] can be read as a transaction id and echoed in an error
    reply: it is absent or falsy, a Buffer of two bytes or more, or an
    integer of 16 bits. *)
Definition echoable (t : jsval) : Prop :=
  match t with
  | JBuf b => (2 <= length b)%nat
  | JNum (Num z) => (0 <= z <= 65535)%Z
  | JUndefined | JNum NaN | JStr EmptyString => True
  | _ => False
  end.

(** [t] as [_sendError] echoes it *)
Definition echoed (t : jsval) : list (string * jsval) :=
  match t with
  | JBuf b => [("t", JBuf b)]
  | JNum (Num z) =>
      if (z =? 0)%Z then [] else [("t", JBuf (N_to_be_bytes 2 (Z.to_N z)))]
  | _ => []
  end.

(** ** Runs of the node *)

(** What can happen to a node: a call of its interface, the arrival of
    a response, an error or an [announce_peer] query, the firing of the
    timer of a transaction, or a tick of the rotation timer. *)
Inductive event :=
| SendPing (host : string) (port : jsnum) (cb : user_fn)
| SendFindNode (host : string) (port : jsnum) (nodeId : bytes) (cb : user_fn)
| SendGetPeers (host : string) (port : jsnum) (infoHash : id_arg) (cb : user_fn)
| SendAnnouncePeer (host : string) (port : jsnum) (infoHash : id_arg) (myPort : Z)
    (token : bytes) (cb : user_fn)
| Lookup (id : id_arg) (opts : lookup_opts) (cb : user_fn)
| AddNode (addr : string) (nodeId : id_arg)
| RemoveNode (nodeId : id_arg)
| AddPeer (addr : string) (infoHash : id_arg)
| RemovePeer (infoHash : id_arg) (addr : string)
| Listen (port : option Z) (onlistening : option string)
| Destroy (cb : user_fn)
| ResponseOrError (host : string) (port : Z) (type : string) (message : jsval)
| AnnouncePeer (host : string) (port : Z) (message : jsval)
| Timeout (addr : string) (tid : N)
| RotateSecrets (secretA secretB : bytes)
| Listening.

(** The timer of a transaction may fire whether or not it has been
    cleared, so that a timeout that races with a response is covered; a
    timer that was never created does not fire. *)
Definition handle (ev : event) : M unit :=
  match ev with
  | SendPing host port cb => _sendPing host port (User cb)
  | SendFindNode host port nodeId cb => _sendFindNode host port nodeId (User cb)
  | SendGetPeers host port infoHash cb => _sendGetPeers host port infoHash (User cb)
  | SendAnnouncePeer host port infoHash myPort token cb =>
      _sendAnnouncePeer host port infoHash myPort token (User cb)
  | Lookup id opts cb => lookup id opts cb
  | AddNode addr nodeId => addNode addr nodeId
  | RemoveNode nodeId => removeNode nodeId
  | AddPeer addr infoHash => addPeer addr infoHash
  | RemovePeer infoHash addr => removePeer infoHash addr
  | Listen port onlistening => listen port onlistening
  | Destroy cb => destroy cb
  | ResponseOrError host port type message =>
      _onResponseOrError host port type message
  | AnnouncePeer host port message => _onAnnouncePeer host port message
  | Timeout addr tid =>
      env <- gets (fun st => onces st !! (addr, tid)) ;;
      match env with
      | Some _ => fire_timeout (addr, tid)
      | None => ret tt
      end
  | RotateSecrets secretA secretB => _rotateSecrets secretA secretB
  | Listening => _onListening
  end.

(** An exception ends the handling of one event, not the run. *)
Definition run (evs : list event) (st : DHT) : DHT :=
  fold_left (fun st ev => final (handle ev st)) evs st.

Definition is_resolve (key : string * N) (e : effect) : bool :=
  match e with
  | Resolve addr tid _ _ => bool_decide ((addr, tid) = key)
  | _ => false
  end.

(** How often the function registered for transaction [key] was called. *)
Definition resolutions (key : string * N) (st : DHT) : nat :=
  length (List.filter (is_resolve key) (trace st)).

(** The calls that the wrapper [once] of [key] has let through: one
    when [called] is set, none before. *)
Definition budget (key : string * N) (st : DHT) : nat :=
  match onces st !! key with
  | Some (OnceEnv true _) => 1
  | _ => 0
  end.

(** The invariant of the registry: a registered function was called at
    most as often as its wrapper allows, and the ids handed out for an
    address are below the next one. *)
Record registry_ok (st : DHT) : Prop := {
  called_within_budget : forall key, (resolutions key st <= budget key st)%nat;
  ids_below_next : forall addr tid,
    is_Some (onces st !! (addr, tid)) ->
    exists reqs, transactions st !! addr = Some reqs /\
                 (tid < nextTransactionId reqs)%N
}.

(** Whatever a method does, returning or throwing, relates the state it
    starts in to the state it leaves by [R]. *)
Definition respects (R : relation DHT) {A} (m : M A) : Prop :=
  forall st, R st (final (m st)).

Definition keeps_registry : relation DHT :=
  fun st st' => registry_ok st -> registry_ok st'.

Definition same_lookups : relation DHT :=
  fun st st' => lookups st' = lookups st.

(** ** Lookups *)

(** [l] is in ascending, respectively descending, order of XOR distance
    to [target]. *)
Definition ascending (target : bytes) (l : list contact) : Prop :=
  StronglySorted
    (fun a b => (distance (contact_id a) target <= distance (contact_id b) target)%N) l.

Definition descending (target : bytes) (l : list contact) : Prop :=
  StronglySorted
    (fun a b => (distance (contact_id b) target <= distance (contact_id a) target)%N) l.

(** [candidates] as [onResponse] computes them: the contacts among the
    [K] closest to the target whose address has not been queried. *)
Definition unqueried_closest (env : lookup_env) (table : KBucket) : list contact :=
  filter (fun contact => contact_addr contact ∉ queried env)
         (kb_closest (lookup_id env) K table).

(** The hosts of the datagrams sent, in the order of sending. *)
Definition destinations (st : DHT) : list string :=
  omap (fun e => match e with
                 | SocketSend _ _ host => Some host
                 | _ => None
                 end) (trace st).
End Statements.

Arguments keeps_registry KBucket : clear implicits.
Arguments same_lookups KBucket : clear implicits.


(** ** The vocabulary of inbound traffic and of sessions *)

Section Sessions.
Context {KBucket : Type} `{!KBucketOps KBucket} `{!KBucketLoose KBucket}.
Context `{!Runtime}.
Local Open Scope js_scope.
Local Open Scope string_scope.

Local Abbreviation M := (M KBucket).
Local Abbreviation DHT := (DHT KBucket).

(** What the handling of a query whose transaction id is [t] may have
    done to a node: nothing at all, or nothing but sending one datagram
    to [host], which carries [t] when [t] is a Buffer. *)
Definition answered (host : string) (t : jsval) (st st' : DHT) : Prop :=
  st' = st \/
  exists message port,
    st' = set_trace (trace st ++ [SocketSend message port host]) st /\
    forall b, t = JBuf b -> get_prop message "t" = JBuf b.

(** The transaction [key] is pending: its slot holds the two closures,
    its timer is armed, and the function [fn] registered for it has not
    been called. *)
Definition pending_transaction (key : string * N) (fn : resolver) (st : DHT) : Prop :=
  (reqs ← transactions st !! key.1; slots reqs !! key.2)
    = Some (Some (Transaction key key)) /\
  onces st !! key = Some (OnceEnv false fn) /\
  key ∈ timers st.

(** The node after the closures of transaction [key] have cleared its
    timer and its slot and the wrapper [once] has let the call with
    [(err, data)] through, before the registered function [fn] runs. *)
Definition settled (key : string * N) (fn : resolver) (err : option jserror)
    (data : jsval) (st : DHT) : DHT :=
  set_trace (trace st ++ [Resolve key.1 key.2 err data])
    (set_onces (<[key := OnceEnv true fn]> (onces st))
       (set_transactions
          (alter (fun reqs => Reqs (<[key.2 := None]> (slots reqs))
                                   (nextTransactionId reqs))
                 key.1 (transactions st))
          (set_timers (timers st ∖ {[key]}) st))).

(** The [err] that [_onResponseOrError] builds for a message of [type]:
    none for a response, and for an error the [Error] whose text is
    that of [message.e], or the exception of [join] when an element of
    [message.e] has no text. *)
Definition reply_error (type : string) (message : jsval) : jserror + option jserror :=
  if String.eqb type MESSAGE_TYPE.ERROR then
    match error_text (get_prop message "e") with
    | inl e => inl e
    | inr _ => inr (Some (ReplyError (get_prop message "e")))
    end
  else inr None.

(** The node after [_getTransactionId] has registered [fn] for [addr]. *)
Definition registered (addr : string) (fn : resolver) (st : DHT) : DHT :=
  let reqs := default new_reqs (transactions st !! addr) in
  let key := (addr, nextTransactionId reqs) in
  set_transactions
    (<[addr := Reqs (<[nextTransactionId reqs := Some (Transaction key key)]>
                       (slots reqs))
                    (nextTransactionId reqs + 1)]> (transactions st))
    (set_timers ({[key]} ∪ timers st)
       (set_onces (<[key := OnceEnv false fn]> (onces st)) st)).

(** The id that the next call of [_getTransactionId] returns for [addr]. *)
Definition next_id (addr : string) (st : DHT) : N :=
  nextTransactionId (default new_reqs (transactions st !! addr)).

(** What happens to a node, datagrams included: an event of [handle], or
    the arrival of a datagram from [host]:[port] on which [bncode.decode]
    returns or throws [decoded]. *)
Inductive input :=
| Api (ev : event)
| Datagram (decoded : jserror + jsval) (host : string) (port : Z).

Definition receive (i : input) : M unit :=
  match i with
  | Api ev => handle ev
  | Datagram decoded host port => _onData decoded host port
  end.

(** An exception ends the handling of one input, not the session. *)
Definition session (inputs : list input) (st : DHT) : DHT :=
  fold_left (fun st i => final (receive i st)) inputs st.

(** [P] holds after a step if it held before. *)
Definition preserved (P : DHT -> Prop) : relation DHT :=
  fun st st' => P st -> P st'.

(** [port > 0 && port < 65535] *)
Definition port_in_range (port : jsval) : Prop :=
  exists p, js_ToNumber port = inr (Num p) /\ (0 < p < 65535)%Z.

(** Every datagram handed to the socket went to a port in range. *)
Definition egress_ok (st : DHT) : Prop :=
  forall message port host,
    SocketSend message port host ∈ trace st -> port_in_range port.

(** The array stored under an info-hash holds no endpoint twice. *)
Definition peer_sets_ok (st : DHT) : Prop :=
  forall store key stored,
    peers st = Some store -> store !! key = Some stored -> NoDup stored.

(** The node has been destroyed: it is closed, and [destroy] has released
    the routing table, the peer store and the address cache. *)
Definition shut (st : DHT) : Prop :=
  _closed st = true /\ nodes st = None /\ peers st = None /\ _addrData st = None.

(** The address cache holds [array] for [addr], or [destroy] has
    released the cache. *)
Definition cached (addr : string) (array : string * jsnum) (st : DHT) : Prop :=
  match _addrData st with
  | Some cache => cache !! addr = Some array
  | None => _closed st = true
  end.
End Sessions.

Arguments egress_ok KBucket {_} _.
Arguments peer_sets_ok KBucket : clear implicits.
Arguments shut KBucket : clear implicits.
Arguments cached KBucket : clear implicits.

(** ** A reference implementation of the interfaces

    Enough of the packages to run the node on examples: a routing table
    that is a list of contacts in insertion order, decimal literals for
    the number coercion, and dotted IPv4 addresses. *)

Module Reference.
Local Open Scope string_scope.

Fixpoint insert_by_distance (target : bytes) (c : contact) (sorted : list contact)
  : list contact :=
  match sorted with
  | [] => [c]
  | x :: rest =>
      if (distance (contact_id c) target <=? distance (contact_id x) target)%N
      then c :: x :: rest
      else x :: insert_by_distance target c rest
  end.

(** Stable sort by ascending distance to [target]. *)
Definition sort_by_distance (target : bytes) (l : list contact) : list contact :=
  fold_right (insert_by_distance target) [] l.

Definition same_id (id : bytes) (c : contact) : bool :=
  bool_decide (contact_id c = id).

#[export] Instance list_bucket : KBucketOps (list contact) := {
  kb_new _ := [];
  kb_add c table :=
    if existsb (same_id (contact_id c)) table then table else (table ++ [c])%list;
  kb_get id table := List.find (same_id id) table;
  kb_remove c table := List.filter (fun x => negb (same_id (contact_id c) x)) table;
  kb_closest id n table := firstn n (sort_by_distance id table)
}.

Definition digit (c : ascii) : option N :=
  let n := N_of_ascii c in
  if ((48 <=? n) && (n <=? 57))%N then Some (n - 48)%N else None.

Fixpoint decimal_from (acc : N) (s : string) : option N :=
  match s with
  | EmptyString => Some acc
  | String c rest =>
      match digit c with
      | Some d => decimal_from (acc * 10 + d) rest
      | None => None
      end
  end.

(** A non-empty string of digits. *)
Definition decimal (s : string) : option N :=
  match s with
  | EmptyString => None
  | _ => decimal_from 0 s
  end.

Definition number_of_text (s : string) : jsnum :=
  match s with
  | EmptyString => Num 0
  | _ => match decimal s with
         | Some n => Num (Z.of_N n)
         | None => NaN
         end
  end.

Definition to_number (v : jsval) : jserror + jsnum :=
  match v with
  | JStr s => inr (number_of_text s)
  | JBuf b => inr (number_of_text (string_of_list_byte b))
  | _ => inr NaN
  end.

Definition octet (s : string) : option byte :=
  match decimal s with
  | Some n => if (n <=? 255)%N then Some (byte_of_N n) else None
  | None => None
  end.

Definition ipv4_to_compact (addr : string) : jserror + bytes :=
  match split ":" addr with
  | [ip; port_] =>
      match map octet (split "." ip), decimal port_ with
      | [Some a; Some b; Some c; Some d], Some p =>
          if (p <=? 65535)%N then inr ([a; b; c; d] ++ N_to_be_bytes 2 p)%list
          else inl (TypeError "value is out of bounds")
      | _, _ => inl (Error "invalid address format")
      end
  | _ => inl (Error "invalid address format, expecting: 10.10.10.5:128")
  end.

#[export] Instance runtime : Runtime := {
  ToNumber := to_number;
  string2compact := ipv4_to_compact;
  compact2string_ipv6 buf := "[" ++ hex (firstn 16 buf) ++ "]:"
                             ++ Z_to_string (Z.of_N (be_bytes_to_N (skipn 16 buf)))
}.

Definition node_id : bytes := repeat x00 19 ++ [x01].

(** A node just constructed, with two fixed secrets. *)
Definition node : DHT (list contact) :=
  new_DHT node_id (repeat x11 20) (repeat x22 20).

(** ** Data of the scenarios *)

Definition buf (s : string) : jsval := JBuf (list_byte_of_string s).

Definition info_hash : bytes := repeat xaa 20.

(** The token that [node] issues to [ip]. *)
Definition token_for (ip : string) : bytes :=
  sha1 (list_byte_of_string ip ++ repeat x11 20)%list.

(** An [announce_peer] query of a peer at 9.9.9.9 with the arguments
    [a] after [id], [info_hash] and [token]. *)
Definition announce (token : bytes) (a : list (string * jsval)) : jsval :=
  JObj [("t", buf "aa"); ("y", buf "q"); ("q", buf "announce_peer");
        ("a", JObj ([("id", JBuf (repeat x00 19 ++ [x02])%list);
                     ("info_hash", JBuf info_hash);
                     ("token", JBuf token)] ++ a)%list)].

Definition announce_implied : jsval :=
  announce (token_for "9.9.9.9")
    [("port", JNum (Num 0)); ("implied_port", JNum (Num 1))].

Definition announce_without_implied_port : jsval :=
  announce (token_for "9.9.9.9") [("port", JNum (Num 6881))].

Definition announce_explicit : jsval :=
  announce (token_for "9.9.9.9")
    [("port", JNum (Num 6881)); ("implied_port", JNum (Num 0))].

(** The same query with a number that is no port as [a.port]. *)
Definition announce_out_of_range : jsval :=
  announce (token_for "9.9.9.9")
    [("port", JNum (Num 70000)); ("implied_port", JNum (Num 0))].

(** One record of compact node info (node [0x02...02] at 1.2.3.4:6881)
    followed by a single byte. *)
Definition node_info_27 : bytes :=
  (repeat x02 20 ++ [x01; x02; x03; x04; x1a; xe1] ++ [xff])%list.

(** A response whose transaction id is a single byte. *)
Definition response_short_tid : jsval :=
  JObj [("t", buf "a"); ("y", buf "r");
        ("r", JObj [("id", JBuf (repeat x00 19 ++ [x02])%list)])].

(** A response with the two-byte transaction id "aa". *)
Definition response_unknown_tid : jsval :=
  JObj [("t", buf "aa"); ("y", buf "r");
        ("r", JObj [("id", JBuf (repeat x00 19 ++ [x02])%list)])].

(** ** A lookup *)

Definition target : bytes := repeat x00 20.

Definition far (n : byte) : bytes := (repeat x00 19 ++ [n])%list.

(** Four contacts at distances 2, 3, 4 and 5 from [target]. *)
Definition contacts : list contact :=
  [Contact (far x02) "2.2.2.2:2002"; Contact (far x03) "3.3.3.3:3003";
   Contact (far x04) "4.4.4.4:4004"; Contact (far x05) "5.5.5.5:5005"].

(** The node knows the four contacts and has started a [find_node]
    lookup of [target] with one seed address; the probe of the seed is
    pending. *)
Definition looking_up : DHT (list contact) :=
  run [AddNode "4.4.4.4:4004" (IdBuffer (far x04));
       AddNode "2.2.2.2:2002" (IdBuffer (far x02));
       AddNode "5.5.5.5:5005" (IdBuffer (far x05));
       AddNode "3.3.3.3:3003" (IdBuffer (far x03));
       Lookup (IdBuffer target) (LookupOpts true (Some ["9.9.9.9:6881"])) Noop]
      node.

Definition seeded : lookup_env :=
  LookupEnv target true {["9.9.9.9:6881"]} 1 Noop.

(** ** A ping *)

Definition pong : jsval :=
  JObj [("t", JBuf [x00; x01]); ("y", buf "r");
        ("r", JObj [("id", JBuf (far x02))])].

Definition ping_run : list event :=
  [SendPing "1.2.3.4" (Num 6881) (UserFn "cb");
   ResponseOrError "1.2.3.4" 6881 "r" pong;
   Timeout "1.2.3.4:6881" 1;
   ResponseOrError "1.2.3.4" 6881 "r" pong].
End Reference.

(** ** Scenarios with inbound queries *)

Module Scenarios.
Import Reference.
Local Open Scope string_scope.

(** The list of [Reference] does not look at an id that is no Buffer:
    [get] finds nothing, and [closest] returns the first contacts of the
    table. *)
#[export] Instance list_bucket_loose : KBucketLoose (list contact) := {
  kb_get_any _ _ := inr None;
  kb_closest_any _ n table := inr (firstn n table)
}.

(** A query of the node [0x00...02] with transaction id "aa". *)
Definition query (q : string) (a : list (string * jsval)) : jsval :=
  JObj [("t", buf "aa"); ("y", buf "q"); ("q", buf q);
        ("a", JObj (("id", JBuf (far x02)) :: a))].

Definition get_peers : jsval := query "get_peers" [("info_hash", JBuf info_hash)].

Definition find_node : jsval := query "find_node" [("target", JBuf target)].

(** A [ping] query that carries no transaction id. *)
Definition ping_without_t : jsval :=
  JObj [("y", buf "q"); ("q", buf "ping"); ("a", JObj [("id", JBuf (far x02))])].

(** An error for transaction 1 whose [e] holds a dictionary with an
    entry [toString]. *)
Definition error_without_text : jsval :=
  JObj [("t", JBuf [x00; x01]); ("y", buf "e");
        ("e", JArr [JNum (Num 201); JObj [("toString", JNum (Num 1))]])].

(** What reaches the node between two reads of the address cache: a
    ping from 9.9.9.9, and a lookup that the caller starts at 5.6.7.8. *)
Definition meanwhile : list input :=
  [Datagram (inr (query "ping" [])) "9.9.9.9" 6881;
   Api (Lookup (IdBuffer target) (LookupOpts true (Some ["5.6.7.8:6881"])) Noop)].

(** The compact form of 1.2.3.4:6881. *)
Definition endpoint : bytes := [x01; x02; x03; x04; x1a; xe1].

(** The node after [addPeer('1.2.3.4:6881', info_hash)]. *)
Definition tracking : DHT (list contact) :=
  final (addPeer "1.2.3.4:6881" (IdBuffer info_hash) node).

(** The node after a ping to 1.2.3.4:6881 with the callback [cb]. *)
Definition pinging : DHT (list contact) :=
  final (_sendPing "1.2.3.4" (Num 6881) (User (UserFn "cb")) node).

(** A node whose next transaction id for 1.2.3.4:6881 is 65536, as it
    is after 65535 queries to that address (the transactions of those
    queries are left out). *)
Definition exhausted : DHT (list contact) :=
  set_transactions {["1.2.3.4:6881" := Reqs ∅ 65536]} node.

(** The node of [Reference.looking_up], destroyed while the probe of the
    seed is in flight. *)
Definition abandoned : DHT (list contact) :=
  final (destroy Noop looking_up).

(** A response to the probe of [Reference.looking_up] that has no [r]. *)
Definition response_without_r : jsval :=
  JObj [("t", JBuf [x00; x01]); ("y", buf "r")].

(** The field [r] of a [find_node] response with one contact, and of a
    [get_peers] response with one peer. *)
Definition found : jsval :=
  JObj [("id", JBuf (far x02));
        ("nodes", JBuf (repeat x02 20 ++ [x01; x02; x03; x04; x1a; xe1])%list)].

Definition got : jsval :=
  JObj [("id", JBuf (far x02)); ("values", JArr [JBuf endpoint])].
End Scenarios.

(** * Properties *)

Section Properties.
Context {KBucket : Type} `{!KBucketOps KBucket} `{!Runtime}.
Local Open Scope js_scope.
Local Open Scope string_scope.

Local Abbreviation M := (M KBucket).
Local Abbreviation DHT := (DHT KBucket).

Implicit Types (st : DHT) (host addr : string) (message : jsval).

(** ** Tokens *)

Lemma JBuf_inj (a b : bytes) : JBuf a = JBuf b -> a = b.
Proof. congruence. Qed.

Lemma bufferEqual_refl (b : bytes) : bufferEqual (JBuf b) (JBuf b) = true.
Proof. unfold bufferEqual. by apply bool_decide_eq_true. Qed.

Lemma bufferEqual_spec (v : jsval) (b : bytes) :
  bufferEqual v (JBuf b) = true <-> v = JBuf b.
Proof.
  destruct v; simpl; try (split; [discriminate | intros [=]]).
  rewrite bool_decide_eq_true. split; [by intros -> | apply JBuf_inj].
Qed.

Lemma _isValidToken_eq token host st s0 s1 :
  secrets st = Some (s0, s1) ->
  _isValidToken token host st =
    Ok (bufferEqual token (JBuf (sha1 (list_byte_of_string host ++ s0)%list))
        || bufferEqual token (JBuf (sha1 (list_byte_of_string host ++ s1)%list))) st.
Proof.
  intros Hs. unfold _isValidToken, _generateToken, bind, gets, ret.
  by rewrite Hs.
Qed.

Lemma _generateToken_current host st s0 s1 :
  secrets st = Some (s0, s1) ->
  _generateToken host None st = Ok (sha1 (list_byte_of_string host ++ s0)%list) st.
Proof.
  intros Hs. unfold _generateToken, bind, gets, ret. by rewrite Hs.
Qed.

Lemma _rotateSecrets_eq secretA secretB st s0 s1 :
  secrets st = Some (s0, s1) ->
  _rotateSecrets secretA secretB st = Ok tt (set_secrets (Some (secretA, s0)) st).
Proof.
  intros Hs. unfold _rotateSecrets, bind, gets, modify. by rewrite Hs.
Qed.

(** C2.  A token issued for [ip] verifies against [ip] at once and after
    one rotation of the secrets; after two rotations it does not, the
    two secrets drawn meanwhile being different from the one the token
    was issued under and SHA-1 not colliding on them. *)
Theorem token_validity st ip s0 s1 a1 b1 a2 b2 :
  secrets st = Some (s0, s1) ->
  a1 <> s0 -> a2 <> s0 ->
  no_collision (list_byte_of_string ip ++ s0) (list_byte_of_string ip ++ a1) ->
  no_collision (list_byte_of_string ip ++ s0) (list_byte_of_string ip ++ a2) ->
  exists token,
    _generateToken ip None st = Ok token st /\
    let st1 := final (_rotateSecrets a1 b1 st) in
    let st2 := final (_rotateSecrets a2 b2 st1) in
    _isValidToken (JBuf token) ip st = Ok true st /\
    _isValidToken (JBuf token) ip st1 = Ok true st1 /\
    _isValidToken (JBuf token) ip st2 = Ok false st2.
Proof.
  intros Hs Ha1 Ha2 Hc1 Hc2.
  exists (sha1 (list_byte_of_string ip ++ s0)%list).
  split; [by apply _generateToken_current with s1 |].
  rewrite (_rotateSecrets_eq a1 b1 st s0 s1 Hs). cbn [final].
  set (st1 := set_secrets (Some (a1, s0)) st).
  assert (Hs1 : secrets st1 = Some (a1, s0)) by reflexivity.
  rewrite (_rotateSecrets_eq a2 b2 st1 a1 s0 Hs1). cbn [final].
  set (st2 := set_secrets (Some (a2, a1)) st1).
  assert (Hs2 : secrets st2 = Some (a2, a1)) by reflexivity.
  rewrite (_isValidToken_eq _ ip st s0 s1 Hs),
          (_isValidToken_eq _ ip st1 a1 s0 Hs1),
          (_isValidToken_eq _ ip st2 a2 a1 Hs2).
  rewrite !bufferEqual_refl, orb_true_r. cbn [orb].
  repeat split.
  f_equal. apply orb_false_iff. split.
  - apply not_true_is_false. rewrite bufferEqual_spec. intros Heq%JBuf_inj.
    apply Hc2 in Heq. apply app_inv_head in Heq. by apply Ha2.
  - apply not_true_is_false. rewrite bufferEqual_spec. intros Heq%JBuf_inj.
    apply Hc1 in Heq. apply app_inv_head in Heq. by apply Ha1.
Qed.

(** ** [announce_peer] *)

Lemma _send_number host (p : Z) message st :
  _send host (JNum (Num p)) message st =
    if ((0 <? p) && (p <? 65535))%Z then
      match bncode_encode message with
      | inr _ => Ok tt (sent message p host st)
      | inl e => Throw e st
      end
    else Ok tt st.
Proof.
  unfold _send, bind, lift, ret, log, modify. simpl.
  destruct ((0 <? p)%Z && (p <? 65535)%Z); [| done].
  by destruct (bncode_encode message).
Qed.

(** [bncode.encode] returns on a value that holds no [undefined]. *)
Lemma bncode_encode_encodable (v : jsval) :
  encodable v = true -> bncode_encode v = inr (bencode v).
Proof. unfold bncode_encode. by intros ->. Qed.

Lemma bncode_encode_undefined (v : jsval) :
  encodable v = false -> exists e, bncode_encode v = inl e.
Proof. unfold bncode_encode. intros ->. by eexists. Qed.

(** The acknowledgement can be encoded when the [t] that it echoes can. *)
Lemma encodable_ack message st :
  encodable (ack message st) = encodable (get_prop message "t").
Proof. unfold ack. cbn. by rewrite andb_true_r. Qed.

Lemma announce_valid_args host message st :
  announce_valid host message st -> get_prop message "a" <> JUndefined.
Proof.
  intros [_ Hv] Ha. rewrite Ha in Hv. cbn in Hv.
  unfold _isValidToken, _generateToken, bind, gets, ret, throw in Hv.
  by destruct (secrets st) as [[? ?]|].
Qed.

(** What the handler does with a query that passes validation. *)
Lemma _onAnnouncePeer_valid host port message st :
  announce_valid host message st ->
  _onAnnouncePeer host port message st =
    _send host (announce_port port (get_prop message "a")) (ack message st) st.
Proof.
  intros Hv. pose proof (announce_valid_args _ _ _ Hv) as Ha.
  destruct Hv as [Hi Hv]. unfold _onAnnouncePeer.
  rewrite Hi. cbn [negb]. unfold bind at 1. rewrite Hv. cbn [negb].
  destruct (get_prop message "a"); done.
Qed.

(** The handler never writes to the peer store. *)
Lemma _send_peers host port message st :
  peers (final (_send host port message st)) = peers st.
Proof.
  unfold _send, bind, lift, log, modify, ret, throw.
  destruct (js_ToNumber port) as [e|[p|]]; simpl; try done.
  destruct ((0 <? p)%Z && (p <? 65535)%Z); [| done].
  by destruct (bncode_encode message).
Qed.

Lemma _sendError_peers host port t code text st :
  peers (final (_sendError host port t code text st)) = peers st.
Proof.
  unfold _sendError, bind.
  destruct (truthy t && _); simpl.
  - unfold lift. destruct (transactionIdToBuffer t); simpl; [done |].
    apply _send_peers.
  - apply _send_peers.
Qed.

Lemma _isValidToken_state token host st :
  final (_isValidToken token host st) = st.
Proof.
  unfold _isValidToken, _generateToken, bind, gets, ret, throw.
  by destruct (secrets st) as [[? ?]|].
Qed.

Lemma _onAnnouncePeer_peers host port message st :
  peers (final (_onAnnouncePeer host port message st)) = peers st.
Proof.
  unfold _onAnnouncePeer.
  destruct (negb (truthy _)); [apply _sendError_peers |].
  unfold bind at 1.
  pose proof (_isValidToken_state
                (js_and (get_prop message "a")
                        (get_prop (get_prop message "a") "token")) host st) as Hst.
  destruct (_isValidToken _ host st) as [valid st'|e st']; simpl in Hst; subst st'.
  - destruct valid; cbn [negb]; [| apply _sendError_peers].
    destruct (get_prop message "a"); try apply _send_peers; done.
  - done.
Qed.

(** C3, as the code has it.  For a query that passes validation the
    port of the advertised endpoint is the port [a.port] of the message
    exactly when [a.implied_port] is the number 0, and the UDP source
    port in every other case, in particular when [a.implied_port] is
    absent. *)
Theorem announce_effective_port host port message st :
  announce_valid host message st ->
  let a := get_prop message "a" in
  let effective_port :=
    match get_prop a "implied_port" with
    | JNum (Num 0) => get_prop a "port"
    | _ => JNum (Num port)
    end in
  _onAnnouncePeer host port message st =
    _send host effective_port (ack message st) st.
Proof.
  intros Hv a effective_port. rewrite (_onAnnouncePeer_valid _ _ _ _ Hv).
  f_equal. unfold announce_port, effective_port, a, strict_ne_zero.
  by destruct (get_prop (get_prop message "a") "implied_port") as [|[[| |]|]| | | |].
Qed.

(** C10, as the code has it.  When [a.implied_port] is present and 0
    in a query with a valid token, the acknowledgement is handed to
    [_send] for the port [a.port], whatever the UDP source port was.
    [_send] transmits it to a port [p] with [0 < p < 65535], the query
    carrying a [t] that can be encoded, and drops it when [a.port] is a
    number outside that range. *)
Theorem announce_ack_to_announced_port host port message st :
  announce_valid host message st ->
  get_prop (get_prop message "a") "implied_port" = JNum (Num 0) ->
  _onAnnouncePeer host port message st =
    _send host (get_prop (get_prop message "a") "port") (ack message st) st /\
  forall p : Z,
    get_prop (get_prop message "a") "port" = JNum (Num p) ->
    ((0 < p < 65535)%Z ->
     encodable (get_prop message "t") = true ->
     _onAnnouncePeer host port message st = Ok tt (sent (ack message st) p host st)) /\
    (~ (0 < p < 65535)%Z ->
     _onAnnouncePeer host port message st = Ok tt st).
Proof.
  intros Hv H0. rewrite (_onAnnouncePeer_valid _ _ _ _ Hv).
  unfold announce_port. rewrite H0. cbn [strict_ne_zero]. split; [done |].
  intros p ->. rewrite _send_number. split.
  - intros [Hlo Hhi] Ht. apply Z.ltb_lt in Hlo, Hhi. rewrite Hlo, Hhi. cbn [andb].
    by rewrite bncode_encode_encodable by (by rewrite encodable_ack).
  - intros Hp. destruct (Z.ltb_spec 0 p), (Z.ltb_spec p 65535); cbn [andb]; try done.
    lia.
Qed.

(** ** The peer store *)

Lemma some_removePeer_hit key c stored st :
  c ∈ stored ->
  forall index,
    some (removePeer_callback key c) index stored st =
      Throw (ReferenceError "removeIndex is not defined") st.
Proof.
  induction stored as [|peer rest IH]; intros Hin index.
  - by apply elem_of_nil in Hin.
  - cbn [some]. unfold bind at 1. unfold removePeer_callback at 1.
    unfold bufferEqual. case_bool_decide as Heq.
    + done.
    + cbn. apply IH. apply elem_of_cons in Hin as [->|Hin]; [done | exact Hin].
Qed.

(** [removePeer] on an address whose compact form is stored. *)
Lemma removePeer_present infoHash addr c store stored st :
  peers st = Some store ->
  store !! js_ToString (idToHexString (js_of_id infoHash)) = Some stored ->
  string2compact addr = inr c ->
  c ∈ stored ->
  removePeer infoHash addr st =
    Throw (ReferenceError "removeIndex is not defined") st.
Proof.
  intros Hp Hs Hc Hin. unfold removePeer, bind, gets. rewrite Hp, Hs.
  unfold lift. rewrite Hc. cbn [ret].
  by rewrite (some_removePeer_hit _ c stored st Hin).
Qed.

(** ** Compact node info *)

Lemma length_slice {A} (l : list A) (start stop : nat) :
  length (slice l start stop) = Nat.min (stop - start) (length l - start).
Proof. unfold slice. by rewrite length_take, length_drop. Qed.

Lemma compact2string_6 (r : bytes) :
  length r = 6%nat -> compact2string r = inr (endpoint_text r).
Proof.
  intros Hlen.
  destruct r as [|a [|b [|c [|d [|p1 [|p2 [|? ?]]]]]]]; try discriminate Hlen.
  reflexivity.
Qed.

Lemma compact2string_short (r : bytes) :
  (length r < 6)%nat -> exists e, compact2string r = inl e.
Proof.
  intros Hlen.
  destruct r as [|a [|b [|c [|d [|p1 [|p2 ?]]]]]];
    cbn in Hlen; try lia; by eexists.
Qed.

Lemma parseNodeInfo_loop_spec (nodeInfo : bytes) (q r n : nat) :
  length nodeInfo = (26 * q + r)%nat -> (r < 26)%nat ->
  forall j fuel contacts,
    (j + n)%nat = q ->
    (length nodeInfo - 26 * j <= fuel)%nat ->
    parseNodeInfo_loop fuel nodeInfo (26 * j) contacts =
      (contacts ++ map (record_contact nodeInfo) (seq j n))%list.
Proof.
  intros Hlen Hr.
  induction n as [|n IH]; intros j fuel contacts Hj Hfuel.
  - cbn [seq map]. rewrite app_nil_r.
    destruct fuel as [|fuel]; [done |]. cbn [parseNodeInfo_loop].
    destruct (Nat.ltb_spec (26 * j) (length nodeInfo)) as [Hlt|Hge]; [| done].
    destruct (compact2string_short
                (slice nodeInfo (26 * j + 20) (26 * j + 26))) as [e ->]; [| done].
    rewrite length_slice. lia.
  - destruct fuel as [|fuel]; [lia |]. cbn [parseNodeInfo_loop].
    destruct (Nat.ltb_spec (26 * j) (length nodeInfo)) as [Hlt|Hge]; [| lia].
    rewrite compact2string_6 by (rewrite length_slice; lia).
    replace (26 * j + 26)%nat with (26 * S j)%nat by lia.
    rewrite IH by lia. cbn [seq map]. rewrite <- app_assoc. f_equal.
    cbn [app]. f_equal. unfold record_contact. do 3 f_equal; lia.
Qed.

(** C9, as the code has it.  [parseNodeInfo] yields the contacts of the
    complete leading records of 26 bytes, whether or not a partial
    record follows them; only the partial record is dropped. *)
Theorem parseNodeInfo_leading_records (nodeInfo : bytes) :
  parseNodeInfo (JBuf nodeInfo) =
    inr (map (record_contact nodeInfo) (seq 0 (length nodeInfo / 26))).
Proof.
  unfold parseNodeInfo. f_equal.
  apply (parseNodeInfo_loop_spec nodeInfo (length nodeInfo / 26)
           (length nodeInfo mod 26) (length nodeInfo / 26)
           (Nat.div_mod_eq _ _) (Nat.mod_upper_bound _ 26 ltac:(lia))
           0%nat (length nodeInfo) [] eq_refl).
  lia.
Qed.

(** ** After [destroy] *)

Lemma destroy_closed (cb : user_fn) st :
  let st' := final (destroy cb st) in
  _closed st' = true /\ nodes st' = None /\ peers st' = None.
Proof. by destruct cb. Qed.

(** C8.  After [destroy], [lookup] and [listen] return at once and
    change nothing; [addNode], [removeNode], [addPeer] and [removePeer]
    change nothing either, but each of them raises an exception. *)
Theorem destroyed_operations (cb : user_fn) st :
  let st' := final (destroy cb st) in
  (forall id opts cb', lookup id opts cb' st' = Ok tt st') /\
  (forall port onlistening, listen port onlistening st' = Ok tt st') /\
  (forall addr nodeId, exists e, addNode addr nodeId st' = Throw e st') /\
  (forall nodeId, exists e, removeNode nodeId st' = Throw e st') /\
  (forall addr infoHash, exists e, addPeer addr infoHash st' = Throw e st') /\
  (forall infoHash addr, exists e, removePeer infoHash addr st' = Throw e st').
Proof.
  intros st'. destruct (destroy_closed cb st) as (Hc & Hn & Hp).
  fold st' in Hc, Hn, Hp. repeat split.
  - intros id opts cb'. unfold lookup, bind, gets. by rewrite Hc.
  - intros port onlistening. unfold listen, bind, gets. by rewrite Hc.
  - intros addr nodeId. unfold addNode, bind, gets, lift, throw, ret.
    destruct (idToBuffer nodeId); [by eexists |]. rewrite Hn. by eexists.
  - intros nodeId. unfold removeNode, bind, gets. rewrite Hn. by eexists.
  - intros addr infoHash. unfold addPeer, bind, gets. rewrite Hp. by eexists.
  - intros infoHash addr. unfold removePeer, bind, gets. rewrite Hp. by eexists.
Qed.

(** ** Unexpected responses and errors *)

Lemma _sendError_echoable host (port : Z) t code text st :
  echoable t ->
  _sendError host (JNum (Num port)) t code text st =
    _send host (JNum (Num port))
      (JObj ([("y", JStr MESSAGE_TYPE.ERROR);
              ("e", JArr [JNum (Num code); JStr text])] ++ echoed t)%list) st.
Proof.
  intros Ht. unfold _sendError, bind.
  destruct t as [|[z|]|s|b|l|o]; cbn in Ht |- *; try done.
  - destruct z as [|z|z]; cbn; try done.
    + assert (Hz : (Z.pos z <=? 65535)%Z = true) by (apply Z.leb_le; lia).
      by rewrite Hz.
    + lia.
  - by destruct s.
Qed.

Lemma _onResponseOrError_no_match host (port : Z) type message st :
  match get_prop message "t" with JBuf b => (2 <= length b)%nat | _ => True end ->
  matching_transaction host port message st = None ->
  _onResponseOrError host port type message st =
    (if String.eqb type MESSAGE_TYPE.ERROR
     then _ <- lift (error_text (get_prop message "e")) ;;
          log (EmitWarning (WrappedError (ReplyError (get_prop message "e"))))
     else _sendError host (JNum (Num port)) (get_prop message "t")
            ERROR_TYPE.GENERIC "unexpected message") st.
Proof.
  intros Ht Hm. unfold _onResponseOrError, matching_transaction in *.
  destruct (get_prop message "t") as [|n|s|b|l|o] eqn:Et;
    try (unfold bind at 1; cbn [ret]; unfold bind at 1; unfold gets at 1;
         destruct (transactions st !! _); cbn [mbind option_bind];
         destruct (type =? _); unfold bind, lift, ret;
         [by destruct (error_text _) | done | by destruct (error_text _) | done]).
  destruct b as [|b0 [|b1 b]]; cbn in Ht; try lia.
  unfold bind at 1. unfold bind at 1. cbn [lift readUInt16BE0 ret].
  unfold bind at 1. unfold gets at 1.
  destruct (transactions st !! _) as [reqs|]; cbn [mbind option_bind] in Hm |- *.
  - rewrite Hm. destruct (type =? _); unfold bind, lift, ret;
      [by destruct (error_text _) | done].
  - destruct (type =? _); unfold bind, lift, ret;
      [by destruct (error_text _) | done].
Qed.

(** What the claim of C6 says, for a field [t] that can be read and
    echoed: an unmatched response is answered with the generic error
    201, an unmatched error whose [e] has a text raises a warning and
    nothing is sent. *)
Lemma _onResponseOrError_unmatched host (port : Z) message text st :
  echoable (get_prop message "t") ->
  matching_transaction host port message st = None ->
  error_text (get_prop message "e") = inr text ->
  _onResponseOrError host port MESSAGE_TYPE.RESPONSE message st =
    _send host (JNum (Num port))
      (JObj ([("y", JStr MESSAGE_TYPE.ERROR);
              ("e", JArr [JNum (Num ERROR_TYPE.GENERIC); JStr "unexpected message"])]
             ++ echoed (get_prop message "t"))%list) st /\
  _onResponseOrError host port MESSAGE_TYPE.ERROR message st =
    Ok tt (set_trace
             (trace st ++ [EmitWarning (WrappedError (ReplyError (get_prop message "e")))])
             st).
Proof.
  intros Ht Hm He.
  assert (Hr : match get_prop message "t" with
               | JBuf b => (2 <= length b)%nat
               | _ => True
               end) by (by destruct (get_prop message "t")).
  rewrite !(_onResponseOrError_no_match _ _ _ _ _ Hr Hm). cbn [String.eqb].
  split; [by apply _sendError_echoable |].
  unfold bind, lift. by rewrite He.
Qed.

(** ** What every method keeps *)

Section Respects.
Context (R : relation DHT) `{!PreOrder R}.

Lemma respects_ret {A} (a : A) : respects R (ret a : M A).
Proof. intros st. reflexivity. Qed.

Lemma respects_throw {A} (e : jserror) : respects R (throw e : M A).
Proof. intros st. reflexivity. Qed.

Lemma respects_gets {A} (f : DHT -> A) : respects R (gets f).
Proof. intros st. reflexivity. Qed.

Lemma respects_lift {A} (r : jserror + A) : respects R (lift r : M A).
Proof. destruct r; [apply respects_throw | apply respects_ret]. Qed.

Lemma respects_bind {A B} (m : M A) (k : A -> M B) :
  respects R m -> (forall a, respects R (k a)) -> respects R (bind m k).
Proof.
  intros Hm Hk st. specialize (Hm st). unfold bind.
  destruct (m st) as [a st'|e st']; [| done].
  etransitivity; [exact Hm | apply Hk].
Qed.

Lemma respects_modify (f : DHT -> DHT) :
  (forall st, R st (f st)) -> respects R (modify f).
Proof. intros Hf st. apply Hf. Qed.

Lemma respects_forEach {A} (f : A -> M unit) (arr : list A) :
  (forall x, respects R (f x)) -> respects R (forEach f arr).
Proof.
  intros Hf. induction arr as [|x rest IH]; cbn [forEach].
  - apply respects_ret.
  - apply respects_bind; [apply Hf | by intros _].
Qed.

Lemma respects_some {A} (f : A -> nat -> M bool) (arr : list A) :
  (forall x i, respects R (f x i)) -> forall index, respects R (some f index arr).
Proof.
  intros Hf. induction arr as [|x rest IH]; intros index; cbn [some].
  - apply respects_ret.
  - apply respects_bind; [apply Hf |].
    intros [|]; [apply respects_ret | apply IH].
Qed.
End Respects.

#[local] Instance keeps_registry_preorder : PreOrder (keeps_registry KBucket).
Proof.
  split.
  - intros st Hst. exact Hst.
  - intros st1 st2 st3 H12 H23 H1. apply H23, H12, H1.
Qed.

#[local] Instance same_lookups_preorder : PreOrder (same_lookups KBucket).
Proof.
  split.
  - intros st. reflexivity.
  - intros st1 st2 st3 H12 H23. unfold same_lookups in *. congruence.
Qed.

Create HintDb respects.

(** A change of state that is in the frame of [R]. *)
Ltac in_frame :=
  first
    [ reflexivity
    | match goal with
      | frame : forall st st', _ -> _ -> _ -> _ -> ?R st st' |- ?R _ _ =>
          apply frame; intros; reflexivity
      end ].

Ltac respects_step :=
  first
    [ assumption
    | solve [auto with respects]
    | apply respects_ret; tc_solve
    | apply respects_throw; tc_solve
    | apply respects_gets; tc_solve
    | apply respects_lift; tc_solve
    | apply respects_bind; [tc_solve | | intros ?]
    | apply respects_modify; [tc_solve | intros ?; in_frame]
    | apply respects_forEach; [tc_solve | intros ?]
    | match goal with
      | |- respects _ (match ?x with _ => _ end) => destruct x
      | |- respects _ (let _ := _ in _) => cbv zeta
      end ].

Ltac respects_tac := repeat respects_step.

Section Frames.
Context (R : relation DHT) `{!PreOrder R}.
(** [R] holds across any change of the fields that are neither the
    registry nor the lookups, and across an effect that is not the
    call of a registered function. *)
Context (frame : forall st st',
            onces st' = onces st -> transactions st' = transactions st ->
            lookups st' = lookups st ->
            (forall key, resolutions key st' = resolutions key st) ->
            R st st').

Lemma frame_log (e : effect) :
  (forall key, is_resolve key e = false) -> respects R (log e : M unit).
Proof.
  intros He. apply respects_modify; [done |]. intros st. apply frame; try done.
  intros key. unfold resolutions. cbn.
  rewrite List.filter_app. cbn. rewrite He. by rewrite app_nil_r.
Qed.

Ltac framed :=
  first
    [ apply frame_log; intros ?; reflexivity
    | apply respects_modify; [done | intros ?; apply frame; intros; reflexivity] ].

Ltac frame_tac := repeat first [framed | respects_step].

Lemma respects__send host port message : respects R (_send host port message).
Proof using All. unfold _send. frame_tac. Qed.
#[local] Hint Resolve respects__send : respects.

Lemma respects__sendError host port t code text :
  respects R (_sendError host port t code text).
Proof using All. unfold _sendError. frame_tac. Qed.
#[local] Hint Resolve respects__sendError : respects.

Lemma respects__generateToken host secret :
  respects R (_generateToken host secret).
Proof using All. unfold _generateToken. frame_tac. Qed.
#[local] Hint Resolve respects__generateToken : respects.

Lemma respects__isValidToken token host : respects R (_isValidToken token host).
Proof using All. unfold _isValidToken. frame_tac. Qed.
#[local] Hint Resolve respects__isValidToken : respects.

Lemma respects__rotateSecrets a b : respects R (_rotateSecrets a b).
Proof using All. unfold _rotateSecrets. frame_tac. Qed.

Lemma respects__onAnnouncePeer host port message :
  respects R (_onAnnouncePeer host port message).
Proof using All. unfold _onAnnouncePeer. frame_tac. Qed.

Lemma respects_addNode addr nodeId : respects R (addNode addr nodeId).
Proof using All. unfold addNode. frame_tac. Qed.
#[local] Hint Resolve respects_addNode : respects.

Lemma respects_removeNode nodeId : respects R (removeNode nodeId).
Proof using All. unfold removeNode. frame_tac. Qed.

Lemma respects_addPeer addr infoHash : respects R (addPeer addr infoHash).
Proof using All. unfold addPeer. frame_tac. Qed.
#[local] Hint Resolve respects_addPeer : respects.

Lemma respects_removePeer infoHash addr : respects R (removePeer infoHash addr).
Proof using All.
  unfold removePeer. frame_tac. apply respects_some; [done |]. intros peer i.
  unfold removePeer_callback, splice1. frame_tac.
Qed.

Lemma respects__getAddrData addr : respects R (_getAddrData addr).
Proof using All. unfold _getAddrData. frame_tac. Qed.
#[local] Hint Resolve respects__getAddrData : respects.

Lemma respects_clearTimeout handle : respects R (clearTimeout handle).
Proof using All. unfold clearTimeout. frame_tac. Qed.

Lemma respects_call_user cb err res : respects R (call_user cb err res).
Proof using All. unfold call_user. frame_tac. Qed.

Lemma respects_member v name : respects R (member v name).
Proof using All. unfold member. frame_tac. Qed.

Lemma respects_listen port onlistening : respects R (listen port onlistening).
Proof using All. unfold listen. frame_tac. Qed.

Lemma respects__onListening : respects R _onListening.
Proof using All. unfold _onListening. frame_tac. Qed.

Lemma respects_destroy cb : respects R (destroy cb).
Proof using All.
  unfold destroy. frame_tac. apply respects_call_user.
Qed.
End Frames.

#[local] Hint Resolve respects__send respects__sendError respects__generateToken
  respects__isValidToken respects__rotateSecrets respects__onAnnouncePeer
  respects_addNode respects_removeNode respects_addPeer respects_removePeer
  respects__getAddrData respects_clearTimeout respects_call_user respects_member
  respects_listen respects__onListening respects_destroy frame_log : respects.
#[local] Hint Extern 1 (PreOrder _) => tc_solve : respects.

Ltac respects_auto := repeat first [solve [auto 8 with respects] | respects_step].

(** The methods that send a query, given what [_getTransactionId] keeps. *)
Section Senders.
Context (R : relation DHT) `{!PreOrder R}.
Context (frame : forall st st',
            onces st' = onces st -> transactions st' = transactions st ->
            lookups st' = lookups st ->
            (forall key, resolutions key st' = resolutions key st) ->
            R st st').
Context (register : forall addr fn, respects R (_getTransactionId addr fn)).

Lemma respects__sendPing host port cb : respects R (_sendPing host port cb).
Proof using All. unfold _sendPing. respects_auto. Qed.

Lemma respects__sendFindNode host port nodeId cb :
  respects R (_sendFindNode host port nodeId cb).
Proof using All. unfold _sendFindNode. respects_auto. Qed.

Lemma respects__sendGetPeers host port infoHash cb :
  respects R (_sendGetPeers host port infoHash cb).
Proof using All. unfold _sendGetPeers. respects_auto. Qed.

Lemma respects__sendAnnouncePeer host port infoHash myPort token cb :
  respects R (_sendAnnouncePeer host port infoHash myPort token cb).
Proof using All. unfold _sendAnnouncePeer. respects_auto. Qed.
End Senders.

#[local] Hint Resolve respects__sendPing respects__sendFindNode
  respects__sendGetPeers respects__sendAnnouncePeer : respects.

(** ** The registry of transactions *)

Lemma registry_only st st' :
  onces st' = onces st -> transactions st' = transactions st ->
  (forall key, resolutions key st' = resolutions key st) ->
  keeps_registry KBucket st st'.
Proof.
  intros Ho Ht Hr [Hb Hi]. split.
  - intros key. specialize (Hb key). unfold budget in *. by rewrite Ho, Hr.
  - intros addr tid. rewrite Ho, Ht. apply Hi.
Qed.

Lemma registry_frame st st' :
  onces st' = onces st -> transactions st' = transactions st ->
  lookups st' = lookups st ->
  (forall key, resolutions key st' = resolutions key st) ->
  keeps_registry KBucket st st'.
Proof. intros Ho Ht _ Hr. by apply registry_only. Qed.
#[local] Hint Resolve registry_frame : respects.

Ltac registry_auto :=
  repeat first
    [ solve [auto 8 with respects]
    | apply respects_modify;
      [tc_solve | intros ?; apply registry_only; intros; reflexivity]
    | respects_step ].

Lemma registry__getTransactionId addr fn :
  respects (keeps_registry KBucket) (_getTransactionId addr fn).
Proof.
  intros st [Hb Hi]. unfold _getTransactionId, bind, gets, modify, ret. cbn.
  set (reqs := default new_reqs (transactions st !! addr)).
  set (tid := nextTransactionId reqs).
  assert (Hfresh : onces st !! (addr, tid) = None).
  { destruct (onces st !! (addr, tid)) eqn:Ho; [| done].
    destruct (Hi addr tid) as (r & Hr & Hlt); [by rewrite Ho |].
    subst tid reqs. rewrite Hr in Hlt. cbn in Hlt. lia. }
  split.
  - intros key. specialize (Hb key). unfold resolutions, budget in *. cbn.
    destruct (decide (key = (addr, tid))) as [->|Hne].
    + rewrite lookup_insert_eq. rewrite Hfresh in Hb. done.
    + by rewrite lookup_insert_ne.
  - intros addr' tid'. cbn.
    destruct (decide ((addr', tid') = (addr, tid))) as [[= -> ->]|Hne].
    + intros _. rewrite lookup_insert_eq. eexists. split; [done |]. cbn. lia.
    + rewrite lookup_insert_ne by done. intros Hs.
      destruct (Hi addr' tid' Hs) as (r & Hr & Hlt).
      destruct (decide (addr' = addr)) as [->|Hna].
      * rewrite lookup_insert_eq. eexists. split; [done |]. cbn.
        subst tid reqs. rewrite Hr. cbn. lia.
      * rewrite lookup_insert_ne by done. eauto.
Qed.
#[local] Hint Resolve registry__getTransactionId : respects.

Lemma registry_clear_slot key : respects (keeps_registry KBucket) (clear_slot key).
Proof.
  intros st [Hb Hi]. unfold clear_slot, modify. cbn. split.
  - intros k. apply Hb.
  - intros addr tid Hs. cbn in *. destruct (Hi addr tid Hs) as (r & Hr & Hlt).
    destruct (decide (addr = key.1)) as [->|Hne].
    + rewrite lookup_alter_eq, Hr. cbn. eexists. split; [done |]. done.
    + rewrite lookup_alter_ne by done. eauto.
Qed.
#[local] Hint Resolve registry_clear_slot : respects.

Lemma registry_update_lookup l f :
  respects (keeps_registry KBucket) (update_lookup l f).
Proof.
  unfold update_lookup. apply respects_modify; [tc_solve |].
  intros st. by apply registry_only.
Qed.
#[local] Hint Resolve registry_update_lookup : respects.

Lemma registry_lookup_query l addr :
  respects (keeps_registry KBucket) (lookup_query l addr).
Proof. unfold lookup_query, lookup_env_of. respects_auto. Qed.
#[local] Hint Resolve registry_lookup_query : respects.

Lemma registry_lookup_while l stack :
  respects (keeps_registry KBucket) (lookup_while l stack).
Proof.
  induction stack as [|contact rest IH]; cbn [lookup_while];
    unfold lookup_env_of; respects_auto.
Qed.
#[local] Hint Resolve registry_lookup_while : respects.

Lemma registry_lookup_onResponse l :
  respects (keeps_registry KBucket) (lookup_onResponse l).
Proof. unfold lookup_onResponse, lookup_env_of. respects_auto. Qed.
#[local] Hint Resolve registry_lookup_onResponse : respects.

Lemma registry_lookup id opts cb :
  respects (keeps_registry KBucket) (lookup id opts cb).
Proof. unfold lookup. registry_auto. Qed.
#[local] Hint Resolve registry_lookup : respects.

Lemma registry_run_resolver fn err data :
  respects (keeps_registry KBucket) (run_resolver fn err data).
Proof.
  unfold run_resolver, _sendFindNode_done, _sendGetPeers_done, ingest_nodes, call.
  respects_auto.
Qed.

(** The wrapper [once]: the first call sets [called] and is the only one
    that reaches the registered function. *)
Lemma registry_once_call key err data :
  respects (keeps_registry KBucket) (once_call key err data).
Proof.
  intros st Hst. unfold once_call, bind at 1, gets at 1.
  destruct (onces st !! key) as [[[|] fn]|] eqn:Ho; try done.
  unfold bind at 1, modify at 1. unfold bind at 1, log at 1, modify at 1.
  apply registry_run_resolver.
  destruct Hst as [Hb Hi]. split.
  - intros k. specialize (Hb k). unfold resolutions, budget in *. cbn.
    rewrite List.filter_app, length_app. cbn.
    destruct (decide (k = key)) as [->|Hne].
    + rewrite lookup_insert_eq. rewrite Ho in Hb.
      destruct key as [a t]. cbn. rewrite bool_decide_eq_true_2 by done. cbn. lia.
    + rewrite lookup_insert_ne by done.
      destruct key as [a t]. cbn. rewrite bool_decide_eq_false_2 by done. cbn. lia.
  - intros addr tid. cbn. intros Hs. apply Hi.
    destruct (decide ((addr, tid) = key)) as [->|Hne].
    + by rewrite Ho.
    + by rewrite lookup_insert_ne in Hs.
Qed.
#[local] Hint Resolve registry_once_call : respects.

Lemma registry_fire_timeout key :
  respects (keeps_registry KBucket) (fire_timeout key).
Proof. unfold fire_timeout, _getTransactionId_onTimeout. respects_auto. Qed.

Lemma registry__onResponseOrError host port type message :
  respects (keeps_registry KBucket) (_onResponseOrError host port type message).
Proof.
  unfold _onResponseOrError, _getTransactionId_onResponse. respects_auto.
Qed.

Lemma registry_handle ev : respects (keeps_registry KBucket) (handle ev).
Proof.
  destruct ev; cbn [handle];
    auto using registry_fire_timeout, registry__onResponseOrError with respects;
    respects_auto; apply registry_fire_timeout.
Qed.

Lemma registry_ok_new nodeId_ secretA secretB :
  registry_ok (new_DHT nodeId_ secretA secretB : DHT).
Proof.
  split.
  - intros key. unfold resolutions. cbn. lia.
  - intros addr tid [? Hs]. cbn in Hs. by rewrite lookup_empty in Hs.
Qed.

Lemma registry_ok_run evs st : registry_ok st -> registry_ok (run evs st).
Proof.
  revert st. induction evs as [|ev evs IH]; intros st Hst; cbn; [done |].
  apply IH. by apply registry_handle.
Qed.

(** C7.  In any run of a node, whatever responses, errors and timeouts
    arrive and in whatever order, the function registered for a
    transaction is called at most once. *)
Theorem resolved_at_most_once nodeId_ secretA secretB evs addr tid :
  (resolutions (addr, tid) (run evs (new_DHT nodeId_ secretA secretB : DHT)) <= 1)%nat.
Proof.
  destruct (registry_ok_run evs _ (registry_ok_new nodeId_ secretA secretB))
    as [Hb _].
  specialize (Hb (addr, tid)). unfold budget in Hb.
  destruct (onces _ !! _) as [[[|] ?]|]; lia.
Qed.

(** ** Lookups *)

Lemma lookups_frame st st' :
  onces st' = onces st -> transactions st' = transactions st ->
  lookups st' = lookups st ->
  (forall key, resolutions key st' = resolutions key st) ->
  same_lookups KBucket st st'.
Proof. by intros _ _ Hl _. Qed.

Lemma lookups__getTransactionId addr fn :
  respects (same_lookups KBucket) (_getTransactionId addr fn).
Proof. by intros st. Qed.

Lemma lookups_query_rest l addr :
  respects (same_lookups KBucket)
    (addrData <- _getAddrData addr ;;
     env <- lookup_env_of l ;;
     if findNode env then
       _sendFindNode addrData.1 addrData.2 (lookup_id env) (LookupOnResponse l)
     else
       _sendGetPeers addrData.1 addrData.2 (IdBuffer (lookup_id env))
         (LookupOnResponse l)).
Proof.
  apply respects_bind;
    [tc_solve | apply respects__getAddrData; [tc_solve | exact lookups_frame] |].
  intros addrData. apply respects_bind; [tc_solve | apply respects_gets; tc_solve |].
  intros env. destruct (findNode env).
  - apply respects__sendFindNode;
      [tc_solve | exact lookups_frame | exact lookups__getTransactionId].
  - apply respects__sendGetPeers;
      [tc_solve | exact lookups_frame | exact lookups__getTransactionId].
Qed.

Lemma lookup_query_lookups l addr st :
  lookups (final (lookup_query l addr st)) =
    alter (mark_queried addr) l (alter (add_pending 1) l (lookups st)).
Proof.
  unfold lookup_query, update_lookup. unfold bind at 1, modify at 1.
  unfold bind at 1, modify at 1.
  by rewrite (lookups_query_rest l addr _).
Qed.

Lemma lookup_while_spec l stack :
  forall st env,
    lookups st !! l = Some env ->
    let n := Z.to_nat (MAX_CONCURRENCY - pending env) in
    lookup_while l stack st =
      (forEach (fun c => lookup_query l (contact_addr c)) (take n stack) ;;
       ret (drop n stack)) st.
Proof.
  induction stack as [|c rest IH]; intros st env Hl n.
  - by rewrite take_nil, drop_nil.
  - cbn [lookup_while]. unfold bind at 1, lookup_env_of at 1, gets at 1.
    rewrite Hl. cbn [default from_option id].
    destruct (Z.ltb_spec (pending env) MAX_CONCURRENCY) as [Hlt|Hge].
    + assert (Hn : n = S (Z.to_nat (MAX_CONCURRENCY - (pending env + 1)))) by lia.
      rewrite Hn. cbn [take drop forEach]. unfold bind.
      pose proof (lookup_query_lookups l (contact_addr c) st) as Hq.
      destruct (lookup_query l (contact_addr c) st) as [[] st1|e st1]; [| done].
      cbn [final] in Hq.
      assert (Hl1 : lookups st1 !! l
                    = Some (mark_queried (contact_addr c) (add_pending 1 env))).
      { rewrite Hq. rewrite !list_lookup_alter_eq, Hl. reflexivity. }
      rewrite (IH st1 _ Hl1). cbn [pending mark_queried add_pending]. done.
    + assert (Hn : n = 0%nat) by lia. rewrite Hn. done.
Qed.

Lemma StronglySorted_filter {A} (R : relation A) (P : A -> Prop)
    `{!forall x, Decision (P x)} (l : list A) :
  StronglySorted R l -> StronglySorted R (filter P l).
Proof.
  induction 1 as [|a l Hl IH Ha]; [constructor |].
  rewrite filter_cons. destruct (decide (P a)); [| done].
  constructor; [done |]. apply List.Forall_forall. intros x Hx.
  rewrite <- list_elem_of_In in Hx. apply list_elem_of_filter in Hx as [_ Hx].
  rewrite List.Forall_forall in Ha. apply Ha. by rewrite <- list_elem_of_In.
Qed.

Lemma StronglySorted_rev {A} (R : relation A) (l : list A) :
  StronglySorted R l -> StronglySorted (flip R) (rev l).
Proof.
  induction 1 as [|a l Hl IH Ha]; [constructor |]. cbn [rev].
  apply StronglySorted_app. split_and!; [| done | repeat constructor].
  intros x1 x2 Hx1 Hx2%list_elem_of_singleton. subst x2.
  rewrite List.Forall_forall in Ha. apply Ha. rewrite in_rev.
  by rewrite <- list_elem_of_In.
Qed.

Lemma StronglySorted_take {A} (R : relation A) (n : nat) (l : list A) :
  StronglySorted R l -> StronglySorted R (take n l).
Proof.
  intros Hl. rewrite <- (take_drop n l) in Hl.
  by apply StronglySorted_app_1_l in Hl.
Qed.

Lemma bind_assoc_at {A B C} (m : M A) (k : A -> M B) (k' : B -> M C) st :
  bind (bind m k) k' st = bind m (fun a => bind (k a) k') st.
Proof. unfold bind. by destruct (m st). Qed.


(** * Further properties of the code *)

(** ** The laws of [bind] that the proofs rewrite with *)

Lemma bind_gets {A B} (f : DHT -> A) (k : A -> M B) st :
  bind (gets f) k st = k (f st) st.
Proof. reflexivity. Qed.

Lemma bind_modify {B} (f : DHT -> DHT) (k : unit -> M B) st :
  bind (modify f) k st = k tt (f st).
Proof. reflexivity. Qed.

Lemma bind_ret {A B} (a : A) (k : A -> M B) st : bind (ret a) k st = k a st.
Proof. reflexivity. Qed.

(** ** Identifiers on the wire *)

Lemma hex_byte (b : byte) :
  let n := Byte.to_N b in
  hex2bin (hex_digit (n / 16)) = Some (n / 16)%N /\
  hex2bin (hex_digit (n mod 16)) = Some (n mod 16)%N /\
  byte_of_N (n / 16 * 16 + n mod 16) = b.
Proof. destruct b; vm_compute; done. Qed.

Lemma unhex_hex (b : bytes) : unhex (hex b) = Some b.
Proof.
  induction b as [|x b IH]; [done |]. cbn [hex unhex].
  destruct (hex_byte x) as (-> & -> & ->). by rewrite IH.
Qed.

Lemma hex_inj (a b : bytes) : hex a = hex b -> a = b.
Proof.
  intros Heq. pose proof (unhex_hex a) as Ha. rewrite Heq, unhex_hex in Ha.
  congruence.
Qed.

(** A hex string is none of the names that objects inherit. *)
Lemma inherited_hex (b : bytes) : inherited (hex b) = false.
Proof. destruct b as [|x b]; [done |]. cbn [hex]. by destruct x. Qed.

(** X1.  [idToHexString] and [idToBuffer] are inverse to each other on
    Buffers: the hex string of a Buffer is read back as that Buffer. *)
Theorem idToBuffer_idToHexString (b : bytes) :
  exists s, idToHexString (JBuf b) = JStr s /\ idToBuffer (IdString s) = inr b.
Proof. exists (hex b). split; [done |]. cbn. by rewrite unhex_hex. Qed.

Lemma to_N_byte_of_N (n : N) : Byte.to_N (byte_of_N n) = (n mod 256)%N.
Proof.
  unfold byte_of_N. destruct (Byte.of_N (n mod 256)) as [b|] eqn:E.
  - by apply Byte.to_of_N in E.
  - apply Byte.of_N_None_iff in E. pose proof (N.mod_lt n 256). lia.
Qed.

Lemma readUInt16BE0_N_to_be_bytes (tid : N) :
  (tid <= 65535)%N -> readUInt16BE0 (N_to_be_bytes 2 tid) = inr tid.
Proof.
  intros Htid. cbn. rewrite !to_N_byte_of_N. f_equal.
  rewrite (N.mod_small (tid / 256) 256)
    by (apply N.Div0.div_lt_upper_bound; lia).
  pose proof (N.div_mod tid 256). lia.
Qed.

(** X2.  A transaction id of 16 bits goes on the wire as two bytes, from
    which [readUInt16BE(0)] reads the id back. *)
Theorem transactionId_roundtrip (tid : N) :
  (tid <= 65535)%N ->
  exists t,
    transactionIdToBuffer (JNum (Num (Z.of_N tid))) = inr (JBuf t) /\
    length t = 2%nat /\
    readUInt16BE0 t = inr tid.
Proof.
  intros Htid. exists (N_to_be_bytes 2 tid). split_and!.
  - cbn [transactionIdToBuffer].
    assert (Hr : ((0 <=? Z.of_N tid) && (Z.of_N tid <=? 65535))%Z = true)
      by (apply andb_true_iff; split; apply Z.leb_le; lia).
    by rewrite Hr, N2Z.id.
  - done.
  - by apply readUInt16BE0_N_to_be_bytes.
Qed.

(** ** The peer store, continued *)

Lemma existsb_bufferEqual (c : bytes) (l : list bytes) :
  existsb (fun peer => bufferEqual (JBuf peer) (JBuf c)) l = bool_decide (c ∈ l).
Proof.
  induction l as [|x l IH]; cbn [existsb].
  - symmetry. apply bool_decide_eq_false_2. apply not_elem_of_nil.
  - rewrite IH. unfold bufferEqual.
    destruct (decide (x = c)) as [->|Hne].
    + rewrite bool_decide_eq_true_2 by done. cbn.
      symmetry. apply bool_decide_eq_true_2. apply elem_of_cons. by left.
    + rewrite (bool_decide_eq_false_2 (x = c)) by done. cbn.
      apply bool_decide_ext. rewrite elem_of_cons.
      split; [by right | by intros [->|?]].
Qed.

(** [addPeer] on an address that [string2compact] accepts, in closed
    form. *)
Lemma addPeer_accepted addr (h c : bytes) store st :
  peers st = Some store ->
  string2compact addr = inr c ->
  let old := default [] (store !! hex h) in
  let new := if decide (c ∈ old) then old else (old ++ [c])%list in
  addPeer addr (IdBuffer h) st =
    Ok tt (set_trace (trace st ++ [EmitPeer addr (JStr (hex h))])
             (set_peers (Some (<[hex h := new]> store)) st)).
Proof.
  intros Hp Hc old new. unfold addPeer. cbn [js_of_id idToHexString js_ToString].
  unfold bind at 1, gets at 1. rewrite Hp, inherited_hex, andb_false_r.
  unfold bind at 1, modify at 1. unfold bind at 1, lift at 1. rewrite Hc.
  cbn [ret]. rewrite existsb_bufferEqual.
  assert (Hstored :
    default [] (match store !! hex h with
                | Some _ => store
                | None => <[hex h := []]> store
                end !! hex h) = old).
  { subst old. destruct (store !! hex h) as [l|] eqn:E; [by rewrite E |].
    by rewrite lookup_insert_eq. }
  rewrite Hstored. unfold bind, modify, log, ret. subst new. clear Hstored.
  destruct (store !! hex h) as [l|] eqn:E; subst old; cbn [default from_option id].
  - case_bool_decide as Hin.
    + rewrite decide_True by done. by rewrite insert_id.
    + by rewrite decide_False.
  - rewrite bool_decide_eq_false_2 by apply not_elem_of_nil.
    rewrite decide_False by apply not_elem_of_nil.
    cbn. by rewrite insert_insert_eq.
Qed.

(** X3.  [addPeer] stores the compact form of the address under the
    info-hash unless it is there already, leaves what is stored under
    every other info-hash as it is, and emits [peer]. *)
Theorem addPeer_stores addr (h c : bytes) store st :
  peers st = Some store ->
  string2compact addr = inr c ->
  exists st',
    addPeer addr (IdBuffer h) st = Ok tt st' /\
    stored_peers h st' =
      (if decide (c ∈ stored_peers h st) then stored_peers h st
       else stored_peers h st ++ [c])%list /\
    (forall h', h' <> h -> stored_peers h' st' = stored_peers h' st) /\
    trace st' = (trace st ++ [EmitPeer addr (JStr (hex h))])%list.
Proof.
  intros Hp Hc. rewrite (addPeer_accepted addr h c store st Hp Hc).
  assert (Hold : forall h', stored_peers h' st = default [] (store !! hex h'))
    by (intros h'; unfold stored_peers; by rewrite Hp).
  eexists. split; [reflexivity |]. split_and!.
  - unfold stored_peers at 1. cbn. by rewrite lookup_insert_eq, !Hold.
  - intros h' Hne. unfold stored_peers at 1. cbn.
    rewrite lookup_insert_ne by (by intros ?%hex_inj). by rewrite Hold.
  - done.
Qed.

(** [addPeer] on an address that [string2compact] rejects. *)
Lemma addPeer_rejected addr (h : bytes) e store st :
  peers st = Some store ->
  store !! hex h = None ->
  string2compact addr = inl e ->
  addPeer addr (IdBuffer h) st = Throw e (set_peers (Some (<[hex h := []]> store)) st).
Proof.
  intros Hp Hs Hc. unfold addPeer. cbn [js_of_id idToHexString js_ToString].
  unfold bind at 1, gets at 1. rewrite Hp, Hs, inherited_hex, andb_false_r.
  unfold bind at 1, modify at 1. unfold bind at 1, lift at 1. by rewrite Hc.
Qed.

Lemma some_removePeer_miss key c stored st :
  c ∉ stored ->
  forall index, some (removePeer_callback key c) index stored st = Ok false st.
Proof.
  induction stored as [|peer rest IH]; intros Hin index; [done |].
  apply not_elem_of_cons in Hin as [Hne Hin].
  cbn [some]. unfold bind at 1, removePeer_callback at 1.
  unfold bufferEqual. rewrite bool_decide_eq_false_2 by done. cbn [ret].
  by apply IH.
Qed.

(** X4.  [removePeer] on an address that is not stored under the
    info-hash returns without an exception and changes nothing. *)
Theorem removePeer_absent (h : bytes) addr c store st :
  peers st = Some store ->
  string2compact addr = inr c ->
  c ∉ stored_peers h st ->
  removePeer (IdBuffer h) addr st = Ok tt st.
Proof.
  intros Hp Hc Hin. unfold removePeer. cbn [js_of_id idToHexString js_ToString].
  unfold bind at 1, gets at 1. rewrite Hp.
  unfold stored_peers in Hin. rewrite Hp in Hin.
  destruct (store !! hex h) as [stored|]; [| by rewrite inherited_hex].
  unfold bind at 1, lift at 1. rewrite Hc. cbn [ret].
  unfold bind. by rewrite (some_removePeer_miss _ c stored st Hin).
Qed.

(** ** Tokens and hosts *)

Lemma list_byte_of_string_inj (s1 s2 : string) :
  list_byte_of_string s1 = list_byte_of_string s2 -> s1 = s2.
Proof.
  intros Heq. rewrite <- (string_of_list_byte_of_string s1), Heq.
  apply string_of_list_byte_of_string.
Qed.

(** X5.  A token is bound to the host it was issued to: with two secrets
    of the same length, the token issued to [host'] does not verify for
    another host, and an [announce_peer] query that carries it from
    there is answered with the protocol error 203 (SHA-1 not colliding
    on the inputs concerned). *)
Theorem token_bound_to_host host host' s0 s1 st :
  secrets st = Some (s0, s1) ->
  length s0 = length s1 ->
  host' <> host ->
  no_collision (list_byte_of_string host' ++ s0) (list_byte_of_string host ++ s0) ->
  no_collision (list_byte_of_string host' ++ s0) (list_byte_of_string host ++ s1) ->
  exists token,
    _generateToken host' None st = Ok token st /\
    _isValidToken (JBuf token) host st = Ok false st /\
    forall port message,
      let a := get_prop message "a" in
      truthy (idToHexString (js_and a (get_prop a "info_hash"))) = true ->
      js_and a (get_prop a "token") = JBuf token ->
      _onAnnouncePeer host port message st =
        _sendError host (JNum (Num port)) (get_prop message "t") ERROR_TYPE.PROTOCOL
          "cannot `announce_peer` with bad token" st.
Proof.
  intros Hs Hlen Hne Hc0 Hc1.
  exists (sha1 (list_byte_of_string host' ++ s0)%list).
  assert (Hv : _isValidToken (JBuf (sha1 (list_byte_of_string host' ++ s0)%list))
                 host st = Ok false st).
  { rewrite (_isValidToken_eq _ host st s0 s1 Hs). f_equal.
    apply orb_false_iff. split; apply not_true_is_false; rewrite bufferEqual_spec;
      intros Heq%JBuf_inj.
    - apply Hc0 in Heq. apply app_inv_tail in Heq.
      by apply list_byte_of_string_inj in Heq.
    - apply Hc1 in Heq. apply app_inj_2 in Heq as [Heq _]; [| done].
      by apply list_byte_of_string_inj in Heq. }
  split_and!; [by apply _generateToken_current with s1 | exact Hv |].
  intros port message a Hi Ht. unfold _onAnnouncePeer. fold a.
  rewrite Hi. cbn [negb]. unfold bind at 1. by rewrite Ht, Hv.
Qed.

(** ** Queries *)

Lemma _send_final host port message st :
  final (_send host port message st) = st \/
  final (_send host port message st) =
    set_trace (trace st ++ [SocketSend message port host]) st /\ port_in_range port.
Proof.
  unfold _send, bind, lift, throw, ret, log, modify, port_in_range.
  destruct (js_ToNumber port) as [e|[p|]]; [by left | | by left].
  destruct (Z.ltb_spec 0 p); [| by left].
  destruct (Z.ltb_spec p 65535); [| by left]. cbn [andb].
  destruct (bncode_encode message); [by left |].
  right. split; [done |]. exists p. split; [done | lia].
Qed.

Lemma _send_answered host port message t st :
  (forall b, t = JBuf b -> get_prop message "t" = JBuf b) ->
  answered host t st (final (_send host port message st)).
Proof.
  intros Ht. destruct (_send_final host port message st) as [->|[-> _]]; [by left |].
  right. by exists message, port.
Qed.

(** The datagram that [_sendError] builds is an error message and echoes
    a transaction id that is a Buffer. *)
Lemma _sendError_final host port t code text st :
  final (_sendError host port t code text st) = st \/
  exists message,
    final (_sendError host port t code text st) =
      set_trace (trace st ++ [SocketSend message port host]) st /\
    get_prop message "y" = JStr MESSAGE_TYPE.ERROR /\
    get_prop message "e" = JArr [JNum (Num code); JStr text] /\
    (forall b, t = JBuf b -> get_prop message "t" = JBuf b) /\
    port_in_range port.
Proof.
  unfold _sendError, bind.
  destruct (truthy t && negb _) eqn:Ec.
  - destruct t as [| | |b| |]; try discriminate Ec;
      (unfold lift; destruct (transactionIdToBuffer _) as [e|t']; [by left |]);
      cbn [ret];
      (destruct (_send_final host port
                   (JObj ([("y", JStr MESSAGE_TYPE.ERROR);
                           ("e", JArr [JNum (Num code); JStr text])]
                          ++ (if truthy t' then [("t", t')] else []))%list) st)
         as [->|[-> Hp]]; [by left | right; eexists; split_and!; done]).
  - cbn [ret].
    destruct (_send_final host port
                (JObj ([("y", JStr MESSAGE_TYPE.ERROR);
                        ("e", JArr [JNum (Num code); JStr text])]
                       ++ (if truthy t then [("t", t)] else []))%list) st)
      as [->|[-> Hp]]; [by left |].
    right. eexists. split_and!; try done. by intros b ->.
Qed.

Lemma _sendError_answered host port t code text st :
  answered host t st (final (_sendError host port t code text st)).
Proof.
  destruct (_sendError_final host port t code text st)
    as [->|(message & -> & _ & _ & Ht & _)]; [by left |].
  right. by exists message, port.
Qed.

Lemma _generateToken_final host secret st :
  final (_generateToken host secret st) = st.
Proof.
  unfold _generateToken, bind, gets, ret, throw.
  destruct secret; [done |]. by destruct (secrets st) as [[? ?]|].
Qed.

Section Inbound.
Context `{!KBucketLoose KBucket}.

Lemma _onPing_answered host port message st :
  answered host (get_prop message "t") st (final (_onPing host port message st)).
Proof. unfold _onPing, bind, gets. apply _send_answered. intros ? Hb; exact Hb. Qed.

Lemma final_then_lift {A} (m : M unit) (r : jserror + A) st :
  final ((m ;; _ <- lift r ;; ret tt)%js st) = final (m st).
Proof.
  unfold bind. destruct (m st) as [[] st'|e st']; [| done]. by destruct r.
Qed.

Lemma _onFindNode_answered host port message st :
  answered host (get_prop message "t") st (final (_onFindNode host port message st)).
Proof.
  unfold _onFindNode. destruct (negb (truthy _)); [apply _sendError_answered |].
  unfold bind at 1, gets at 1. destruct (nodes st) as [table|]; [| by left].
  unfold bind at 1, lift at 1.
  destruct (nodes_get _ table) as [e|found]; [by left |]. cbn [ret].
  unfold bind at 1.
  assert (Hc : forall m : M (list contact),
             (exists e, m st = Throw e st) \/ (exists l, m st = Ok l st) ->
             answered host (get_prop message "t") st
               (final
                  match m st with
                  | Ok contacts st' =>
                      (nodes_ <- lift (convertToNodeInfo contacts) ;;
                       nid <- gets nodeId ;;
                       _send host (JNum (Num port))
                         (response message [("id", JBuf nid); ("nodes", JBuf nodes_)]) ;;
                       _ <- lift (js_String
                                    (idToHexString
                                       (js_and (get_prop message "a")
                                          (get_prop (get_prop message "a") "target")))) ;;
                       ret tt)%js
                        st'
                  | Throw e st' => Throw e st'
                  end)).
  { intros m [[e ->]|[l ->]]; [by left |].
    unfold bind at 1, lift at 1.
    destruct (convertToNodeInfo l) as [e|nodes_]; [by left |]. cbn [ret].
    unfold bind at 1, gets at 1. rewrite final_then_lift.
    apply _send_answered. intros ? Hb; exact Hb. }
  apply Hc. destruct found as [contact|]; [right; by eexists |].
  unfold lift. destruct (nodes_closest _ K table); [left | right]; by eexists.
Qed.

Lemma _onGetPeers_answered host port message st :
  answered host (get_prop message "t") st (final (_onGetPeers host port message st)).
Proof.
  unfold _onGetPeers. destruct (negb (truthy _)); [apply _sendError_answered |].
  unfold bind at 1, gets at 1. unfold bind at 1.
  pose proof (_generateToken_final host None st) as Hg.
  destruct (_generateToken host None st) as [token st'|e st']; cbn in Hg; subst st';
    [| by left].
  unfold bind at 1, gets at 1. destruct (peers st) as [store|]; [| by left].
  unfold bind at 1, lift at 1.
  destruct (js_String _) as [e|key]; [by left |]. cbn [ret].
  destruct (store !! key) as [stored|].
  - apply _send_answered. intros ? Hb; exact Hb.
  - unfold bind at 1, gets at 1. destruct (nodes st) as [table|]; [| by left].
    unfold bind at 1, lift at 1.
    destruct (nodes_closest _ K table) as [e|contacts]; [by left |]. cbn [ret].
    unfold bind at 1, lift at 1.
    destruct (convertToNodeInfo contacts) as [e|nodes_]; [by left |]. cbn [ret].
    apply _send_answered. intros ? Hb; exact Hb.
Qed.

Lemma _onAnnouncePeer_answered host port message st :
  answered host (get_prop message "t") st
    (final (_onAnnouncePeer host port message st)).
Proof.
  unfold _onAnnouncePeer. destruct (negb (truthy _)); [apply _sendError_answered |].
  unfold bind at 1.
  pose proof (_isValidToken_state
                (js_and (get_prop message "a")
                        (get_prop (get_prop message "a") "token")) host st) as Hst.
  destruct (_isValidToken _ host st) as [valid st'|e st']; cbn in Hst; subst st';
    [| by left].
  destruct valid; cbn [negb]; [| apply _sendError_answered].
  destruct (get_prop message "a"); try (by left);
    unfold bind, gets; apply _send_answered; intros ? Hb; exact Hb.
Qed.

(** X6.  Whatever a query holds, handling it changes nothing in the node:
    the routing table, the peer store, the secrets and the transactions
    stay as they are.  At most one datagram is sent; it goes to the host
    the query came from and carries the transaction id of the query when
    that is a Buffer. *)
Theorem _onQuery_answered host port message st :
  answered host (get_prop message "t") st (final (_onQuery host port message st)).
Proof.
  unfold _onQuery, bind at 1, lift at 1.
  destruct (toString _) as [e|query]; [by left |]. cbn [ret].
  repeat match goal with |- context [if ?c then _ else _] => destruct c end.
  - apply _onPing_answered.
  - apply _onFindNode_answered.
  - apply _onGetPeers_answered.
  - apply _onAnnouncePeer_answered.
  - apply _sendError_answered.
Qed.

(** ** [get_peers] *)

Lemma info_hash_arg message (h : bytes) :
  get_prop (get_prop message "a") "info_hash" = JBuf h ->
  js_and (get_prop message "a") (get_prop (get_prop message "a") "info_hash") = JBuf h.
Proof. intros Hh. by destruct (get_prop message "a"). Qed.

Lemma truthy_hex (h : bytes) : h <> [] -> truthy (JStr (hex h)) = true.
Proof. by destruct h. Qed.

(** A [get_peers] query for an info-hash under which the store has an
    entry. *)
Lemma _onGetPeers_stored host port message st (h : bytes) s0 s1 store stored :
  get_prop (get_prop message "a") "info_hash" = JBuf h ->
  h <> [] ->
  secrets st = Some (s0, s1) ->
  peers st = Some store ->
  store !! hex h = Some stored ->
  _onGetPeers host port message st =
    _send host (JNum (Num port))
      (response message
         [("id", JBuf (nodeId st));
          ("token", JBuf (sha1 (list_byte_of_string host ++ s0)%list));
          ("values", JArr (map JBuf stored))]) st.
Proof.
  intros Hh Hne Hs Hp Hst. unfold _onGetPeers.
  rewrite (info_hash_arg _ _ Hh). cbn [idToHexString].
  rewrite truthy_hex by done. cbn [negb].
  unfold bind at 1, gets at 1. unfold bind at 1.
  rewrite (_generateToken_current host st s0 s1 Hs).
  unfold bind at 1, gets at 1. rewrite Hp.
  unfold bind at 1, lift at 1. cbn [js_String ret]. by rewrite Hst.
Qed.

Lemma _onGetPeers_final host port message st s0 s1 :
  secrets st = Some (s0, s1) ->
  final (_onGetPeers host port message st) = st \/
  (exists m,
     final (_onGetPeers host port message st) =
       set_trace (trace st ++ [SocketSend m (JNum (Num port)) host]) st /\
     get_prop m "y" = JStr MESSAGE_TYPE.ERROR) \/
  (exists r,
     final (_onGetPeers host port message st) =
       set_trace
         (trace st ++
          [SocketSend
             (response message
                ([("id", JBuf (nodeId st));
                  ("token", JBuf (sha1 (list_byte_of_string host ++ s0)%list))] ++ r))
             (JNum (Num port)) host]) st).
Proof.
  intros Hs. pattern (final (_onGetPeers host port message st)).
  match goal with |- ?F _ => set (P := F) end.
  assert (Hstay : P st) by (by left).
  unfold _onGetPeers. destruct (negb (truthy _)).
  - destruct (_sendError_final host (JNum (Num port)) (get_prop message "t")
                ERROR_TYPE.PROTOCOL
                "`get_peers` missing required `a.info_hash` field" st)
      as [->|(m & -> & Hy & _)]; [done |].
    right. left. by exists m.
  - unfold bind at 1, gets at 1. unfold bind at 1.
    rewrite (_generateToken_current host st s0 s1 Hs).
    unfold bind at 1, gets at 1. destruct (peers st) as [store|]; [| done].
    unfold bind at 1, lift at 1.
    destruct (js_String _) as [e|key]; [done |]. cbn [ret].
    destruct (store !! key) as [stored|].
    + match goal with
      | |- context [_send ?h ?p ?m ?s] =>
          destruct (_send_final h p m s) as [->|[-> _]]; [done |]
      end.
      right. right. by eexists [_].
    + unfold bind at 1, gets at 1. destruct (nodes st) as [table|]; [| done].
      unfold bind at 1, lift at 1.
      destruct (nodes_closest _ K table) as [e|contacts]; [done |]. cbn [ret].
      unfold bind at 1, lift at 1.
      destruct (convertToNodeInfo contacts) as [e|nodes_]; [done |]. cbn [ret].
      match goal with
      | |- context [_send ?h ?p ?m ?s] =>
          destruct (_send_final h p m s) as [->|[-> _]]; [done |]
      end.
      right. right. by eexists [_].
Qed.

(** X7.  The token that the response to a [get_peers] query carries
    verifies for the host of the query, at once and still after one
    rotation of the secrets: it is the token that an [announce_peer]
    query of that host has to present. *)
Theorem get_peers_token_accepted host port message st s0 s1 reply p h a b :
  secrets st = Some (s0, s1) ->
  let st1 := final (_onGetPeers host port message st) in
  trace st1 = (trace st ++ [SocketSend reply p h])%list ->
  get_prop reply "y" = JStr MESSAGE_TYPE.RESPONSE ->
  exists token,
    get_prop (get_prop reply "r") "token" = JBuf token /\
    _isValidToken (JBuf token) host st1 = Ok true st1 /\
    let st2 := final (_rotateSecrets a b st1) in
    _isValidToken (JBuf token) host st2 = Ok true st2.
Proof.
  intros Hs st1 Htr Hy. subst st1.
  destruct (_onGetPeers_final host port message st s0 s1 Hs)
    as [Heq|[(m & Heq & Hm)|(r & Heq)]]; rewrite Heq in *; clear Heq.
  - apply (f_equal length) in Htr. rewrite length_app in Htr. cbn in Htr. lia.
  - cbn [trace set_trace] in Htr. apply app_inv_head in Htr.
    injection Htr as -> _ _. rewrite Hm in Hy. discriminate Hy.
  - cbn [trace set_trace] in Htr. apply app_inv_head in Htr.
    injection Htr as <- _ _.
    exists (sha1 (list_byte_of_string host ++ s0)%list). split_and!; [done | |].
    + rewrite (_isValidToken_eq _ host (set_trace _ st) s0 s1 Hs).
      by rewrite bufferEqual_refl.
    + rewrite (_rotateSecrets_eq a b (set_trace _ st) s0 s1 Hs). cbn [final].
      rewrite (_isValidToken_eq _ host (set_secrets (Some (a, s0)) _) a s0 eq_refl).
      by rewrite bufferEqual_refl, orb_true_r.
Qed.

(** X8.  An endpoint stored with [addPeer] is among the [values] of the
    response to a [get_peers] query for its info-hash. *)
Theorem addPeer_then_get_peers addr (h c : bytes) store s0 s1 host port message st :
  peers st = Some store ->
  string2compact addr = inr c ->
  h <> [] ->
  secrets st = Some (s0, s1) ->
  get_prop (get_prop message "a") "info_hash" = JBuf h ->
  let st' := final (addPeer addr (IdBuffer h) st) in
  exists stored,
    c ∈ stored /\
    _onGetPeers host port message st' =
      _send host (JNum (Num port))
        (response message
           [("id", JBuf (nodeId st));
            ("token", JBuf (sha1 (list_byte_of_string host ++ s0)%list));
            ("values", JArr (map JBuf stored))]) st'.
Proof.
  intros Hp Hc Hne Hs Hh st'. subst st'.
  rewrite (addPeer_accepted addr h c store st Hp Hc). cbn [final].
  eexists. split;
    [| eapply (_onGetPeers_stored host port message
                (set_trace _ (set_peers _ st)) h s0 s1);
       [exact Hh | exact Hne | exact Hs | reflexivity | apply lookup_insert_eq]].
  destruct (decide (c ∈ default [] (store !! hex h))) as [Hin|Hin]; [done |].
  apply elem_of_app. right. by apply list_elem_of_singleton.
Qed.

(** X9.  [addPeer] on an address that [string2compact] rejects raises
    the exception of the package, but has by then created the entry of
    an info-hash that had none: a [get_peers] query for that info-hash
    is from then on answered with an empty list of [values], not with
    the closest nodes. *)
Theorem addPeer_rejected_leaves_entry addr (h : bytes) e store s0 s1 host port
    message st :
  peers st = Some store ->
  store !! hex h = None ->
  string2compact addr = inl e ->
  h <> [] ->
  secrets st = Some (s0, s1) ->
  get_prop (get_prop message "a") "info_hash" = JBuf h ->
  exists st',
    addPeer addr (IdBuffer h) st = Throw e st' /\
    _onGetPeers host port message st' =
      _send host (JNum (Num port))
        (response message
           [("id", JBuf (nodeId st));
            ("token", JBuf (sha1 (list_byte_of_string host ++ s0)%list));
            ("values", JArr [])]) st'.
Proof.
  intros Hp Hst Hc Hne Hs Hh. eexists. split; [by apply addPeer_rejected |].
  eapply (_onGetPeers_stored host port message (set_peers _ st) h s0 s1 _ []);
    [exact Hh | exact Hne | exact Hs | reflexivity | apply lookup_insert_eq].
Qed.

(** ** Queries that cannot be served *)

(** X10.  A query whose verb is none of the four is answered with the
    error 204 and the verb; a [find_node] query without [a.target], and
    a [get_peers] or [announce_peer] query without [a.info_hash], is
    answered with the protocol error 203.  In each case this is all the
    handler does. *)
Theorem malformed_queries host port message query st :
  toString (get_prop message "q") = inr query ->
  let a := get_prop message "a" in
  let reject code text :=
    _sendError host (JNum (Num port)) (get_prop message "t") code text st in
  (query ∉ ["ping"; "find_node"; "get_peers"; "announce_peer"] ->
   _onQuery host port message st =
     reject ERROR_TYPE.METHOD_UNKNOWN ("unexpected query type " ++ query)) /\
  (query = "find_node" ->
   truthy (js_and a (get_prop a "target")) = false ->
   _onQuery host port message st =
     reject ERROR_TYPE.PROTOCOL "`find_node` missing required `a.target` field") /\
  (query = "get_peers" ->
   truthy (idToHexString (js_and a (get_prop a "info_hash"))) = false ->
   _onQuery host port message st =
     reject ERROR_TYPE.PROTOCOL "`get_peers` missing required `a.info_hash` field") /\
  (query = "announce_peer" ->
   truthy (idToHexString (js_and a (get_prop a "info_hash"))) = false ->
   _onQuery host port message st =
     reject ERROR_TYPE.PROTOCOL
       "`announce_peer` missing required `a.info_hash` field").
Proof.
  intros Hq a reject. unfold _onQuery, bind at 1, lift at 1. rewrite Hq. cbn [ret].
  split_and!.
  - intros Hnot.
    assert (Hne : forall verb, verb ∈ ["ping"; "find_node"; "get_peers"; "announce_peer"]
                    -> (query =? verb) = false).
    { intros verb Hin. apply String.eqb_neq. by intros ->. }
    rewrite !Hne by set_solver. done.
  - intros -> Ht. cbn. unfold _onFindNode. fold a. by rewrite Ht.
  - intros -> Ht. cbn. unfold _onGetPeers. fold a. by rewrite Ht.
  - intros -> Ht. cbn. unfold _onAnnouncePeer. fold a. by rewrite Ht.
Qed.

(** ** A ping, from the datagram to the answer *)

(** X11.  A datagram from a port in range that decodes to a [ping] query
    with a transaction id is answered with
    [{ t, y: 'r', r: { id: nodeId } }], sent to where the datagram came
    from, and changes nothing else in the node.  When the query has no
    [t], or one that cannot be encoded, the handler raises the exception
    of [bncode.encode], and nothing is sent. *)
Theorem ping_answered host port message st :
  get_prop message "y" = JBuf (list_byte_of_string "q") ->
  get_prop message "q" = JBuf (list_byte_of_string "ping") ->
  (0 < port < 65535)%Z ->
  (encodable (get_prop message "t") = true ->
   _onData (inr message) host port st = Ok tt (sent (ack message st) port host st)) /\
  (encodable (get_prop message "t") = false ->
   exists e, _onData (inr message) host port st = Throw e st).
Proof.
  intros Hy Hq [Hlo Hhi].
  assert (Hdata : _onData (inr message) host port st =
                    _send host (JNum (Num port)) (ack message st) st).
  { unfold _onData.
    assert (Ht : truthy message = true).
    { destruct message as [|[[| |]|]|[|]| | |]; try done; cbn in Hy; discriminate. }
    rewrite Ht. cbn [negb]. rewrite Hy. unfold bind at 1. cbn.
    unfold _onQuery. rewrite Hq. unfold bind at 1. by cbn. }
  rewrite Hdata, _send_number.
  apply Z.ltb_lt in Hlo, Hhi. rewrite Hlo, Hhi. cbn [andb].
  unfold bncode_encode. rewrite encodable_ack. split; intros ->; [done | by eexists].
Qed.
End Inbound.

(** ** Transactions, from the query to its resolution *)

Lemma _getTransactionId_eq addr fn st :
  _getTransactionId addr fn st = Ok (next_id addr st) (registered addr fn st).
Proof. reflexivity. Qed.

Lemma registered_pending addr fn st :
  pending_transaction (addr, next_id addr st) fn (registered addr fn st).
Proof.
  unfold pending_transaction, registered, next_id. cbn. split_and!.
  - rewrite lookup_insert_eq. cbn. by rewrite lookup_insert_eq.
  - by rewrite lookup_insert_eq.
  - set_solver.
Qed.

Lemma pending_set_trace key fn tr st :
  pending_transaction key fn st -> pending_transaction key fn (set_trace tr st).
Proof. done. Qed.

Lemma pending_slot key fn st :
  pending_transaction key fn st ->
  exists reqs,
    transactions st !! key.1 = Some reqs /\
    slots reqs !! key.2 = Some (Some (Transaction key key)).
Proof.
  intros (Hslot & _ & _).
  destruct (transactions st !! key.1) as [reqs|]; [| done]. by exists reqs.
Qed.

(** The closure [onResponse] of a pending transaction. *)
Lemma _getTransactionId_onResponse_pending key fn err data st :
  pending_transaction key fn st ->
  _getTransactionId_onResponse key err data st =
    run_resolver fn err data (settled key fn err data st).
Proof.
  intros Hp. destruct (pending_slot _ _ _ Hp) as (reqs & Hr & Hslot).
  destruct Hp as (_ & Ho & _).
  unfold _getTransactionId_onResponse, bind at 1, gets at 1.
  rewrite Hr. cbn [mbind option_bind]. rewrite Hslot. cbn [timeout].
  unfold bind at 1, clearTimeout at 1, modify at 1.
  unfold bind at 1, clear_slot at 1, modify at 1.
  unfold once_call, bind at 1, gets at 1. cbn [onces set_transactions set_timers].
  rewrite Ho. reflexivity.
Qed.

(** The timer of a transaction whose registered function has not been
    called. *)
Lemma fire_timeout_pending key fn st :
  onces st !! key = Some (OnceEnv false fn) ->
  fire_timeout key st =
    run_resolver fn (Some (Error "query timed out")) JUndefined
      (settled key fn (Some (Error "query timed out")) JUndefined st).
Proof.
  intros Ho. unfold fire_timeout, bind at 1, clearTimeout at 1, modify at 1.
  unfold _getTransactionId_onTimeout, bind at 1, clear_slot at 1, modify at 1.
  unfold once_call, bind at 1, gets at 1. cbn [onces set_transactions set_timers].
  rewrite Ho. reflexivity.
Qed.

Lemma readUInt16BE0_inv (t : bytes) (tid : N) :
  readUInt16BE0 t = inr tid ->
  exists b0 b1 rest, t = b0 :: b1 :: rest /\ be_bytes_to_N [b0; b1] = tid.
Proof.
  destruct t as [|b0 [|b1 rest]]; try discriminate. intros [= <-]. by eexists _, _, _.
Qed.

(** Once settled, a transaction is matched by no message. *)
Lemma settled_no_match host port message (t : bytes) tid fn err data st :
  get_prop message "t" = JBuf t ->
  readUInt16BE0 t = inr tid ->
  matching_transaction host port message
    (settled (host ++ ":" ++ Z_to_string port, tid) fn err data st) = None.
Proof.
  intros Ht (b0 & b1 & rest & -> & Hn)%readUInt16BE0_inv.
  unfold matching_transaction, settled. rewrite Ht, Hn.
  cbn [transactions set_trace set_onces set_transactions fst snd].
  rewrite lookup_alter_eq.
  destruct (transactions st !! _) as [reqs|]; [| done]. cbn.
  by rewrite lookup_insert_eq.
Qed.

Lemma resolutions_settled key fn err data st :
  resolutions key (settled key fn err data st) = S (resolutions key st).
Proof.
  unfold resolutions, settled. cbn [trace set_trace].
  rewrite List.filter_app, length_app. destruct key as [addr tid]. cbn.
  rewrite bool_decide_eq_true_2 by done. cbn. lia.
Qed.

(** A message that carries the id of a pending transaction of its
    sender. *)
Lemma _onResponseOrError_pending host port type message (t : bytes) tid fn err st :
  pending_transaction (host ++ ":" ++ Z_to_string port, tid) fn st ->
  get_prop message "t" = JBuf t ->
  readUInt16BE0 t = inr tid ->
  reply_error type message = inr err ->
  _onResponseOrError host port type message st =
    run_resolver fn err (get_prop message "r")
      (settled (host ++ ":" ++ Z_to_string port, tid) fn err (get_prop message "r") st).
Proof.
  intros Hp Ht Hread Herr.
  destruct (pending_slot _ _ _ Hp) as (reqs & Hr & Hslot).
  unfold _onResponseOrError. rewrite Ht.
  unfold bind at 1. unfold bind at 1, lift at 1. rewrite Hread. cbn [ret].
  unfold bind at 1, gets at 1. cbn [fst snd] in Hr, Hslot.
  rewrite Hr. cbn [mbind option_bind]. rewrite Hslot. cbn [mjoin option_join].
  unfold reply_error in Herr. unfold bind at 1.
  destruct (type =? MESSAGE_TYPE.ERROR).
  - unfold bind at 1, lift at 1.
    destruct (error_text _) as [e|text]; [discriminate Herr |].
    injection Herr as <-. cbn [ret cb].
    by apply _getTransactionId_onResponse_pending.
  - injection Herr as <-. cbn [ret cb].
    by apply _getTransactionId_onResponse_pending.
Qed.

(** An error message whose [e] has no text: [join] throws before the
    transaction is looked at. *)
Lemma _onResponseOrError_no_text host port type message (t : bytes) tid e st :
  get_prop message "t" = JBuf t ->
  readUInt16BE0 t = inr tid ->
  reply_error type message = inl e ->
  _onResponseOrError host port type message st = Throw e st.
Proof.
  intros Ht Hread Herr. unfold _onResponseOrError. rewrite Ht.
  unfold bind at 1. unfold bind at 1, lift at 1. rewrite Hread. cbn [ret].
  unfold bind at 1, gets at 1. unfold reply_error in Herr. unfold bind at 1.
  destruct (type =? MESSAGE_TYPE.ERROR); [| discriminate Herr].
  unfold bind at 1, lift at 1.
  destruct (error_text _) as [e'|text]; [| discriminate Herr].
  by injection Herr as ->.
Qed.

(** X12.  A response, or an error whose [e] has a text, that carries the
    id of a pending transaction of its sender clears the timer of the
    transaction, empties its slot and calls the registered function,
    once, with the error (if the message is one) and the field [r];
    afterwards the same message matches nothing.  An error whose [e]
    has no text (an element is a dictionary with an entry [toString])
    raises the exception of [join] instead, and the transaction stays
    as it is. *)
Theorem response_settles host port type message (t : bytes) tid fn st :
  let key := (host ++ ":" ++ Z_to_string port, tid) in
  pending_transaction key fn st ->
  get_prop message "t" = JBuf t ->
  readUInt16BE0 t = inr tid ->
  (forall err,
     reply_error type message = inr err ->
     let st' := settled key fn err (get_prop message "r") st in
     _onResponseOrError host port type message st =
       run_resolver fn err (get_prop message "r") st' /\
     (key ∉ timers st') /\
     matching_transaction host port message st' = None /\
     resolutions key st' = S (resolutions key st)) /\
  (forall e,
     reply_error type message = inl e ->
     _onResponseOrError host port type message st = Throw e st).
Proof.
  intros key Hp Ht Hread. split.
  - intros err Herr st'. split_and!.
    + by apply _onResponseOrError_pending with t.
    + subst st'. unfold settled.
      cbn [timers set_trace set_onces set_transactions set_timers].
      intros [_ Hn]%elem_of_difference. apply Hn. by apply elem_of_singleton.
    + by apply settled_no_match with t.
    + apply resolutions_settled.
  - intros e Herr. by apply _onResponseOrError_no_text with t tid.
Qed.

(** X13.  When the timer of a pending transaction fires, the function
    registered by a caller is called with the error "query timed out";
    a response to the query that arrives later finds no transaction and
    is answered with the generic error 201. *)
Theorem timeout_then_late_response host port tid cb st :
  let key := (host ++ ":" ++ Z_to_string port, tid) in
  pending_transaction key (Direct (User cb)) st ->
  exists st',
    fire_timeout key st = Ok tt st' /\
    resolutions key st' = S (resolutions key st) /\
    (forall name, cb = UserFn name ->
       trace st' = (trace st ++
                    [Resolve key.1 tid (Some (Error "query timed out")) JUndefined;
                     Call name (Some (Error "query timed out")) JUndefined])%list) /\
    forall message (t : bytes),
      get_prop message "t" = JBuf t ->
      readUInt16BE0 t = inr tid ->
      _onResponseOrError host port MESSAGE_TYPE.RESPONSE message st' =
        _send host (JNum (Num port))
          (error_reply ERROR_TYPE.GENERIC "unexpected message" (JBuf t)) st'.
Proof.
  intros key (_ & Ho & _).
  rewrite (fire_timeout_pending key _ st Ho). cbn [run_resolver call].
  set (st1 := settled key _ _ _ st).
  assert (Hlate : forall tr message (t : bytes),
             get_prop message "t" = JBuf t ->
             readUInt16BE0 t = inr tid ->
             _onResponseOrError host port MESSAGE_TYPE.RESPONSE message
               (set_trace tr st1) =
               _send host (JNum (Num port))
                 (error_reply ERROR_TYPE.GENERIC "unexpected message" (JBuf t))
                 (set_trace tr st1)).
  { intros tr message t Ht Hread.
    pose proof Hread as (b0 & b1 & rest & Hb & _)%readUInt16BE0_inv.
    assert (Hr : match get_prop message "t" with
                 | JBuf b => (2 <= length b)%nat
                 | _ => True
                 end) by (rewrite Ht, Hb; cbn; lia).
    rewrite (_onResponseOrError_no_match host port _ message (set_trace tr st1) Hr
               (settled_no_match host port message t tid _ _ _ st Ht Hread)).
    cbn [String.eqb Ascii.eqb Bool.eqb MESSAGE_TYPE.RESPONSE MESSAGE_TYPE.ERROR].
    rewrite Ht. reflexivity. }
  destruct cb as [|name]; cbn [call_user].
  - exists st1. split_and!; [done | apply resolutions_settled | done |].
    intros message t. apply (Hlate (trace st1)).
  - eexists. split; [reflexivity |]. split_and!.
    + unfold resolutions. cbn [trace set_trace]. rewrite List.filter_app, length_app.
      cbn [List.filter is_resolve length]. rewrite Nat.add_0_r.
      apply resolutions_settled.
    + intros ? [= <-]. cbn [trace set_trace settled st1]. by rewrite <- app_assoc.
    + intros message t. apply Hlate.
Qed.

(** X14.  [_sendPing] to a port in range registers a pending transaction
    under the next id of the address and sends a [ping] query whose [t]
    is that id on two bytes, as long as the id has 16 bits. *)
Theorem _sendPing_registers host port cb st :
  let addr := host ++ ":" ++ Z_to_string port in
  let tid := next_id addr st in
  (tid <= 65535)%N ->
  (0 < port < 65535)%Z ->
  exists st',
    _sendPing host (Num port) cb st = Ok tt st' /\
    pending_transaction (addr, tid) (Direct cb) st' /\
    trace st' =
      (trace st ++
       [SocketSend (query_message (JBuf (N_to_be_bytes 2 tid)) "ping"
                      [("id", JBuf (nodeId st))])
          (JNum (Num port)) host])%list.
Proof.
  intros addr tid Htid [Hlo Hhi]. unfold _sendPing. cbn [jsnum_to_string]. fold addr.
  unfold bind at 1. rewrite _getTransactionId_eq. fold tid.
  unfold bind at 1, gets at 1. unfold bind at 1, lift at 1.
  cbn [transactionIdToBuffer].
  assert (Hr : ((0 <=? Z.of_N tid) && (Z.of_N tid <=? 65535))%Z = true)
    by (apply andb_true_iff; split; apply Z.leb_le; lia).
  rewrite Hr, N2Z.id. cbn [ret]. rewrite _send_number.
  apply Z.ltb_lt in Hlo, Hhi. rewrite Hlo, Hhi. cbn [andb].
  rewrite bncode_encode_encodable by reflexivity.
  eexists. split; [reflexivity |]. split; [| done].
  apply pending_set_trace, registered_pending.
Qed.

(** X15.  The ids of an address do not wrap around: once the next id
    is beyond 65535, a query to the address registers its transaction
    and arms the timer, and then raises an exception where the id is
    written on two bytes; nothing is sent. *)
Theorem transaction_id_overflow host port cb st :
  let addr := host ++ ":" ++ Z_to_string port in
  let tid := next_id addr st in
  (65535 < tid)%N ->
  exists st',
    _sendPing host (Num port) cb st = Throw (TypeError "value is out of bounds") st' /\
    pending_transaction (addr, tid) (Direct cb) st' /\
    trace st' = trace st.
Proof.
  intros addr tid Htid. unfold _sendPing. cbn [jsnum_to_string]. fold addr.
  unfold bind at 1. rewrite _getTransactionId_eq. fold tid.
  unfold bind at 1, gets at 1. unfold bind at 1, lift at 1.
  cbn [transactionIdToBuffer].
  assert (Hr : ((0 <=? Z.of_N tid) && (Z.of_N tid <=? 65535))%Z = false).
  { apply andb_false_iff. right. apply Z.leb_gt. lia. }
  rewrite Hr. cbn [throw]. eexists. split; [reflexivity |]. split; [| done].
  apply registered_pending.
Qed.

(** X26.  A response without the field [r] to a pending [find_node] or
    [get_peers] query settles the transaction and then raises a
    TypeError where [done] reads [res.nodes]: the callback given to
    [_sendFindNode] or [_sendGetPeers] is not called, neither then nor
    by the timer, which has been cleared. *)
Theorem response_without_r_throws host port message (t : bytes) tid fn cb st :
  let key := (host ++ ":" ++ Z_to_string port, tid) in
  pending_transaction key fn st ->
  fn = FindNodeDone cb \/ (exists infoHash, fn = GetPeersDone infoHash cb) ->
  get_prop message "t" = JBuf t ->
  readUInt16BE0 t = inr tid ->
  get_prop message "r" = JUndefined ->
  let st' := settled key fn None JUndefined st in
  _onResponseOrError host port MESSAGE_TYPE.RESPONSE message st =
    Throw (TypeError "Cannot read property 'nodes' of undefined") st' /\
  trace st' = (trace st ++ [Resolve key.1 tid None JUndefined])%list /\
  (key ∉ timers st').
Proof.
  intros key Hp Hfn Ht Hread Hr st'. split_and!.
  - rewrite (_onResponseOrError_pending host port MESSAGE_TYPE.RESPONSE message
               t tid fn None st Hp Ht Hread) by reflexivity.
    rewrite Hr. by destruct Hfn as [->|[infoHash ->]].
  - done.
  - subst st'. unfold settled.
    cbn [timers set_trace set_onces set_transactions set_timers].
    intros [_ Hn]%elem_of_difference. apply Hn. by apply elem_of_singleton.
Qed.

(** X16.  When a node has been destroyed while the probe of a lookup was
    in flight, the timer of the probe still fires, and the lookup, which
    then asks the routing table that [destroy] has set to [null] for the
    closest contacts, raises a TypeError. *)
Theorem timeout_after_destroy key fn l cb st :
  onces st !! key = Some (OnceEnv false fn) ->
  fn = FindNodeDone (LookupOnResponse l) \/
  (exists infoHash, fn = GetPeersDone infoHash (LookupOnResponse l)) ->
  let st' := final (destroy cb st) in
  key ∈ timers st -> key ∈ timers st' /\
  exists st'',
    fire_timeout key st' =
      Throw (TypeError "Cannot call method 'closest' of null") st''.
Proof.
  intros Ho Hfn st' Hin.
  assert (Hst' : onces st' = onces st /\ timers st' = timers st /\ nodes st' = None)
    by (by destruct cb).
  destruct Hst' as (Ho' & Ht' & Hn'). split; [by rewrite Ht' |].
  rewrite (fire_timeout_pending key fn st') by (by rewrite Ho').
  set (st1 := settled key _ _ _ st').
  assert (Hn1 : forall f, nodes (set_lookups f st1) = None) by (intros f; exact Hn').
  assert (Hl : exists st'', lookup_onResponse l st1 =
                 Throw (TypeError "Cannot call method 'closest' of null") st'').
  { unfold lookup_onResponse, bind at 1, update_lookup at 1, modify at 1.
    unfold bind at 1, gets at 1. rewrite Hn1. by eexists. }
  destruct Hfn as [->|[infoHash ->]]; exact Hl.
Qed.

(** ** Starting a lookup *)

Lemma alter_last {A} (f : A -> A) (l : list A) (x : A) :
  alter f (length l) (l ++ [x])%list = (l ++ [f x])%list.
Proof.
  induction l as [|y l IH]; [done |]. cbn [length app]. by rewrite <- IH.
Qed.

Lemma forEach_lookup_query_lookups l addrs :
  forall st st',
    forEach (lookup_query l) addrs st = Ok tt st' ->
    lookups st' =
      fold_left (fun ls addr => alter (mark_queried addr) l (alter (add_pending 1) l ls))
                addrs (lookups st).
Proof.
  induction addrs as [|addr rest IH]; intros st st' Hrun.
  - by injection Hrun as <-.
  - cbn [forEach fold_left] in *. unfold bind in Hrun.
    pose proof (lookup_query_lookups l addr st) as Hq.
    destruct (lookup_query l addr st) as [[] st1|e st1]; [| discriminate Hrun].
    cbn [final] in Hq. rewrite <- Hq. by apply IH.
Qed.

Lemma fold_left_probes l (ls : list lookup_env) addrs :
  l = length ls ->
  forall env,
    fold_left (fun ls addr => alter (mark_queried addr) l (alter (add_pending 1) l ls))
              addrs (ls ++ [env])%list =
      (ls ++ [LookupEnv (lookup_id env) (findNode env)
                (list_to_set addrs ∪ queried env)
                (pending env + Z.of_nat (length addrs)) (lookup_cb env)])%list.
Proof.
  intros ->. induction addrs as [|addr rest IH]; intros env.
  - cbn [fold_left length]. destruct env as [i f q p c]. cbn.
    do 3 f_equal; [by rewrite (left_id_L ∅ (∪)) | lia].
  - cbn [fold_left]. rewrite !alter_last, IH. cbn.
    do 3 f_equal; [| lia].
    rewrite (comm_L (∪) {[addr]} (list_to_set rest)).
    by rewrite (assoc_L (∪)).
Qed.

(** X17.  [lookup] with seed addresses probes every one of them at
    once: when it returns, each seed is marked as queried and the
    number of pending probes is the number of seeds, which
    [MAX_CONCURRENCY] does not bound. *)
Theorem lookup_probes_every_seed id_ (b : bytes) f addrs cb st st' :
  _closed st = false ->
  idToBuffer id_ = inr b ->
  lookup id_ (LookupOpts f (Some addrs)) cb st = Ok tt st' ->
  lookups st' =
    (lookups st ++
     [LookupEnv b f (list_to_set addrs) (Z.of_nat (length addrs)) cb])%list.
Proof.
  intros Hc Hid. unfold lookup, bind at 1, gets at 1. rewrite Hc.
  unfold bind at 1, lift at 1. rewrite Hid. cbn [ret].
  unfold bind at 1, gets at 1. unfold bind at 1, modify at 1.
  cbn [opts_addrs opts_findNode]. intros Hrun.
  apply forEach_lookup_query_lookups in Hrun. rewrite Hrun. cbn [lookups set_lookups].
  rewrite fold_left_probes by done. cbn. do 3 f_equal.
  apply (right_id_L ∅ (∪)).
Qed.

(** [onResponse] of a lookup that has no candidate left. *)
Lemma lookup_onResponse_idle l env table st :
  lookups st !! l = Some env ->
  nodes st = Some table ->
  unqueried_closest env table = [] ->
  lookup_onResponse l st =
    (if (pending env - 1 =? 0)%Z then call_user (lookup_cb env) None JUndefined
     else ret tt)
      (set_lookups (alter (add_pending (-1)) l (lookups st)) st).
Proof.
  intros Hl Hn Hk. unfold lookup_onResponse, update_lookup, lookup_env_of.
  rewrite bind_modify, bind_gets. cbn [nodes set_lookups]. rewrite Hn.
  rewrite bind_gets. cbn [lookups set_lookups].
  rewrite list_lookup_alter_eq, Hl.
  cbn [fmap option_fmap option_map default from_option id].
  cbn [lookup_id queried add_pending].
  unfold unqueried_closest in Hk. rewrite Hk. cbn [rev lookup_while].
  rewrite bind_ret, bind_gets. cbn [lookups set_lookups].
  rewrite list_lookup_alter_eq, Hl. cbn.
  replace (pending env + -1)%Z with (pending env - 1)%Z by lia.
  by rewrite andb_true_r.
Qed.

(** X18.  [lookup] without seeds, on a node whose routing table returns
    no contact for the target, has nothing to probe: it calls the
    callback with [null] before it returns, and sends nothing. *)
Theorem lookup_without_candidates id_ (b : bytes) f name table st :
  _closed st = false ->
  idToBuffer id_ = inr b ->
  nodes st = Some table ->
  kb_closest b K table = [] ->
  lookup id_ (LookupOpts f None) (UserFn name) st =
    Ok tt (set_trace (trace st ++ [Call name None JUndefined])
             (set_lookups (lookups st ++ [LookupEnv b f ∅ 0 (UserFn name)]) st)).
Proof.
  intros Hc Hid Hn Hk. unfold lookup. rewrite bind_gets, Hc.
  unfold bind at 1, lift at 1. rewrite Hid. cbn [ret].
  rewrite bind_gets, bind_modify. cbn [opts_addrs opts_findNode].
  unfold update_lookup at 1. rewrite bind_modify. cbn [lookups set_lookups].
  rewrite alter_last.
  rewrite (lookup_onResponse_idle (length (lookups st))
             (add_pending 1 (LookupEnv b f ∅ 0 (UserFn name))) table).
  - cbn [lookups set_lookups]. rewrite alter_last. reflexivity.
  - cbn [lookups set_lookups]. by apply list_lookup_middle.
  - exact Hn.
  - unfold unqueried_closest. cbn [lookup_id add_pending]. by rewrite Hk.
Qed.

(** ** What holds throughout a session *)

#[local] Instance preserved_preorder (P : DHT -> Prop) : PreOrder (preserved P).
Proof.
  split.
  - intros st Hst. exact Hst.
  - intros st1 st2 st3 H12 H23 H1. apply H23, H12, H1.
Qed.

Lemma respects_lookup_while (R : relation DHT) `{!PreOrder R} l stack :
  (forall addr, respects R (lookup_query l addr)) ->
  respects R (lookup_while l stack).
Proof.
  intros Hq. induction stack as [|contact rest IH]; cbn [lookup_while].
  - by apply respects_ret.
  - apply respects_bind; [done | by apply respects_gets |]. intros env.
    destruct (pending env <? MAX_CONCURRENCY)%Z; [| by apply respects_ret].
    apply respects_bind; [done | apply Hq | by intros _].
Qed.

Ltac head_of m :=
  lazymatch m with
  | ?f _ => head_of f
  | _ => m
  end.

(** Goes through a method and the methods it calls, down to the
    assignments; [leaf] proves what is known of a method as a whole, and
    [prim] that an assignment keeps the relation. *)
Ltac crawl leaf prim :=
  repeat first
    [ assumption
    | leaf
    | lazymatch goal with
      | |- respects _ (ret _) => apply respects_ret; tc_solve
      | |- respects _ (throw _) => apply respects_throw; tc_solve
      | |- respects _ (gets _) => apply respects_gets; tc_solve
      | |- respects _ (lift _) => apply respects_lift; tc_solve
      | |- respects _ (forEach _ _) => apply respects_forEach; [tc_solve | intros ?]
      | |- respects _ (some _ _ _) => apply respects_some; [tc_solve | intros ? ?]
      | |- respects _ (lookup_while _ _) =>
          apply respects_lookup_while; [tc_solve | intros ?]
      | |- respects _ (modify _) => apply respects_modify; [tc_solve | intros ?; prim]
      | |- respects _ (bind _ _) => apply respects_bind; [tc_solve | | intros ?]
      | |- respects _ (match ?x with _ => _ end) => destruct x
      | |- respects _ (let _ := _ in _) => cbv zeta
      | |- respects _ ?m => let h := head_of m in progress unfold h
      end ].

(** *** Ports *)

Lemma egress_frame st st' : trace st' = trace st -> preserved (egress_ok KBucket) st st'.
Proof. intros Ht Hok message port host. rewrite Ht. apply Hok. Qed.

Lemma egress_log (e : effect) st :
  (forall message port host, e <> SocketSend message port host) ->
  preserved (egress_ok KBucket) st (set_trace (trace st ++ [e]) st).
Proof.
  intros He Hok message port host. cbn [trace set_trace].
  intros [Hin|Hin%list_elem_of_singleton]%elem_of_app; [by apply Hok in Hin |].
  symmetry in Hin. by apply He in Hin.
Qed.

Lemma egress__send host port message :
  respects (preserved (egress_ok KBucket)) (_send host port message).
Proof.
  intros st Hok. destruct (_send_final host port message st) as [->|[-> Hp]]; [done |].
  intros m p h. cbn [trace set_trace].
  intros [Hin|Hin%list_elem_of_singleton]%elem_of_app; [by apply Hok in Hin |].
  by injection Hin as -> -> ->.
Qed.

Ltac egress_prim :=
  first
    [ apply egress_frame; repeat case_match; reflexivity
    | apply egress_log; intros; discriminate ].

Ltac egress_leaf :=
  idtac;
  lazymatch goal with
  | |- respects _ (_send _ _ _) => apply egress__send
  end.

Ltac egress_crawl := crawl ltac:(egress_leaf) ltac:(egress_prim).

Lemma egress_handle ev : respects (preserved (egress_ok KBucket)) (handle ev).
Proof. destruct ev; cbn [handle]; egress_crawl. Qed.

(** *** The peer store *)

Lemma nodup_frame st st' :
  peers st' = peers st -> preserved (peer_sets_ok KBucket) st st'.
Proof. intros Hp Hok store key stored. rewrite Hp. apply Hok. Qed.

Lemma nodup_insert_nil st store key :
  peer_sets_ok KBucket st ->
  peers st = Some store ->
  forall k stored,
    match store !! key with
    | Some _ => store
    | None => <[key := []]> store
    end !! k = Some stored ->
    NoDup stored.
Proof.
  intros Hok Hp k stored. destruct (store !! key) eqn:E; [by apply Hok |].
  destruct (decide (k = key)) as [->|Hne].
  - rewrite lookup_insert_eq. intros [= <-]. constructor.
  - rewrite lookup_insert_ne by done. by apply Hok.
Qed.

Lemma nodup_addPeer addr infoHash :
  respects (preserved (peer_sets_ok KBucket)) (addPeer addr infoHash).
Proof.
  intros st Hok. unfold addPeer, bind at 1, gets at 1.
  destruct (peers st) as [store|] eqn:Hp; [| done].
  set (key := js_ToString (idToHexString (js_of_id infoHash))).
  destruct (bool_decide (store !! key = None) && inherited key).
  { unfold bind at 1, lift at 1. destruct (string2compact addr); exact Hok. }
  set (store1 := match store !! key with
                 | Some _ => store
                 | None => <[key := []]> store
                 end).
  pose proof (nodup_insert_nil st store key Hok Hp) as Hok1. fold store1 in Hok1.
  unfold bind at 1, modify at 1. unfold bind at 1, lift at 1.
  destruct (string2compact addr) as [e|c].
  { intros s k stored [= <-]. apply Hok1. }
  cbn [ret]. rewrite existsb_bufferEqual. unfold bind, modify, log, ret.
  case_bool_decide as Hin; cbn [final].
  - intros s k stored [= <-]. apply Hok1.
  - intros s k stored [= <-]. destruct (decide (k = key)) as [->|Hne].
    + rewrite lookup_insert_eq. intros [= <-].
      apply NoDup_app. split_and!.
      * destruct (store1 !! key) as [l|] eqn:E; [by apply (Hok1 key) | constructor].
      * intros x Hx ->%list_elem_of_singleton. by apply Hin.
      * apply NoDup_singleton.
    + rewrite lookup_insert_ne by done. apply Hok1.
Qed.

Lemma nodup_splice1 key start :
  respects (preserved (peer_sets_ok KBucket)) (splice1 key start).
Proof.
  intros st Hok. unfold splice1, modify. cbn [final].
  destruct (peers st) as [store|] eqn:Hp; [| done].
  intros s k stored [= <-]. destruct (decide (k = key)) as [->|Hne].
  - rewrite lookup_alter_eq. destruct (store !! key) as [l|] eqn:E; [| done].
    intros [= <-]. rewrite <- delete_take_drop.
    eapply sublist_NoDup; [by apply (Hok store key) | apply sublist_delete].
  - rewrite lookup_alter_ne by done. by apply Hok.
Qed.

Ltac nodup_leaf :=
  idtac;
  lazymatch goal with
  | |- respects _ (addPeer _ _) => apply nodup_addPeer
  | |- respects _ (splice1 _ _) => apply nodup_splice1
  end.

Ltac nodup_crawl :=
  crawl ltac:(nodup_leaf)
        ltac:(first [ apply nodup_frame; reflexivity
                    | intros _ ? ? ? ?; discriminate ]).

Lemma nodup_handle ev : respects (preserved (peer_sets_ok KBucket)) (handle ev).
Proof. destruct ev; cbn [handle]; nodup_crawl. Qed.

(** *** After [destroy] *)

Lemma shut_frame st st' :
  _closed st' = _closed st -> nodes st' = nodes st -> peers st' = peers st ->
  _addrData st' = _addrData st ->
  preserved (shut KBucket) st st'.
Proof. unfold preserved, shut. by intros -> -> -> ->. Qed.

Lemma shut_addNode addr nodeId_ :
  respects (preserved (shut KBucket)) (addNode addr nodeId_).
Proof.
  intros st Hs. pose proof Hs as (_ & Hn & _).
  unfold addNode, bind, gets, lift, throw, ret.
  destruct (idToBuffer nodeId_); [done |]. by rewrite Hn.
Qed.

Lemma shut_removeNode nodeId_ :
  respects (preserved (shut KBucket)) (removeNode nodeId_).
Proof.
  intros st Hs. pose proof Hs as (_ & Hn & _).
  unfold removeNode, bind, gets. by rewrite Hn.
Qed.

Lemma shut_addPeer addr infoHash :
  respects (preserved (shut KBucket)) (addPeer addr infoHash).
Proof.
  intros st Hs. pose proof Hs as (_ & _ & Hp & _).
  unfold addPeer, bind, gets. by rewrite Hp.
Qed.

Lemma shut_splice1 key start :
  respects (preserved (shut KBucket)) (splice1 key start).
Proof.
  intros st Hs. pose proof Hs as (_ & _ & Hp & _).
  unfold splice1, modify. cbn [final]. by rewrite Hp.
Qed.

Lemma shut__getAddrData addr :
  respects (preserved (shut KBucket)) (_getAddrData addr).
Proof.
  intros st Hs. pose proof Hs as (_ & _ & _ & Ha).
  unfold _getAddrData, bind, gets. by rewrite Ha.
Qed.

Lemma shut_destroy cb st : shut KBucket (final (destroy cb st)).
Proof. by destruct cb. Qed.

Lemma shut_destroy_respects cb : respects (preserved (shut KBucket)) (destroy cb).
Proof. intros st _. apply shut_destroy. Qed.

Ltac shut_leaf :=
  idtac;
  lazymatch goal with
  | |- respects _ (addNode _ _) => apply shut_addNode
  | |- respects _ (removeNode _) => apply shut_removeNode
  | |- respects _ (addPeer _ _) => apply shut_addPeer
  | |- respects _ (splice1 _ _) => apply shut_splice1
  | |- respects _ (_getAddrData _) => apply shut__getAddrData
  | |- respects _ (destroy _) => apply shut_destroy_respects
  end.

Ltac shut_crawl :=
  crawl ltac:(shut_leaf) ltac:(apply shut_frame; reflexivity).

Lemma shut_handle ev : respects (preserved (shut KBucket)) (handle ev).
Proof. destruct ev; cbn [handle]; shut_crawl. Qed.

Section Throughout.
Context `{!KBucketLoose KBucket}.

Lemma session_preserves (P : DHT -> Prop) :
  (forall i, respects (preserved P) (receive i)) ->
  forall inputs st, P st -> P (session inputs st).
Proof.
  intros Hstep inputs. induction inputs as [|i inputs IH]; intros st Hst; [done |].
  cbn [session fold_left]. apply IH. by apply Hstep.
Qed.

Lemma egress_receive i : respects (preserved (egress_ok KBucket)) (receive i).
Proof. destruct i; cbn [receive]; [apply egress_handle | egress_crawl]. Qed.

(** X19.  Whatever happens to a node, by calls of its interface, timers
    and datagrams of any content, every datagram it hands to the socket
    goes to a port [p] with [0 < p < 65535]. *)
Theorem ports_in_range nodeId_ secretA secretB inputs :
  egress_ok KBucket (session inputs (new_DHT nodeId_ secretA secretB)).
Proof.
  apply (session_preserves _ egress_receive).
  intros message port host Hin. by apply elem_of_nil in Hin.
Qed.

Lemma nodup_receive i : respects (preserved (peer_sets_ok KBucket)) (receive i).
Proof. destruct i; cbn [receive]; [apply nodup_handle | nodup_crawl]. Qed.

(** X20.  The peer store is a set: whatever happens to a node, no array
    of the store holds the same endpoint twice. *)
Theorem peer_store_without_duplicates nodeId_ secretA secretB inputs :
  peer_sets_ok KBucket (session inputs (new_DHT nodeId_ secretA secretB)).
Proof.
  apply (session_preserves _ nodup_receive).
  intros store key stored [= <-]. by rewrite lookup_empty.
Qed.

Lemma shut_receive i : respects (preserved (shut KBucket)) (receive i).
Proof. destruct i; cbn [receive]; [apply shut_handle | shut_crawl]. Qed.

(** X21.  [destroy] is final: whatever reaches the node afterwards, it
    stays closed, and its routing table, its peer store and its address
    cache stay released. *)
Theorem destroy_is_final cb inputs st :
  shut KBucket (session inputs (final (destroy cb st))).
Proof. apply (session_preserves _ shut_receive), shut_destroy. Qed.

Lemma registry__onData decoded host port :
  respects (keeps_registry KBucket) (_onData decoded host port).
Proof.
  unfold _onData, _onQuery, _onPing, _onFindNode, _onGetPeers.
  respects_auto; apply registry__onResponseOrError.
Qed.

Lemma registry_receive i : respects (preserved registry_ok) (receive i).
Proof. destruct i; cbn [receive]; [apply registry_handle | apply registry__onData]. Qed.

(** X22.  The ids of an address are fresh: in any session, the id that
    the next transaction of an address gets has not been given to an
    earlier transaction of that address. *)
Theorem transaction_ids_fresh nodeId_ secretA secretB inputs addr :
  let st := session inputs (new_DHT nodeId_ secretA secretB) in
  onces st !! (addr, next_id addr st) = None.
Proof.
  intros st.
  assert (Hok : registry_ok st).
  { apply (session_preserves _ registry_receive), registry_ok_new. }
  destruct (onces st !! (addr, next_id addr st)) eqn:Ho; [| done].
  destruct (ids_below_next st Hok addr (next_id addr st)) as (reqs & Hr & Hlt);
    [by rewrite Ho |].
  unfold next_id in Hlt. rewrite Hr in Hlt. cbn in Hlt. lia.
Qed.
End Throughout.

(** ** Compact encodings, there and back *)

Lemma slice_app_add {A} (a l : list A) (n i k : nat) :
  n = length a -> slice (a ++ l)%list (n + i) (n + k) = slice l i k.
Proof.
  intros Hn. unfold slice. rewrite drop_app_add' by done. f_equal. lia.
Qed.

Lemma record_contact_shift (record tail : bytes) (j : nat) :
  length record = 26%nat ->
  record_contact (record ++ tail)%list (S j) = record_contact tail j.
Proof.
  intros Hlen. unfold record_contact.
  replace (26 * S j)%nat with (26 + 26 * j)%nat by lia.
  rewrite <- !Nat.add_assoc. by rewrite !slice_app_add.
Qed.

Lemma record_contact_0 (id_ compact tail : bytes) :
  length id_ = 20%nat -> length compact = 6%nat ->
  record_contact (id_ ++ compact ++ tail)%list 0 = Contact id_ (endpoint_text compact).
Proof.
  intros Hid Hc. unfold record_contact, slice. cbn [Nat.mul Nat.add Nat.sub].
  rewrite drop_0, take_app_length' by done.
  rewrite drop_app_length' by done. by rewrite take_app_length'.
Qed.

(** X23.  [parseNodeInfo] reads back what [convertToNodeInfo] writes:
    for contacts whose ids have 20 bytes and whose addresses
    [string2compact] turns into the six bytes that print as the address,
    the compact node info has 26 bytes for each contact and parses to
    the same contacts, in the same order. *)
Theorem parseNodeInfo_convertToNodeInfo (contacts : list contact) :
  Forall (fun c =>
            length (contact_id c) = 20%nat /\
            exists r, string2compact (contact_addr c) = inr r /\
                      length r = 6%nat /\ endpoint_text r = contact_addr c)
         contacts ->
  exists nodeInfo,
    convertToNodeInfo contacts = inr nodeInfo /\
    length nodeInfo = (26 * length contacts)%nat /\
    parseNodeInfo (JBuf nodeInfo) = inr contacts.
Proof.
  intros Hgood.
  assert (Hrec : exists nodeInfo,
             convertToNodeInfo contacts = inr nodeInfo /\
             length nodeInfo = (26 * length contacts)%nat /\
             map (record_contact nodeInfo) (seq 0 (length contacts)) = contacts).
  { induction Hgood as [|c rest (Hid & r & Hr & Hlen & Htext) _ IH].
    - by exists [].
    - destruct IH as (tail & Htail & Hlt & Hmap).
      exists (contact_id c ++ r ++ tail)%list. cbn [convertToNodeInfo].
      rewrite Hr, Htail. split_and!; [done | |].
      + rewrite !length_app. cbn [length]. lia.
      + cbn [length seq map]. rewrite record_contact_0 by done.
        rewrite Htext. destruct c as [cid caddr]. cbn [contact_id contact_addr].
        f_equal. rewrite <- seq_shift, map_map, app_assoc.
        rewrite <- Hmap at 2. apply map_ext. intros j.
        apply record_contact_shift. rewrite length_app. cbn in Hid. lia. }
  destruct Hrec as (nodeInfo & Hconv & Hlen & Hmap).
  exists nodeInfo. split_and!; [done | done |].
  unfold parseNodeInfo. f_equal. etransitivity; [| exact Hmap].
  apply (parseNodeInfo_loop_spec nodeInfo (length contacts) 0 (length contacts)
           ltac:(lia) ltac:(lia) 0%nat (length nodeInfo) [] eq_refl).
  lia.
Qed.

Lemma compact2string_invalid (b : bytes) :
  length b <> 6%nat -> length b <> 18%nat -> exists e, compact2string b = inl e.
Proof.
  intros H6 H18. apply Nat.eqb_neq in H18.
  destruct b as [|a [|b1 [|c [|d [|p1 [|p2 [|x rest]]]]]]];
    try (exfalso; by apply H6); try (by eexists).
  unfold compact2string. rewrite H18. by eexists.
Qed.

Lemma map_compact2string_valid (bs : list bytes) :
  Forall (fun b => length b = 6%nat) bs ->
  map_compact2string (map JBuf bs) = Some (map endpoint_text bs).
Proof.
  induction 1 as [|b bs Hb _ IH]; [done |]. cbn [map map_compact2string].
  by rewrite compact2string_6, IH.
Qed.

(** X24.  [parsePeerInfo] is all or nothing: a list of Buffers of six
    bytes gives the endpoint of each, and one element that is no Buffer
    of 6 or 18 bytes empties the result, the endpoints before it
    included; when the list has no text for the debug line (an element
    is a dictionary with an entry [toString]), the exception of that
    line is raised instead. *)
Theorem parsePeerInfo_all_or_nothing (bs : list bytes) (v : jsval)
    (rest : list jsval) :
  Forall (fun b => length b = 6%nat) bs ->
  (forall b, v = JBuf b -> length b <> 6%nat /\ length b <> 18%nat) ->
  let list := JArr (map JBuf bs ++ v :: rest) in
  parsePeerInfo (JArr (map JBuf bs)) = inr (map endpoint_text bs) /\
  (forall text, js_String list = inr text -> parsePeerInfo list = inr []) /\
  (forall e, js_String list = inl e -> parsePeerInfo list = inl e).
Proof.
  intros Hbs Hv list.
  assert (Hnone : map_compact2string (map JBuf bs ++ v :: rest) = None).
  { induction Hbs as [|b bs Hb _ IH]; cbn [map app map_compact2string].
    - destruct v as [| | |b| |]; try done.
      destruct (Hv b eq_refl) as [H6 H18].
      by destruct (compact2string_invalid b H6 H18) as [e ->].
    - rewrite IH. by destruct (compact2string b). }
  subst list. unfold parsePeerInfo. rewrite Hnone. split_and!.
  - by rewrite map_compact2string_valid.
  - intros text Ht. unfold caught. by rewrite Ht.
  - intros e He. unfold caught. by rewrite He.
Qed.

(** ** The address cache *)

Section Cache.
Context `{!KBucketLoose KBucket}.

Lemma cached_frame addr array st st' :
  _addrData st' = _addrData st -> _closed st' = _closed st ->
  preserved (cached KBucket addr array) st st'.
Proof. unfold preserved, cached. by intros -> ->. Qed.

Lemma cached__getAddrData addr array addr' :
  respects (preserved (cached KBucket addr array)) (_getAddrData addr').
Proof.
  intros st Hc. unfold _getAddrData, bind at 1, gets at 1.
  destruct (_addrData st) as [cache|] eqn:Ha; [| exact Hc].
  destruct (cache !! addr') as [found|] eqn:Hf; [exact Hc |].
  unfold bind at 1, lift at 1. destruct (js_ToNumber _) as [e|n]; [exact Hc |].
  cbn [ret]. unfold bind, modify, ret. cbn [final].
  unfold cached in *. cbn [_addrData set_addrData]. rewrite Ha in Hc.
  rewrite lookup_insert_ne; [exact Hc |]. intros ->. congruence.
Qed.

Lemma cached_destroy addr array cb :
  respects (preserved (cached KBucket addr array)) (destroy cb).
Proof. intros st _. by destruct cb. Qed.

Ltac cached_leaf :=
  idtac;
  lazymatch goal with
  | |- respects _ (_getAddrData _) => apply cached__getAddrData
  | |- respects _ (destroy _) => apply cached_destroy
  end.

Ltac cached_crawl :=
  crawl ltac:(cached_leaf) ltac:(apply cached_frame; repeat case_match; reflexivity).

Lemma cached_receive addr array i :
  respects (preserved (cached KBucket addr array)) (receive i).
Proof.
  destruct i as [ev|decoded host port]; [destruct ev |]; cbn [receive handle];
    cached_crawl.
Qed.

End Cache.

(** ** What the responses bring *)

Lemma forEach_addNode (contacts : list contact) :
  forall st table,
    nodes st = Some table ->
    forEach (fun node => addNode (contact_addr node) (IdBuffer (contact_id node)))
            contacts st =
      Ok tt (set_trace
               (trace st ++
                map (fun c => EmitNode (contact_addr c) (contact_id c)) contacts)
               (set_nodes (Some (fold_left (fun t c => kb_add c t) contacts table)) st)).
Proof.
  induction contacts as [|c rest IH]; intros st table Hn.
  - cbn [forEach map fold_left]. rewrite app_nil_r. unfold ret. f_equal.
    destruct st. cbn in *. by rewrite Hn.
  - cbn [forEach map fold_left]. unfold bind at 1.
    unfold addNode at 1, bind at 1, lift at 1. cbn [idToBuffer ret].
    unfold bind at 1, gets at 1. rewrite Hn.
    unfold bind at 1, modify at 1, log, modify.
    erewrite IH by reflexivity.
    cbn. rewrite <- app_assoc. by destruct c.
Qed.

(** X27.  The compact node info of a [find_node] response is parsed,
    and every contact in it is added to the routing table, in order,
    with a [node] event for each, before the caller's callback is
    called with the response in which [nodes] is the array of
    contacts. *)
Theorem find_node_response_ingested cb res (nodeInfo : bytes) table st :
  get_prop res "nodes" = JBuf nodeInfo ->
  nodes st = Some table ->
  exists contacts,
    parseNodeInfo (JBuf nodeInfo) = inr contacts /\
    _sendFindNode_done (User cb) None res st =
      call_user cb None (set_prop res "nodes" (JArr (map js_of_contact contacts)))
        (set_trace
           (trace st ++ map (fun c => EmitNode (contact_addr c) (contact_id c)) contacts)
           (set_nodes (Some (fold_left (fun t c => kb_add c t) contacts table)) st)).
Proof.
  intros Hres Hn. eexists. split; [reflexivity |].
  unfold _sendFindNode_done, ingest_nodes.
  assert (Hm : (member res "nodes" : M jsval) = ret (JBuf nodeInfo)).
  { destruct res; try discriminate Hres. unfold member. by rewrite Hres. }
  rewrite Hm. unfold bind at 1. unfold bind at 1, ret at 1. cbn [truthy].
  unfold bind at 1. unfold bind at 1, lift at 1. cbn [parseNodeInfo ret].
  by rewrite (forEach_addNode _ st table Hn).
Qed.

Lemma forEach_addPeer (h : bytes) (bs : list bytes) :
  (forall b, b ∈ bs -> string2compact (endpoint_text b) = inr b) ->
  forall st store,
    peers st = Some store ->
    exists st' store',
      forEach (fun addr => addPeer addr (IdBuffer h)) (map endpoint_text bs) st
        = Ok tt st' /\
      peers st' = Some store' /\
      nodes st' = nodes st /\
      (forall b, b ∈ bs \/ b ∈ stored_peers h st -> b ∈ stored_peers h st').
Proof.
  induction bs as [|b bs IH]; intros Hc st store Hp.
  - exists st, store. split_and!; try done. by intros b [?%elem_of_nil|?].
  - cbn [map forEach]. unfold bind.
    rewrite (addPeer_accepted (endpoint_text b) h b store st Hp)
      by (apply Hc; by left).
    set (new := if decide (b ∈ default [] (store !! hex h)) then _ else _).
    set (st1 := set_trace _ _).
    destruct (IH (fun x Hx => Hc x (proj2 (elem_of_cons bs x b) (or_intror Hx)))
                st1 (<[hex h := new]> store) eq_refl)
      as (st' & store' & Hrun & Hp' & Hn' & Hall).
    exists st', store'. split_and!; [done | done | done |].
    intros x Hx. apply Hall.
    assert (Hnew : stored_peers h st1 = new).
    { unfold stored_peers, st1. cbn. by rewrite lookup_insert_eq. }
    assert (Hold : stored_peers h st = default [] (store !! hex h)).
    { unfold stored_peers. by rewrite Hp. }
    rewrite Hnew. destruct Hx as [[->|Hx]%elem_of_cons|Hx].
    + right. unfold new.
      destruct (decide (b ∈ default [] (store !! hex h))) as [Hin|Hin]; [exact Hin |].
      apply elem_of_app. right. by apply list_elem_of_singleton.
    + by left.
    + right. rewrite Hold in Hx. unfold new.
      destruct (decide (b ∈ default [] (store !! hex h))) as [Hin|Hin]; [exact Hx |].
      apply elem_of_app. by left.
Qed.

(** X28.  The [values] of a [get_peers] response are stored: when they
    are Buffers of six bytes for addresses that [string2compact] reads
    back, [done] stores each of them under the info-hash of the query,
    keeps what was stored before, and then calls the caller's callback
    without an error. *)
Theorem get_peers_response_stored (h : bytes) name res (bs : list bytes) store st :
  get_prop res "nodes" = JUndefined ->
  get_prop res "values" = JArr (map JBuf bs) ->
  Forall (fun b => length b = 6%nat) bs ->
  (forall b, b ∈ bs -> string2compact (endpoint_text b) = inr b) ->
  peers st = Some store ->
  exists st',
    _sendGetPeers_done h (User (UserFn name)) None res st = Ok tt st' /\
    (forall b, b ∈ bs \/ b ∈ stored_peers h st -> b ∈ stored_peers h st') /\
    last (trace st') =
      Some (Call name None
              (set_prop res "values" (JArr (map JStr (map endpoint_text bs))))).
Proof.
  intros Hnodes Hvalues Hlen Hc Hp.
  unfold _sendGetPeers_done, ingest_nodes.
  assert (Hres : forall field, (member res field : M jsval) = ret (get_prop res field)).
  { intros field. by destruct res. }
  rewrite Hres, Hnodes, bind_assoc_at, bind_ret. cbn [truthy]. rewrite bind_ret.
  rewrite Hres, Hvalues, bind_ret. cbn [truthy].
  unfold parsePeerInfo. rewrite (map_compact2string_valid bs Hlen).
  cbn [lift]. rewrite !bind_assoc_at, bind_ret, !bind_assoc_at.
  destruct (forEach_addPeer h bs Hc st store Hp)
    as (st' & store' & Hrun & _ & _ & Hall).
  unfold bind at 1. rewrite Hrun. rewrite bind_ret. cbn [call call_user].
  unfold log, modify.
  eexists. split; [reflexivity |]. split; [exact Hall |].
  cbn [trace set_trace]. apply last_snoc.
Qed.

(** X29.  The query that [_sendAnnouncePeer] sends always carries
    [implied_port: 1]: a node that handles it with [_onAnnouncePeer]
    takes the UDP source port of the datagram, whatever the argument
    [myPort] was. *)
Theorem announce_sent_with_implied_port host port infoHash myPort token cb st
    message p h :
  trace (final (_sendAnnouncePeer host port infoHash myPort token cb st)) =
    (trace st ++ [SocketSend message p h])%list ->
  get_prop (get_prop message "a") "port" = JNum (Num myPort) /\
  forall source_port,
    announce_port source_port (get_prop message "a") = JNum (Num source_port).
Proof.
  unfold _sendAnnouncePeer, bind at 1, lift at 1.
  assert (Hsame : trace st <> (trace st ++ [SocketSend message p h])%list).
  { intros Heq%(f_equal length). rewrite length_app in Heq. cbn in Heq. lia. }
  destruct (idToBuffer infoHash) as [e|infoHash']; [done |]. cbn [ret].
  unfold bind at 1. rewrite _getTransactionId_eq.
  unfold bind at 1, gets at 1. unfold bind at 1, lift at 1.
  destruct (transactionIdToBuffer _) as [e|t]; [done |]. cbn [ret].
  match goal with
  | |- context [_send ?a ?b ?m ?s] =>
      destruct (_send_final a b m s) as [->|[-> _]]; [done |]
  end.
  cbn [trace set_trace registered set_transactions set_timers set_onces].
  intros Heq%app_inv_head. injection Heq as <- _ _. done.
Qed.

(** ** Listening *)

(** X30.  [listen] with a port binds the socket to it; when the socket
    reports that it listens, the node emits [listening] with that port,
    and every further call of [listen] returns at once and changes
    nothing. *)
Theorem listen_once (p : Z) name st :
  _closed st = false ->
  listening st = false ->
  p <> 0%Z ->
  let st1 := final (listen (Some p) (Some name) st) in
  let st2 := final (_onListening st1) in
  trace st2 =
    (trace st ++ [OnceListening name; SocketBind p; EmitListening (Some p)])%list /\
  port st2 = Some p /\
  forall p' name', listen p' name' st2 = Ok tt st2.
Proof.
  intros Hc Hl Hp st1 st2.
  assert (Hst1 : st1 = set_trace (trace st ++ [OnceListening name; SocketBind p])
                         (set_port (Some p) st)).
  { subst st1. unfold listen. rewrite !bind_gets, Hc, Hl. cbn [orb].
    apply Z.eqb_neq in Hp. rewrite Hp.
    cbn. by rewrite <- app_assoc. }
  subst st2. rewrite Hst1. split_and!.
  - cbn. by rewrite <- !app_assoc.
  - done.
  - intros p' name'. unfold listen. rewrite !bind_gets. cbn. by rewrite orb_true_r.
Qed.

End Properties.

(** * The properties on the reference node *)

Section Examples.
Import Reference.
Local Open Scope string_scope.

(** The node of [Reference] issues a token to 9.9.9.9 and rotates twice. *)
Lemma token_validity_witness :
  exists token,
    _generateToken "9.9.9.9" None node = Ok token node /\
    let st1 := final (_rotateSecrets (repeat x33 20) [] node) in
    let st2 := final (_rotateSecrets (repeat x44 20) [] st1) in
    _isValidToken (JBuf token) "9.9.9.9" node = Ok true node /\
    _isValidToken (JBuf token) "9.9.9.9" st1 = Ok true st1 /\
    _isValidToken (JBuf token) "9.9.9.9" st2 = Ok false st2.
Proof.
  apply (token_validity node "9.9.9.9" (repeat x11 20) (repeat x22 20)).
  - reflexivity.
  - discriminate.
  - discriminate.
  - intros Heq. vm_compute in Heq. discriminate.
  - intros Heq. vm_compute in Heq. discriminate.
Defined.

(** C1.  A peer at 9.9.9.9:54321 announces [info_hash] with the token it
    was issued and [implied_port = 1].  The node acknowledges with
    [{ r: { id } }], but nothing is stored under the info-hash, where
    [addPeer] would have stored the endpoint. *)
Theorem announce_peer_not_stored :
  announce_valid "9.9.9.9" announce_implied node /\
  _onAnnouncePeer "9.9.9.9" 54321 announce_implied node =
    Ok tt (sent (ack announce_implied node) 54321 "9.9.9.9" node) /\
  stored_peers info_hash
    (final (_onAnnouncePeer "9.9.9.9" 54321 announce_implied node)) = [] /\
  stored_peers info_hash
    (final (addPeer "9.9.9.9:54321" (IdBuffer info_hash) node)) =
    [[x09; x09; x09; x09; xd4; x31]].
Proof. repeat split; vm_compute; reflexivity. Qed.

Lemma announce_effective_port_witness :
  announce_valid "9.9.9.9" announce_implied node /\
  _onAnnouncePeer "9.9.9.9" 54321 announce_implied node =
    _send "9.9.9.9" (JNum (Num 54321)) (ack announce_implied node) node.
Proof.
  assert (Hv : announce_valid "9.9.9.9" announce_implied node)
    by (split; vm_compute; reflexivity).
  split; [exact Hv |].
  exact (announce_effective_port "9.9.9.9" 54321 announce_implied node Hv).
Defined.

(** C3 fails when [a.implied_port] is absent: the query announces port
    6881 from UDP port 54321, and the port used is 54321. *)
Lemma announce_effective_port_counterexample :
  announce_valid "9.9.9.9" announce_without_implied_port node /\
  get_prop (get_prop announce_without_implied_port "a") "implied_port" = JUndefined /\
  get_prop (get_prop announce_without_implied_port "a") "port" = JNum (Num 6881) /\
  announce_port 54321 (get_prop announce_without_implied_port "a") = JNum (Num 54321) /\
  trace (final (_onAnnouncePeer "9.9.9.9" 54321 announce_without_implied_port node)) =
    [SocketSend (ack announce_without_implied_port node) (JNum (Num 54321)) "9.9.9.9"].
Proof. repeat split; vm_compute; reflexivity. Qed.

Lemma announce_ack_to_announced_port_witness :
  announce_valid "9.9.9.9" announce_explicit node /\
  _onAnnouncePeer "9.9.9.9" 54321 announce_explicit node =
    Ok tt (sent (ack announce_explicit node) 6881 "9.9.9.9" node).
Proof.
  assert (Hv : announce_valid "9.9.9.9" announce_explicit node)
    by (split; vm_compute; reflexivity).
  split; [exact Hv |].
  destruct (announce_ack_to_announced_port "9.9.9.9" 54321 announce_explicit node Hv
              eq_refl) as [_ Hport].
  destruct (Hport 6881%Z eq_refl) as [Hsent _].
  apply Hsent; [lia | reflexivity].
Defined.

(** C10 fails when [a.port] is no port that [_send] accepts: the query
    has a valid token, [implied_port = 0] and [port = 70000], and no
    acknowledgement is sent, neither to that port nor to any other. *)
Lemma announce_ack_to_announced_port_counterexample :
  announce_valid "9.9.9.9" announce_out_of_range node /\
  get_prop (get_prop announce_out_of_range "a") "implied_port" = JNum (Num 0) /\
  get_prop (get_prop announce_out_of_range "a") "port" = JNum (Num 70000) /\
  _onAnnouncePeer "9.9.9.9" 54321 announce_out_of_range node = Ok tt node /\
  trace (final (_onAnnouncePeer "9.9.9.9" 54321 announce_out_of_range node)) = [].
Proof. repeat split; vm_compute; reflexivity. Qed.

(** C4.  The compact form of 1.2.3.4:6881 is stored under [info_hash];
    [removePeer] on that address raises a ReferenceError and leaves the
    entry in place. *)
Theorem removePeer_raises :
  let st := final (addPeer "1.2.3.4:6881" (IdBuffer info_hash) node) in
  stored_peers info_hash st = [[x01; x02; x03; x04; x1a; xe1]] /\
  removePeer (IdBuffer info_hash) "1.2.3.4:6881" st =
    Throw (ReferenceError "removeIndex is not defined") st /\
  stored_peers info_hash (final (removePeer (IdBuffer info_hash) "1.2.3.4:6881" st)) =
    [[x01; x02; x03; x04; x1a; xe1]].
Proof. repeat split; vm_compute; reflexivity. Qed.

(** C9 fails on a field of 27 bytes: the length is no multiple of 26 and
    the contact of the leading record is returned. *)
Lemma parseNodeInfo_counterexample :
  (length node_info_27 mod 26)%nat <> 0%nat /\
  parseNodeInfo (JBuf node_info_27) = inr [Contact (repeat x02 20) "1.2.3.4:6881"].
Proof. split; [by vm_compute | vm_compute; reflexivity]. Qed.

(** C6.  A message from 1.2.3.4:6881 whose [t] is one byte long matches
    no pending transaction of the fresh node; handling it as a response
    raises an exception before any error is sent back, and handling it as
    an error raises the same exception before any warning.  With a [t] of
    two bytes the generic error 201 goes out. *)
Theorem unexpected_response_short_tid :
  matching_transaction "1.2.3.4" 6881 response_short_tid node = None /\
  _onResponseOrError "1.2.3.4" 6881 MESSAGE_TYPE.RESPONSE response_short_tid node =
    Throw (RangeError "Trying to read beyond buffer length") node /\
  _onResponseOrError "1.2.3.4" 6881 MESSAGE_TYPE.ERROR response_short_tid node =
    Throw (RangeError "Trying to read beyond buffer length") node /\
  _onResponseOrError "1.2.3.4" 6881 MESSAGE_TYPE.RESPONSE response_unknown_tid node =
    Ok tt (sent (error_reply 201 "unexpected message" (buf "aa")) 6881 "1.2.3.4" node).
Proof. repeat split; vm_compute; reflexivity. Qed.

(** [addNode] on a destroyed node. *)
Example destroyed_addNode :
  addNode "1.2.3.4:6881" (IdBuffer info_hash) (final (destroy Noop node)) =
    Throw (TypeError "Cannot call method 'add' of null") (final (destroy Noop node)).
Proof. vm_compute. reflexivity. Qed.



(** A ping is answered, then its timer fires and the answer comes again:
    the answer clears the timer, the callback is called once, and the
    late answer gets the generic error 201. *)
Example ping_resolved_once :
  timers (run (firstn 1 ping_run) node) = {[("1.2.3.4:6881", 1%N)]} /\
  timers (run (firstn 2 ping_run) node) = ∅ /\
  resolutions ("1.2.3.4:6881", 1%N) (run ping_run node) = 1%nat /\
  trace (run ping_run node) =
    [SocketSend (query_message (JBuf [x00; x01]) "ping" [("id", JBuf node_id)])
       (JNum (Num 6881)) "1.2.3.4";
     Resolve "1.2.3.4:6881" 1 None (JObj [("id", JBuf (far x02))]);
     Call "cb" None (JObj [("id", JBuf (far x02))]);
     SocketSend (error_reply 201 "unexpected message" (JBuf [x00; x01]))
       (JNum (Num 6881)) "1.2.3.4"].
Proof. split_and!; vm_compute; reflexivity. Qed.

(** ** The further properties on the reference node *)

Import Scenarios.

Lemma transactionId_roundtrip_witness :
  exists t,
    transactionIdToBuffer (JNum (Num 258)) = inr (JBuf t) /\
    length t = 2%nat /\
    readUInt16BE0 t = inr 258%N.
Proof. apply (transactionId_roundtrip 258). lia. Defined.

Lemma addPeer_stores_witness :
  string2compact "1.2.3.4:6881" = inr endpoint /\
  exists st',
    addPeer "1.2.3.4:6881" (IdBuffer info_hash) node = Ok tt st' /\
    stored_peers info_hash st' = [endpoint].
Proof.
  assert (Hc : string2compact "1.2.3.4:6881" = inr endpoint) by reflexivity.
  split; [exact Hc |].
  destruct (addPeer_stores "1.2.3.4:6881" info_hash endpoint ∅ node eq_refl Hc)
    as (st' & Hrun & Hstored & _).
  exists st'. split; [exact Hrun |]. exact Hstored.
Defined.

Lemma removePeer_absent_witness :
  stored_peers info_hash tracking = [endpoint] /\
  removePeer (IdBuffer info_hash) "5.6.7.8:6881" tracking = Ok tt tracking.
Proof.
  assert (Hs : stored_peers info_hash tracking = [endpoint])
    by (vm_compute; reflexivity).
  split; [exact Hs |].
  eapply (removePeer_absent info_hash "5.6.7.8:6881" [x05; x06; x07; x08; x1a; xe1]).
  - reflexivity.
  - reflexivity.
  - rewrite Hs. intros Hin. apply list_elem_of_singleton in Hin. discriminate Hin.
Defined.

(** The token that the node issues to 8.8.8.8 is refused from 9.9.9.9. *)
Lemma token_bound_to_host_witness :
  exists token,
    _generateToken "8.8.8.8" None node = Ok token node /\
    _isValidToken (JBuf token) "9.9.9.9" node = Ok false node.
Proof.
  destruct (token_bound_to_host "9.9.9.9" "8.8.8.8" (repeat x11 20) (repeat x22 20) node)
    as (token & Hissue & Hrefused & _).
  - reflexivity.
  - reflexivity.
  - discriminate.
  - intros Heq. vm_compute in Heq. discriminate.
  - intros Heq. vm_compute in Heq. discriminate.
  - exists token. split; [exact Hissue | exact Hrefused].
Defined.

(** The node of [Reference] answers a [get_peers] query of 9.9.9.9; it
    knows no peer and no node. *)
Lemma get_peers_token_accepted_witness :
  exists token,
    token = token_for "9.9.9.9" /\
    let st1 := final (_onGetPeers "9.9.9.9" 6881 get_peers node) in
    _isValidToken (JBuf token) "9.9.9.9" st1 = Ok true st1 /\
    let st2 := final (_rotateSecrets (repeat x33 20) [] st1) in
    _isValidToken (JBuf token) "9.9.9.9" st2 = Ok true st2.
Proof.
  destruct (get_peers_token_accepted "9.9.9.9" 6881 get_peers node
              (repeat x11 20) (repeat x22 20)
              (response get_peers
                 [("id", JBuf node_id); ("token", JBuf (token_for "9.9.9.9"));
                  ("nodes", JBuf [])])
              (JNum (Num 6881)) "9.9.9.9" (repeat x33 20) [])
    as (token & Htoken & Hnow & Hlater).
  - reflexivity.
  - vm_compute. reflexivity.
  - reflexivity.
  - exists token. split; [| split; [exact Hnow | exact Hlater]].
    change (JBuf (token_for "9.9.9.9") = JBuf token) in Htoken.
    symmetry. by apply JBuf_inj.
Defined.

Lemma addPeer_then_get_peers_witness :
  exists stored,
    endpoint ∈ stored /\
    _onGetPeers "9.9.9.9" 6881 get_peers tracking =
      _send "9.9.9.9" (JNum (Num 6881))
        (response get_peers
           [("id", JBuf node_id); ("token", JBuf (token_for "9.9.9.9"));
            ("values", JArr (map JBuf stored))]) tracking.
Proof.
  apply (addPeer_then_get_peers "1.2.3.4:6881" info_hash endpoint ∅
           (repeat x11 20) (repeat x22 20) "9.9.9.9" 6881 get_peers node);
    try reflexivity.
  discriminate.
Defined.

Lemma addPeer_rejected_leaves_entry_witness :
  exists e st',
    addPeer "nowhere" (IdBuffer info_hash) node = Throw e st' /\
    stored_peers info_hash st' = [] /\
    _onGetPeers "9.9.9.9" 6881 get_peers st' =
      _send "9.9.9.9" (JNum (Num 6881))
        (response get_peers
           [("id", JBuf node_id); ("token", JBuf (token_for "9.9.9.9"));
            ("values", JArr [])]) st'.
Proof.
  destruct (addPeer_rejected_leaves_entry "nowhere" info_hash
              (Error "invalid address format, expecting: 10.10.10.5:128") ∅
              (repeat x11 20) (repeat x22 20) "9.9.9.9" 6881 get_peers node)
    as (st' & Hthrow & Hreply); try reflexivity; [discriminate |].
  eexists _, st'. split; [exact Hthrow |]. split; [| exact Hreply].
  revert Hthrow. vm_compute. by intros [= <-].
Defined.

Lemma malformed_queries_witness :
  _onQuery "9.9.9.9" 6881 (query "vote" []) node =
    _sendError "9.9.9.9" (JNum (Num 6881)) (buf "aa") ERROR_TYPE.METHOD_UNKNOWN
      "unexpected query type vote" node.
Proof.
  destruct (malformed_queries "9.9.9.9" 6881 (query "vote" []) "vote" node
              ltac:(reflexivity))
    as (Hunknown & _).
  apply Hunknown. intros Hin. repeat (apply elem_of_cons in Hin as [Hin|Hin];
                                      [discriminate Hin |]).
  by apply elem_of_nil in Hin.
Defined.

(** A ping of 9.9.9.9 is answered; the same ping without [t] is not. *)
Lemma ping_answered_witness :
  _onData (inr (query "ping" [])) "9.9.9.9" 6881 node =
    Ok tt (sent (ack (query "ping" []) node) 6881 "9.9.9.9" node) /\
  exists e, _onData (inr ping_without_t) "9.9.9.9" 6881 node = Throw e node.
Proof.
  split.
  - apply (ping_answered "9.9.9.9" 6881 (query "ping" []) node);
      [reflexivity | reflexivity | lia | reflexivity].
  - apply (ping_answered "9.9.9.9" 6881 ping_without_t node);
      [reflexivity | reflexivity | lia | reflexivity].
Defined.

Lemma pinging_pending :
  pending_transaction ("1.2.3.4:6881", 1%N) (Direct (User (UserFn "cb"))) pinging.
Proof.
  split_and!; [vm_compute; reflexivity | vm_compute; reflexivity |].
  assert (Ht : timers pinging = {[("1.2.3.4:6881", 1%N)]}) by (vm_compute; reflexivity).
  rewrite Ht. by apply elem_of_singleton.
Qed.

(** The answer to the ping of [pinging] calls [cb] with [r]; an error
    whose [e] has no text raises a TypeError and leaves the ping
    pending. *)
Lemma response_settles_witness :
  trace (final (_onResponseOrError "1.2.3.4" 6881 "r" pong pinging)) =
    (trace pinging ++
     [Resolve "1.2.3.4:6881" 1 None (JObj [("id", JBuf (far x02))]);
      Call "cb" None (JObj [("id", JBuf (far x02))])])%list /\
  timers (final (_onResponseOrError "1.2.3.4" 6881 "r" pong pinging)) = ∅ /\
  _onResponseOrError "1.2.3.4" 6881 "e" error_without_text pinging =
    Throw (TypeError "Cannot convert object to primitive value") pinging.
Proof.
  destruct (response_settles "1.2.3.4" 6881 "r" pong [x00; x01] 1
              (Direct (User (UserFn "cb"))) pinging pinging_pending
              ltac:(reflexivity) ltac:(reflexivity))
    as (Hsettled & _).
  destruct (Hsettled None ltac:(reflexivity)) as (Hrun & _).
  destruct (response_settles "1.2.3.4" 6881 "e" error_without_text [x00; x01] 1
              (Direct (User (UserFn "cb"))) pinging pinging_pending
              ltac:(reflexivity) ltac:(reflexivity))
    as (_ & Hthrown).
  rewrite Hrun. split_and!; [vm_compute; reflexivity | vm_compute; reflexivity |].
  apply Hthrown. reflexivity.
Defined.

Lemma timeout_then_late_response_witness :
  exists st',
    fire_timeout ("1.2.3.4:6881", 1%N) pinging = Ok tt st' /\
    _onResponseOrError "1.2.3.4" 6881 MESSAGE_TYPE.RESPONSE pong st' =
      _send "1.2.3.4" (JNum (Num 6881))
        (error_reply ERROR_TYPE.GENERIC "unexpected message" (JBuf [x00; x01])) st'.
Proof.
  destruct (timeout_then_late_response "1.2.3.4" 6881 1 (UserFn "cb") pinging
              pinging_pending) as (st' & Hfire & _ & _ & Hlate).
  exists st'. split; [exact Hfire |]. by apply Hlate.
Defined.

Lemma _sendPing_registers_witness :
  exists st',
    _sendPing "1.2.3.4" (Num 6881) (User (UserFn "cb")) node = Ok tt st' /\
    pending_transaction ("1.2.3.4:6881", 1%N) (Direct (User (UserFn "cb"))) st' /\
    trace st' =
      [SocketSend (query_message (JBuf [x00; x01]) "ping" [("id", JBuf node_id)])
         (JNum (Num 6881)) "1.2.3.4"].
Proof.
  apply (_sendPing_registers "1.2.3.4" 6881 (User (UserFn "cb")) node);
    [vm_compute; discriminate | lia].
Defined.

(** After 65535 queries to 1.2.3.4:6881 the next ping is registered but
    not sent. *)
Lemma transaction_id_overflow_witness :
  next_id "1.2.3.4:6881" exhausted = 65536%N /\
  exists st',
    _sendPing "1.2.3.4" (Num 6881) (User (UserFn "cb")) exhausted =
      Throw (TypeError "value is out of bounds") st' /\
    pending_transaction ("1.2.3.4:6881", 65536%N) (Direct (User (UserFn "cb"))) st' /\
    trace st' = trace exhausted.
Proof.
  split; [vm_compute; reflexivity |].
  apply (transaction_id_overflow "1.2.3.4" 6881 (User (UserFn "cb")) exhausted).
  vm_compute. reflexivity.
Defined.

(** The probe of the seed of [looking_up] is in flight when the node is
    destroyed. *)
Lemma timeout_after_destroy_witness :
  ("9.9.9.9:6881", 1%N) ∈ timers abandoned /\
  exists st'',
    fire_timeout ("9.9.9.9:6881", 1%N) abandoned =
      Throw (TypeError "Cannot call method 'closest' of null") st''.
Proof.
  apply (timeout_after_destroy ("9.9.9.9:6881", 1%N)
           (FindNodeDone (LookupOnResponse 0)) 0 Noop looking_up).
  - vm_compute. reflexivity.
  - by left.
  - assert (Ht : timers looking_up = {[("9.9.9.9:6881", 1%N)]})
      by (vm_compute; reflexivity).
    rewrite Ht. by apply elem_of_singleton.
Defined.

(** Four seeds, one more than [MAX_CONCURRENCY]. *)
Lemma lookup_probes_every_seed_witness :
  let seeds := ["1.1.1.1:6881"; "2.2.2.2:6881"; "3.3.3.3:6881"; "4.4.4.4:6881"] in
  lookups (final (lookup (IdBuffer target) (LookupOpts true (Some seeds)) Noop node)) =
    [LookupEnv target true (list_to_set seeds) 4 Noop].
Proof.
  intros seeds.
  apply (lookup_probes_every_seed (IdBuffer target) target true seeds Noop node);
    [reflexivity | reflexivity |].
  vm_compute. reflexivity.
Defined.

Lemma lookup_without_candidates_witness :
  lookup (IdBuffer target) (LookupOpts true None) (UserFn "done") node =
    Ok tt (set_trace [Call "done" None JUndefined]
             (set_lookups [LookupEnv target true ∅ 0 (UserFn "done")] node)).
Proof.
  apply (lookup_without_candidates (IdBuffer target) target true "done" [] node);
    reflexivity.
Defined.

Lemma parseNodeInfo_convertToNodeInfo_witness :
  exists nodeInfo,
    convertToNodeInfo contacts = inr nodeInfo /\
    length nodeInfo = 104%nat /\
    parseNodeInfo (JBuf nodeInfo) = inr contacts.
Proof.
  apply (parseNodeInfo_convertToNodeInfo contacts).
  repeat constructor; eexists; split_and!; vm_compute; reflexivity.
Defined.

Lemma parsePeerInfo_all_or_nothing_witness :
  parsePeerInfo (JArr [JBuf endpoint]) = inr ["1.2.3.4:6881"] /\
  parsePeerInfo (JArr [JBuf endpoint; JBuf [x01]]) = inr [] /\
  parsePeerInfo (JArr [JBuf endpoint; JObj [("toString", JNum (Num 1))]]) =
    inl (TypeError "Cannot convert object to primitive value").
Proof.
  destruct (parsePeerInfo_all_or_nothing [endpoint] (JBuf [x01]) [])
    as (Hall & Hnothing & _).
  - repeat constructor.
  - intros b [= <-]. split; discriminate.
  - destruct (parsePeerInfo_all_or_nothing [endpoint]
                (JObj [("toString", JNum (Num 1))]) [])
      as (_ & _ & Hthrown).
    + repeat constructor.
    + discriminate.
    + split_and!; [exact Hall | by eapply Hnothing | by apply Hthrown].
Defined.


Lemma looking_up_pending :
  pending_transaction ("9.9.9.9:6881", 1%N) (FindNodeDone (LookupOnResponse 0))
    looking_up.
Proof.
  split_and!; [vm_compute; reflexivity | vm_compute; reflexivity |].
  assert (Ht : timers looking_up = {[("9.9.9.9:6881", 1%N)]}) by (vm_compute; reflexivity).
  rewrite Ht. by apply elem_of_singleton.
Qed.

(** The seed of [looking_up] answers without [r]. *)
Lemma response_without_r_throws_witness :
  exists st',
    _onResponseOrError "9.9.9.9" 6881 MESSAGE_TYPE.RESPONSE response_without_r
      looking_up =
      Throw (TypeError "Cannot read property 'nodes' of undefined") st' /\
    trace st' = (trace looking_up ++ [Resolve "9.9.9.9:6881" 1 None JUndefined])%list.
Proof.
  destruct (response_without_r_throws "9.9.9.9" 6881 response_without_r
              [x00; x01] 1 (FindNodeDone (LookupOnResponse 0)) (LookupOnResponse 0)
              looking_up looking_up_pending (or_introl eq_refl)
              ltac:(reflexivity) ltac:(reflexivity) ltac:(reflexivity))
    as (Hthrow & Htrace & _).
  eexists. split; [exact Hthrow | exact Htrace].
Defined.

Lemma find_node_response_ingested_witness :
  nodes (final (_sendFindNode_done (User (UserFn "cb")) None found node)) =
    Some [Contact (repeat x02 20) "1.2.3.4:6881"].
Proof.
  destruct (find_node_response_ingested (UserFn "cb") found
              (repeat x02 20 ++ [x01; x02; x03; x04; x1a; xe1])%list [] node
              ltac:(reflexivity) ltac:(reflexivity))
    as (parsed & Hparsed & Hrun).
  rewrite Hrun. injection Hparsed as <-. vm_compute. reflexivity.
Defined.

Lemma get_peers_response_stored_witness :
  exists st',
    _sendGetPeers_done info_hash (User (UserFn "cb")) None got node = Ok tt st' /\
    endpoint ∈ stored_peers info_hash st'.
Proof.
  destruct (get_peers_response_stored info_hash "cb" got [endpoint] ∅ node)
    as (st' & Hrun & Hall & _).
  - reflexivity.
  - reflexivity.
  - repeat constructor.
  - intros b Hb. apply list_elem_of_singleton in Hb. subst b. reflexivity.
  - reflexivity.
  - exists st'. split; [exact Hrun |]. apply Hall. left.
    by apply list_elem_of_singleton.
Defined.

Lemma announce_sent_with_implied_port_witness :
  let message :=
    query_message (JBuf [x00; x01]) "announce_peer"
      [("id", JBuf node_id); ("info_hash", JBuf info_hash);
       ("port", JNum (Num 7000)); ("token", JBuf (repeat x00 20));
       ("implied_port", JNum (Num 1))] in
  get_prop (get_prop message "a") "port" = JNum (Num 7000) /\
  forall source_port,
    announce_port source_port (get_prop message "a") = JNum (Num source_port).
Proof.
  intros message.
  apply (announce_sent_with_implied_port "1.2.3.4" (Num 6881) (IdBuffer info_hash)
           7000 (repeat x00 20) (User Noop) node message (JNum (Num 6881)) "1.2.3.4").
  vm_compute. reflexivity.
Defined.

Lemma listen_once_witness :
  let st1 := final (listen (Some 6881%Z) (Some "onlistening") node) in
  let st2 := final (_onListening st1) in
  trace st2 =
    [OnceListening "onlistening"; SocketBind 6881; EmitListening (Some 6881%Z)] /\
  port st2 = Some 6881%Z /\
  forall p' name', listen p' name' st2 = Ok tt st2.
Proof.
  apply (listen_once 6881 "onlistening" node); [reflexivity | reflexivity | lia].
Defined.

(** ** The packages and the language on examples *)

(** The [ping] query of BEP 5, as [bncode.encode] writes it. *)
Example bncode_encode_ping :
  bncode_encode
    (JObj [("t", buf "aa"); ("y", buf "q"); ("q", buf "ping");
           ("a", JObj [("id", buf "abcdefghij0123456789")])]) =
    inr (list_byte_of_string "d1:ad2:id20:abcdefghij0123456789e1:q4:ping1:t2:aa1:y1:qe").
Proof. vm_compute. reflexivity. Qed.

(** A reply that echoes an absent [t] is not written. *)
Example bncode_encode_without_t :
  bncode_encode (ack ping_without_t node) = inl (TypeError "undefined cannot be encoded").
Proof. vm_compute. reflexivity. Qed.

(** [addPeer] under a name that the store inherits. *)
Example addPeer_inherited :
  addPeer "1.2.3.4:6881" (IdString "constructor") node =
    Throw (TypeError "Object has no method 'some'") node.
Proof. vm_compute. reflexivity. Qed.

(** [parseNodeInfo] on values that are no Buffer. *)
Example parseNodeInfo_no_Buffer :
  parseNodeInfo (JNum (Num 26)) = inr [] /\
  parseNodeInfo (JArr [JBuf endpoint]) = inr [] /\
  parseNodeInfo (JArr [JObj [("toString", JNum (Num 1))]]) =
    inl (TypeError "Cannot convert object to primitive value").
Proof. split_and!; vm_compute; reflexivity. Qed.

End Examples.
